(** * Astro-tracker server: risk scoring and alert dispatch

    A shallow embedding of the scoring and alert pipeline of the server
    ([services/riskEngine.js], [services/alertDispatcher.js],
    [services/nasaService.js], [services/scheduler.js] and the Mongoose
    models [Asteroid], [Alert], [User]) together with the properties the
    specification states about it.

    Conventions of the embedding.
    - A JavaScript [Number] is idealised as a real number.  A value that may
      be [undefined], [null] or [NaN] is an [option R] whose [None] stands for
      all three (the code only tests such values for truthiness or compares
      them, and the three behave alike there); the infinities are outside the
      model.
    - Integers produced by [Math.round], and instants in milliseconds since
      the epoch, are [Z].
    - A Mongo collection is the list of its documents, oldest first.
    - Asynchronous code runs in a small state-and-exception monad over a
      [World]: the three collections, the clock, the events emitted on the
      socket, the feed source, and an oracle that tells for each store call
      how long it takes and whether the store raises.
    - Of Mongoose the embedding takes that [timestamps: true] maintains
      [createdAt] and [updatedAt], that an update leaves out the keys whose
      value is [undefined], that an invalid date does not cast, and that
      [runValidators] checks [min] and [max].
    - Console output is left out. *)

From Stdlib Require Import Reals Lra Lia ZArith List String Ascii Bool Sorted Permutation.
Import ListNotations.

(** ** JavaScript values *)

Module Js.

Local Open Scope R_scope.

(** A [Number] that may be missing. *)
Definition num := option R.

Definition Rleb (x y : R) : bool := if Rle_dec x y then true else false.
Definition Rltb (x y : R) : bool := if Rlt_dec x y then true else false.
Definition Reqb (x y : R) : bool := if Req_dec_T x y then true else false.

(** [!x] *)
Definition falsy (x : num) : bool :=
  match x with
  | None => true
  | Some r => Reqb r 0
  end.

Definition truthy (x : num) : bool := negb (falsy x).

(** [x || 0]: the operand when it is truthy, [0] otherwise. *)
Definition or0 (x : num) : R :=
  match x with
  | None => 0
  | Some r => r
  end.

(** Relational operators: a comparison with a missing operand is [false]. *)
Definition lt (x y : num) : bool :=
  match x, y with
  | Some a, Some b => Rltb a b
  | _, _ => false
  end.

Definition gt (x y : num) : bool := lt y x.

Definition le (x y : num) : bool :=
  match x, y with
  | Some a, Some b => Rleb a b
  | _, _ => false
  end.

Definition ge (x y : num) : bool := le y x.

(** [Math.round]: the nearest integer, halves going up. *)
Definition Math_round (x : R) : Z := Zfloor (x + / 2).

(** [Math.log10] *)
Definition Math_log10 (x : R) : R := ln x / ln 10.

(** Truthiness of a string: the empty string is falsy. *)
Definition truthy_string (s : option string) : bool :=
  match s with
  | Some EmptyString | None => false
  | Some _ => true
  end.

(** Array.prototype.includes on strings. *)
Definition includes (l : list string) (s : string) : bool :=
  existsb (String.eqb s) l.

(** One day, in milliseconds. *)
Definition DAY_MS : Z := 24 * 60 * 60 * 1000.

End Js.

(** ** The raw object of the NeoWs feed

    The feed gives distances and velocities as decimal strings; a field holds
    what [parseFloat] reads from the string ([None] when the property is
    missing or is no number).  A date text comes with the instant that
    [new Date(text)] denotes ([None] for an invalid date). *)

Module Nasa.

Record Meters := {
  estimated_diameter_min : Js.num;
  estimated_diameter_max : Js.num }.

Record EstimatedDiameter := { meters : option Meters }.

Record MissDistance := {
  astronomical : Js.num;
  lunar : Js.num;
  kilometers : Js.num }.

Record RelativeVelocity := {
  kilometers_per_second : Js.num;
  kilometers_per_hour : Js.num }.

Record DateText := { text : string; instant : option Z }.

Record CloseApproach := {
  close_approach_date : option DateText;
  close_approach_date_full : option DateText;
  miss_distance : option MissDistance;
  relative_velocity : option RelativeVelocity;
  orbiting_body : option string }.

Record Neo := {
  id : string;
  neo_reference_id : option string;
  name : string;
  nasa_jpl_url : option string;
  absolute_magnitude_h : Js.num;
  estimated_diameter : option EstimatedDiameter;
  is_potentially_hazardous_asteroid : option bool;
  close_approach_data : list CloseApproach }.

(** [new Date(d)] for a date text that may be missing. *)
Definition new_Date (d : option DateText) : option Z :=
  match d with
  | Some t => instant t
  | None => None
  end.

Definition date_string (d : option DateText) : option string :=
  match d with
  | Some t => Some (text t)
  | None => None
  end.

End Nasa.

(** ** The risk engine ([services/riskEngine.js]) *)

Module RiskEngine.

Local Open Scope R_scope.

Definition MAX_DIAMETER : R := 1000.
Definition MAX_VELOCITY : R := 30.
Definition MIN_SAFE_DISTANCE : R := 1.
Definition MAX_CONCERNING_DISTANCE : R := 50.

Definition calculateDiameterScore (diameterMeters : Js.num) : R :=
  if Js.falsy diameterMeters || Js.le diameterMeters (Some 0) then 0
  else
    let logScore :=
      Js.Math_log10 (Js.or0 diameterMeters) / Js.Math_log10 MAX_DIAMETER * 100 in
    Rmin 100 (Rmax 0 logScore).

Definition calculateDistanceScore (lunarDistance : Js.num) : R :=
  if Js.falsy lunarDistance || Js.le lunarDistance (Some 0) then 100
  else if Js.le lunarDistance (Some MIN_SAFE_DISTANCE) then 100
  else if Js.ge lunarDistance (Some MAX_CONCERNING_DISTANCE) then 0
  else
    let score :=
      (MAX_CONCERNING_DISTANCE - Js.or0 lunarDistance)
      / (MAX_CONCERNING_DISTANCE - MIN_SAFE_DISTANCE) * 100 in
    Rmin 100 (Rmax 0 score).

Definition calculateVelocityScore (velocityKmS : Js.num) : R :=
  if Js.falsy velocityKmS || Js.le velocityKmS (Some 0) then 0
  else
    let score := Js.or0 velocityKmS / MAX_VELOCITY * 100 in
    Rmin 100 (Rmax 0 score).

Inductive RiskCategory := minimal | low | moderate | high.

Definition getRiskCategory (score : Z) : RiskCategory :=
  if (76 <=? score)%Z then high
  else if (51 <=? score)%Z then moderate
  else if (26 <=? score)%Z then low
  else minimal.

(** The properties [calculateRiskScore] reads from its argument, which is
    either a raw feed object or a stored document: a property the object
    does not have is [None]. *)
Record Subject := {
  is_potentially_hazardous_asteroid : option bool;
  isPotentiallyHazardous : option bool;
  estimatedDiameterMax : Js.num;
  estimated_diameter : option Nasa.EstimatedDiameter;
  missDistanceLunar : Js.num;
  close_approach_data : list Nasa.CloseApproach;
  relativeVelocityKmS : Js.num }.

Record Breakdown := {
  b_hazardWeight : Z;
  b_diameterScore : Z;
  b_distanceScore : Z;
  b_velocityScore : Z }.

Record Factors := {
  isHazardous : bool;
  diameterMeters : R;
  lunarDistance : R;
  velocityKmS : R }.

Record Risk := {
  score : Z;
  category : RiskCategory;
  breakdown : Breakdown;
  factors : Factors }.

(** [a ?? b ?? false] *)
Definition hazard_flag (asteroid : Subject) : bool :=
  match is_potentially_hazardous_asteroid asteroid with
  | Some b => b
  | None =>
      match isPotentiallyHazardous asteroid with
      | Some b => b
      | None => false
      end
  end.

(** [asteroid.estimated_diameter?.meters] *)
Definition meters_of (asteroid : Subject) : option Nasa.Meters :=
  match estimated_diameter asteroid with
  | Some e => Nasa.meters e
  | None => None
  end.

(** [parseFloat(c.miss_distance?.lunar)] *)
Definition lunar_of (c : Nasa.CloseApproach) : Js.num :=
  match Nasa.miss_distance c with
  | Some m => Nasa.lunar m
  | None => None
  end.

(** [parseFloat(c.relative_velocity?.kilometers_per_second)] *)
Definition kps_of (c : Nasa.CloseApproach) : Js.num :=
  match Nasa.relative_velocity c with
  | Some v => Nasa.kilometers_per_second v
  | None => None
  end.

Definition weighted (hazardWeight diameterScore distanceScore velocityScore : R) : R :=
  hazardWeight * 0.40 + diameterScore * 0.25 + distanceScore * 0.25
  + velocityScore * 0.10.

Definition calculateRiskScore (asteroid : Subject) : Risk :=
  let isHazardous := hazard_flag asteroid in
  let diameter :=
    if Js.falsy (estimatedDiameterMax asteroid) then
      match meters_of asteroid with
      | Some m => Nasa.estimated_diameter_max m
      | None => estimatedDiameterMax asteroid
      end
    else estimatedDiameterMax asteroid in
  let lunarDistance :=
    if Js.falsy (missDistanceLunar asteroid) then
      match close_approach_data asteroid with
      | c :: _ => Some (Js.or0 (lunar_of c))
      | [] => missDistanceLunar asteroid
      end
    else missDistanceLunar asteroid in
  let velocity :=
    if Js.falsy (relativeVelocityKmS asteroid) then
      match close_approach_data asteroid with
      | c :: _ => Some (Js.or0 (kps_of c))
      | [] => relativeVelocityKmS asteroid
      end
    else relativeVelocityKmS asteroid in
  let hazardWeight := if isHazardous then 100 else 0 in
  let diameterScore := calculateDiameterScore diameter in
  let distanceScore := calculateDistanceScore lunarDistance in
  let velocityScore := calculateVelocityScore velocity in
  let totalScore :=
    Js.Math_round (weighted hazardWeight diameterScore distanceScore velocityScore) in
  let finalScore := Z.min 100 (Z.max 1 totalScore) in
  {| score := finalScore;
     category := getRiskCategory finalScore;
     breakdown :=
       {| b_hazardWeight := Js.Math_round (hazardWeight * 0.40);
          b_diameterScore := Js.Math_round (diameterScore * 0.25);
          b_distanceScore := Js.Math_round (distanceScore * 0.25);
          b_velocityScore := Js.Math_round (velocityScore * 0.10) |};
     factors :=
       {| isHazardous := isHazardous;
          diameterMeters := Js.or0 diameter;
          lunarDistance := Js.or0 lunarDistance;
          velocityKmS := Js.or0 velocity |} |}.

(** A raw feed object as [calculateRiskScore] sees it: the stored-shape
    properties are absent. *)
Definition of_feed (neo : Nasa.Neo) : Subject :=
  {| is_potentially_hazardous_asteroid := Nasa.is_potentially_hazardous_asteroid neo;
     isPotentiallyHazardous := None;
     estimatedDiameterMax := None;
     estimated_diameter := Nasa.estimated_diameter neo;
     missDistanceLunar := None;
     close_approach_data := Nasa.close_approach_data neo;
     relativeVelocityKmS := None |}.

End RiskEngine.

(** ** Documents of the three collections *)

(** The [Asteroid] schema, with the [createdAt]/[updatedAt] pair of its
    [timestamps: true] option. *)
Module AsteroidDoc.

Record t := {
  neo_reference_id : string;
  name : string;
  nasa_jpl_url : option string;
  absolute_magnitude_h : Js.num;
  riskScore : Js.num;
  riskCategory : RiskEngine.RiskCategory;
  isPotentiallyHazardous : bool;
  estimatedDiameterMin : Js.num;
  estimatedDiameterMax : Js.num;
  closeApproachDate : Z;
  closeApproachDateFull : option string;
  missDistanceKm : Js.num;
  missDistanceAu : Js.num;
  missDistanceLunar : Js.num;
  relativeVelocityKmS : Js.num;
  relativeVelocityKmH : Js.num;
  orbitingBody : string;
  raw_data : Nasa.Neo;
  expiresAt : Z;
  lastFetchedAt : Z;
  createdAt : Z;
  updatedAt : Z }.

End AsteroidDoc.

(** The part of the [User] schema the pipeline reads. *)
Module UserDoc.

Record AlertSettings := {
  enabled : bool;
  minDiameter : Js.num;
  maxDistance : Js.num;
  riskThreshold : Js.num }.

Record t := {
  _id : nat;
  email : string;
  watched_asteroid_ids : list string;
  alertSettings : AlertSettings }.

End UserDoc.

(** The [Alert] schema.  The title and message texts, which are formatted
    from the fields kept in [data], are left out. *)
Module AlertDoc.

Inductive AlertType := close_approach | high_risk | watched_update | new_hazardous.

Inductive Severity := info | warning | danger.

Record Data := {
  d_riskScore : Js.num;
  d_missDistanceKm : Js.num;
  d_missDistanceLunar : Js.num;
  d_closeApproachDate : Z;
  d_velocity : Js.num;
  d_diameter : Js.num }.

Record t := {
  userId : nat;
  asteroidId : string;
  asteroidName : string;
  type : AlertType;
  severity : Severity;
  data : Data;
  isRead : bool;
  eventDate : Z;
  createdAt : Z;
  updatedAt : Z }.

End AlertDoc.

(** ** The feed source, the socket and the world *)

Module Feed.

(** The body of a successful response; [near_earth_objects] maps a UTC day
    (the text YYYY-MM-DD, represented by the day's number since the epoch)
    to that day's objects, in the order of [Object.keys]. *)
Record Data := {
  element_count : Js.num;
  near_earth_objects : option (list (Z * list Nasa.Neo)) }.

(** What one request to the feed comes to. *)
Inductive Response :=
| Rejected (message : string)
| NotOk (status : nat) (statusText : string)
| BadJson (message : string)
| Body (data : Data).

End Feed.

(** What a [catch] can receive. *)
Inductive Error :=
| FetchError (message : string)
| NasaApiError (status : nat) (statusText : string)
| StoreError
| ValidationError
| CastError
| TypeError.

Module Stats.

Record t := {
  total : nat;
  processed : nat;
  hazardous : nat;
  highRisk : nat;
  errors : nat }.

End Stats.

Module Io.

(** The events of the socket, each with what its payload is built from. *)
Inductive Payload :=
| CLOSE_APPROACH_ALERT (alert : AlertDoc.t) (asteroid : AsteroidDoc.t) (timestamp : Z)
| NEW_HAZARDOUS_ASTEROID (asteroid : AsteroidDoc.t) (timestamp : Z)
| DAILY_UPDATE (stats : Stats.t) (timestamp : Z)
| WEEKLY_UPDATE (stats : Stats.t) (timestamp : Z).

(** An emission: the room of a user, or [None] for a broadcast, and the
    event. *)
Record Event := { room : option nat; payload : Payload }.

End Io.

Module Effect.

(** One store call as the environment decides it: the time it takes and
    whether the store raises. *)
Record Tick := { elapsed : N; fails : bool }.

Record World := {
  asteroids : list AsteroidDoc.t;
  alerts : list AlertDoc.t;
  users : list UserDoc.t;
  clock : Z;
  ops : nat;
  oracle : nat -> Tick;
  nasa : Z -> Z -> Feed.Response;
  emitted : list Io.Event }.

Definition set_asteroids (l : list AsteroidDoc.t) (w : World) : World :=
  {| asteroids := l; alerts := alerts w; users := users w; clock := clock w;
     ops := ops w; oracle := oracle w; nasa := nasa w; emitted := emitted w |}.

Definition set_alerts (l : list AlertDoc.t) (w : World) : World :=
  {| asteroids := asteroids w; alerts := l; users := users w; clock := clock w;
     ops := ops w; oracle := oracle w; nasa := nasa w; emitted := emitted w |}.

Definition push_event (e : Io.Event) (w : World) : World :=
  {| asteroids := asteroids w; alerts := alerts w; users := users w;
     clock := clock w; ops := ops w; oracle := oracle w; nasa := nasa w;
     emitted := emitted w ++ [e] |}.

(** The call in flight is over: the clock has moved on by what the oracle
    says, and the next call will ask the oracle's next entry. *)
Definition tick (w : World) : World :=
  {| asteroids := asteroids w; alerts := alerts w; users := users w;
     clock := clock w + Z.of_N (elapsed (oracle w (ops w)));
     ops := S (ops w); oracle := oracle w; nasa := nasa w;
     emitted := emitted w |}.

Inductive Result (A : Type) :=
| Ok (a : A)
| Throw (e : Error).

Arguments Ok {A} a.
Arguments Throw {A} e.

Definition M (A : Type) : Type := World -> Result A * World.

Definition ret {A} (a : A) : M A := fun w => (Ok a, w).

Definition throw {A} (e : Error) : M A := fun w => (Throw e, w).

Definition bind {A B} (m : M A) (k : A -> M B) : M B :=
  fun w =>
    match m w with
    | (Ok a, w') => k a w'
    | (Throw e, w') => (Throw e, w')
    end.

(** [try { m } catch (error) { handler }] *)
Definition try_catch {A} (m : M A) (handler : Error -> M A) : M A :=
  fun w =>
    match m w with
    | (Ok a, w') => (Ok a, w')
    | (Throw e, w') => handler e w'
    end.

(** [Date.now()] and [new Date()] *)
Definition Date_now : M Z := fun w => (Ok (clock w), w).

(** [await] of a store call: the store raises when the oracle says so,
    otherwise the call does its work; either way time passes. *)
Definition await_store {A} (call : World -> Result A * World) : M A :=
  fun w =>
    if fails (oracle w (ops w)) then (Throw StoreError, tick w)
    else let (r, w') := call w in (r, tick w').

(** [io.emit] and [io.to(room).emit] *)
Definition emit (e : Io.Event) : M unit := fun w => (Ok tt, push_event e w).

(** [for (const x of l) { s = body(s, x) }] for a loop that updates the
    local [s]; a [Throw] that escapes the body ends the loop. *)
Fixpoint for_of {A S} (l : list A) (body : S -> A -> M S) (s : S) : M S :=
  match l with
  | [] => ret s
  | x :: l' => bind (body s x) (for_of l' body)
  end.

End Effect.

Declare Scope js_scope.
Delimit Scope js_scope with js.
Notation "x <- m ;; k" := (Effect.bind m (fun x => k))
  (at level 61, m at next level, right associativity) : js_scope.
Notation "m ;;; k" := (Effect.bind m (fun _ => k))
  (at level 61, right associativity) : js_scope.

(** ** The models: statics of [Asteroid], [Alert] and [User] *)

Module Asteroid.

Import Effect.
Local Open Scope js_scope.
Local Open Scope Z_scope.

(** [{}], the stand-in for a missing first close approach. *)
Definition no_approach : Nasa.CloseApproach :=
  {| Nasa.close_approach_date := None;
     Nasa.close_approach_date_full := None;
     Nasa.miss_distance := None;
     Nasa.relative_velocity := None;
     Nasa.orbiting_body := None |}.

(** [{}], the stand-in for a missing diameter in meters. *)
Definition no_meters : Nasa.Meters :=
  {| Nasa.estimated_diameter_min := None; Nasa.estimated_diameter_max := None |}.

(** [parseFloat(closeApproach.miss_distance?.unit)] *)
Definition miss (c : Nasa.CloseApproach) (unit : Nasa.MissDistance -> Js.num) : Js.num :=
  match Nasa.miss_distance c with
  | Some m => unit m
  | None => None
  end.

(** [parseFloat(closeApproach.relative_velocity?.unit)] *)
Definition speed (c : Nasa.CloseApproach) (unit : Nasa.RelativeVelocity -> Js.num) : Js.num :=
  match Nasa.relative_velocity c with
  | Some v => unit v
  | None => None
  end.

(** The update document [asteroidData] built at instant [now].  Its
    [closeApproachDate] may be an invalid date, so it is kept apart; the
    [createdAt]/[updatedAt] pair is what the [timestamps] option adds. *)
Definition asteroidData (nasaData : Nasa.Neo) (riskScore : Z)
    (riskCategory : RiskEngine.RiskCategory) (now : Z) : AsteroidDoc.t * option Z :=
  let closeApproach :=
    match Nasa.close_approach_data nasaData with
    | c :: _ => c
    | [] => no_approach
    end in
  let diameter :=
    match Nasa.estimated_diameter nasaData with
    | Some {| Nasa.meters := Some m |} => m
    | _ => no_meters
    end in
  let closeApproachDate :=
    if Js.truthy_string (Nasa.date_string (Nasa.close_approach_date_full closeApproach))
    then Nasa.new_Date (Nasa.close_approach_date_full closeApproach)
    else Nasa.new_Date (Nasa.close_approach_date closeApproach) in
  ({| AsteroidDoc.neo_reference_id :=
        if Js.truthy_string (Nasa.neo_reference_id nasaData)
        then match Nasa.neo_reference_id nasaData with
             | Some s => s
             | None => Nasa.id nasaData
             end
        else Nasa.id nasaData;
      AsteroidDoc.name := Nasa.name nasaData;
      AsteroidDoc.nasa_jpl_url := Nasa.nasa_jpl_url nasaData;
      AsteroidDoc.absolute_magnitude_h := Nasa.absolute_magnitude_h nasaData;
      AsteroidDoc.riskScore := Some (IZR riskScore);
      AsteroidDoc.riskCategory := riskCategory;
      AsteroidDoc.isPotentiallyHazardous :=
        match Nasa.is_potentially_hazardous_asteroid nasaData with
        | Some b => b
        | None => false
        end;
      AsteroidDoc.estimatedDiameterMin := Nasa.estimated_diameter_min diameter;
      AsteroidDoc.estimatedDiameterMax := Nasa.estimated_diameter_max diameter;
      AsteroidDoc.closeApproachDate :=
        match closeApproachDate with
        | Some d => d
        | None => 0
        end;
      AsteroidDoc.closeApproachDateFull :=
        Nasa.date_string (Nasa.close_approach_date_full closeApproach);
      AsteroidDoc.missDistanceKm := Some (Js.or0 (miss closeApproach Nasa.kilometers));
      AsteroidDoc.missDistanceAu := Some (Js.or0 (miss closeApproach Nasa.astronomical));
      AsteroidDoc.missDistanceLunar := Some (Js.or0 (miss closeApproach Nasa.lunar));
      AsteroidDoc.relativeVelocityKmS :=
        Some (Js.or0 (speed closeApproach Nasa.kilometers_per_second));
      AsteroidDoc.relativeVelocityKmH :=
        Some (Js.or0 (speed closeApproach Nasa.kilometers_per_hour));
      AsteroidDoc.orbitingBody :=
        if Js.truthy_string (Nasa.orbiting_body closeApproach)
        then match Nasa.orbiting_body closeApproach with
             | Some s => s
             | None => "Earth"%string
             end
        else "Earth"%string;
      AsteroidDoc.raw_data := nasaData;
      AsteroidDoc.expiresAt := now + Js.DAY_MS;
      AsteroidDoc.lastFetchedAt := now;
      AsteroidDoc.createdAt := now;
      AsteroidDoc.updatedAt := now |},
   closeApproachDate).

(** A key whose value is [undefined] is not part of the update: the stored
    value stays. *)
Definition keep {A} (new old : option A) : option A :=
  match new with
  | Some _ => new
  | None => old
  end.

(** The update applied to the matched document: [createdAt] is the only
    stored field the update never carries. *)
Definition apply_update (u old : AsteroidDoc.t) : AsteroidDoc.t :=
  {| AsteroidDoc.neo_reference_id := AsteroidDoc.neo_reference_id u;
     AsteroidDoc.name := AsteroidDoc.name u;
     AsteroidDoc.nasa_jpl_url :=
       keep (AsteroidDoc.nasa_jpl_url u) (AsteroidDoc.nasa_jpl_url old);
     AsteroidDoc.absolute_magnitude_h :=
       keep (AsteroidDoc.absolute_magnitude_h u) (AsteroidDoc.absolute_magnitude_h old);
     AsteroidDoc.riskScore := AsteroidDoc.riskScore u;
     AsteroidDoc.riskCategory := AsteroidDoc.riskCategory u;
     AsteroidDoc.isPotentiallyHazardous := AsteroidDoc.isPotentiallyHazardous u;
     AsteroidDoc.estimatedDiameterMin :=
       keep (AsteroidDoc.estimatedDiameterMin u) (AsteroidDoc.estimatedDiameterMin old);
     AsteroidDoc.estimatedDiameterMax :=
       keep (AsteroidDoc.estimatedDiameterMax u) (AsteroidDoc.estimatedDiameterMax old);
     AsteroidDoc.closeApproachDate := AsteroidDoc.closeApproachDate u;
     AsteroidDoc.closeApproachDateFull :=
       keep (AsteroidDoc.closeApproachDateFull u) (AsteroidDoc.closeApproachDateFull old);
     AsteroidDoc.missDistanceKm := AsteroidDoc.missDistanceKm u;
     AsteroidDoc.missDistanceAu := AsteroidDoc.missDistanceAu u;
     AsteroidDoc.missDistanceLunar := AsteroidDoc.missDistanceLunar u;
     AsteroidDoc.relativeVelocityKmS := AsteroidDoc.relativeVelocityKmS u;
     AsteroidDoc.relativeVelocityKmH := AsteroidDoc.relativeVelocityKmH u;
     AsteroidDoc.orbitingBody := AsteroidDoc.orbitingBody u;
     AsteroidDoc.raw_data := AsteroidDoc.raw_data u;
     AsteroidDoc.expiresAt := AsteroidDoc.expiresAt u;
     AsteroidDoc.lastFetchedAt := AsteroidDoc.lastFetchedAt u;
     AsteroidDoc.createdAt := AsteroidDoc.createdAt old;
     AsteroidDoc.updatedAt := AsteroidDoc.updatedAt u |}.

(** [findOneAndUpdate({neo_reference_id}, u, {upsert: true, new: true})] on
    the collection: the first document with the id is updated, and when
    there is none [u] is inserted.  Returns the collection and the document
    as it now stands. *)
Fixpoint findOneAndUpdate (u : AsteroidDoc.t) (l : list AsteroidDoc.t)
  : list AsteroidDoc.t * AsteroidDoc.t :=
  match l with
  | [] => ([u], u)
  | x :: l' =>
      if String.eqb (AsteroidDoc.neo_reference_id x) (AsteroidDoc.neo_reference_id u)
      then (apply_update u x :: l', apply_update u x)
      else let (l'', r) := findOneAndUpdate u l' in (x :: l'', r)
  end.

(** [asteroidSchema.statics.upsertFromNASA].  With [runValidators], an
    invalid date does not cast and a [riskScore] outside the schema's
    [min: 0, max: 100] does not validate. *)
Definition upsertFromNASA (nasaData : Nasa.Neo) (riskScore : Z)
    (riskCategory : RiskEngine.RiskCategory) : M AsteroidDoc.t :=
  now <- Date_now ;;
  let (u, closeApproachDate) := asteroidData nasaData riskScore riskCategory now in
  await_store (fun w =>
    match closeApproachDate with
    | None => (Throw CastError, w)
    | Some _ =>
        if (0 <=? riskScore) && (riskScore <=? 100) then
          let (l, r) := findOneAndUpdate u (asteroids w) in
          (Ok r, set_asteroids l w)
        else (Throw ValidationError, w)
    end).

(** [Asteroid.find({ closeApproachDate: { $gte, $lte } }).lean()] *)
Definition find_approaching (from to : Z) : M (list AsteroidDoc.t) :=
  await_store (fun w =>
    (Ok (filter (fun a => (from <=? AsteroidDoc.closeApproachDate a)
                          && (AsteroidDoc.closeApproachDate a <=? to))
                (asteroids w)), w)).

End Asteroid.

Module Alert.

Import Effect.
Local Open Scope js_scope.
Local Open Scope Z_scope.

(** The filter [{ userId, asteroidId, createdAt: { $gte: since } }]. *)
Definition recent (userId : nat) (asteroidId : string) (since : Z) (a : AlertDoc.t) : bool :=
  Nat.eqb (AlertDoc.userId a) userId
  && String.eqb (AlertDoc.asteroidId a) asteroidId
  && (since <=? AlertDoc.createdAt a).

(** [Alert.findOne(filter)] *)
Definition findOne (userId : nat) (asteroidId : string) (since : Z) : M (option AlertDoc.t) :=
  await_store (fun w => (Ok (find (recent userId asteroidId since) (alerts w)), w)).

Definition severity_of (riskScore : Js.num) : AlertDoc.Severity :=
  if Js.ge riskScore (Some 75%R) then AlertDoc.danger
  else if Js.ge riskScore (Some 50%R) then AlertDoc.warning
  else AlertDoc.info.

(** The document [createCloseApproachAlert] creates at instant [now]. *)
Definition closeApproachAlert (user : UserDoc.t) (asteroid : AsteroidDoc.t) (now : Z)
  : AlertDoc.t :=
  {| AlertDoc.userId := UserDoc._id user;
     AlertDoc.asteroidId := AsteroidDoc.neo_reference_id asteroid;
     AlertDoc.asteroidName := AsteroidDoc.name asteroid;
     AlertDoc.type := AlertDoc.close_approach;
     AlertDoc.severity := severity_of (AsteroidDoc.riskScore asteroid);
     AlertDoc.data :=
       {| AlertDoc.d_riskScore := AsteroidDoc.riskScore asteroid;
          AlertDoc.d_missDistanceKm := AsteroidDoc.missDistanceKm asteroid;
          AlertDoc.d_missDistanceLunar := AsteroidDoc.missDistanceLunar asteroid;
          AlertDoc.d_closeApproachDate := AsteroidDoc.closeApproachDate asteroid;
          AlertDoc.d_velocity := AsteroidDoc.relativeVelocityKmS asteroid;
          AlertDoc.d_diameter := AsteroidDoc.estimatedDiameterMax asteroid |};
     AlertDoc.isRead := false;
     AlertDoc.eventDate := AsteroidDoc.closeApproachDate asteroid;
     AlertDoc.createdAt := now;
     AlertDoc.updatedAt := now |}.

(** [alertSchema.statics.createCloseApproachAlert] *)
Definition createCloseApproachAlert (user : UserDoc.t) (asteroid : AsteroidDoc.t)
  : M AlertDoc.t :=
  now <- Date_now ;;
  let alert := closeApproachAlert user asteroid now in
  await_store (fun w => (Ok alert, set_alerts (alerts w ++ [alert]) w)).

End Alert.

Module User.

Import Effect.

(** The filter [{ watched_asteroid_ids: id, 'alertSettings.enabled': true }]. *)
Definition watching (id : string) (u : UserDoc.t) : bool :=
  Js.includes (UserDoc.watched_asteroid_ids u) id
  && UserDoc.enabled (UserDoc.alertSettings u).

(** The filter [{ 'alertSettings.enabled': true,
    'alertSettings.riskThreshold': { $lte: riskScore },
    watched_asteroid_ids: { $ne: id } }]. *)
Definition threshold_match (id : string) (riskScore : Js.num) (u : UserDoc.t) : bool :=
  UserDoc.enabled (UserDoc.alertSettings u)
  && Js.le (UserDoc.riskThreshold (UserDoc.alertSettings u)) riskScore
  && negb (Js.includes (UserDoc.watched_asteroid_ids u) id).

(** [User.find(filter)] *)
Definition find (filter : UserDoc.t -> bool) : M (list UserDoc.t) :=
  await_store (fun w => (Ok (List.filter filter (users w)), w)).

End User.

(** ** The feed client ([services/nasaService.js]) *)

Module NasaService.

Import Effect.
Local Open Scope js_scope.
Local Open Scope Z_scope.

(** [date.toISOString().split('T')[0]]: the UTC day of an instant. *)
Definition formatDate (date : Z) : Z := date / Js.DAY_MS.

(** What [fetchNeoFeed] resolves to. *)
Record FeedResult := {
  success : bool;
  error : option Error;
  element_count : Js.num;
  near_earth_objects : option (list (Z * list Nasa.Neo)) }.

(** The [try] block of [fetchNeoFeed]: the request, the status check and the
    reading of the body. *)
Definition request (start end_ : Z) : M Feed.Data :=
  fun w =>
    match nasa w start end_ with
    | Feed.Rejected m => (Throw (FetchError m), w)
    | Feed.NotOk status statusText => (Throw (NasaApiError status statusText), w)
    | Feed.BadJson m => (Throw (FetchError m), w)
    | Feed.Body data => (Ok data, w)
    end.

Definition fetchNeoFeed (startDate : Z) (endDate : option Z) : M FeedResult :=
  try_catch
    (let endDate :=
       match endDate with
       | Some e => e
       | None => startDate
       end in
     let start := formatDate startDate in
     let end_ := formatDate endDate in
     data <- request start end_ ;;
     ret {| success := true;
            error := None;
            element_count := Feed.element_count data;
            near_earth_objects := Feed.near_earth_objects data |})
    (fun error =>
       ret {| success := false;
              error := Some error;
              element_count := None;
              near_earth_objects := Some [] |}).

(** [m[dateKey] || []] *)
Fixpoint lookup (dateKey : Z) (m : list (Z * list Nasa.Neo)) : list Nasa.Neo :=
  match m with
  | [] => []
  | (k, v) :: m' => if k =? dateKey then v else lookup dateKey m'
  end.

Definition fetchTodayNeos : M (list Nasa.Neo) :=
  today <- Date_now ;;
  result <- fetchNeoFeed today (Some today) ;;
  if negb (success result) then ret []
  else
    let dateKey := formatDate today in
    match near_earth_objects result with
    | Some m => ret (lookup dateKey m)
    | None => throw TypeError
    end.

Definition fetchWeekNeos : M (list Nasa.Neo) :=
  today <- Date_now ;;
  let nextWeek := today + 6 * Js.DAY_MS in
  result <- fetchNeoFeed today (Some nextWeek) ;;
  if negb (success result) then ret []
  else
    match near_earth_objects result with
    | Some m => ret (List.concat (List.map snd m))
    | None => throw TypeError
    end.

End NasaService.

(** ** The alert dispatcher ([services/alertDispatcher.js]) *)

Module AlertDispatcher.

Import Effect.
Local Open Scope js_scope.

Definition matchesUserThresholds (asteroid : AsteroidDoc.t)
    (alertSettings : UserDoc.AlertSettings) : bool :=
  if Js.truthy (UserDoc.minDiameter alertSettings)
     && Js.lt (AsteroidDoc.estimatedDiameterMax asteroid) (UserDoc.minDiameter alertSettings)
  then false
  else if Js.truthy (UserDoc.maxDistance alertSettings)
          && Js.gt (AsteroidDoc.missDistanceLunar asteroid) (UserDoc.maxDistance alertSettings)
  then false
  else if Js.truthy (UserDoc.riskThreshold alertSettings)
          && Js.lt (AsteroidDoc.riskScore asteroid) (UserDoc.riskThreshold alertSettings)
  then false
  else true.

(** [io] is the socket when there is one. *)
Definition createAlertForUser (user : UserDoc.t) (asteroid : AsteroidDoc.t) (io : bool)
  : M (option AlertDoc.t) :=
  try_catch
    (now <- Date_now ;;
     existingAlert <- Alert.findOne (UserDoc._id user)
                        (AsteroidDoc.neo_reference_id asteroid) (now - Js.DAY_MS)%Z ;;
     match existingAlert with
     | Some _ => ret None
     | None =>
         alert <- Alert.createCloseApproachAlert user asteroid ;;
         (if io then
            timestamp <- Date_now ;;
            emit {| Io.room := Some (UserDoc._id user);
                    Io.payload := Io.CLOSE_APPROACH_ALERT alert asteroid timestamp |}
          else ret tt) ;;;
         ret (Some alert)
     end)
    (fun _ => ret None).

Record Dispatch := { alertsSent : nat; error : option Error }.

(** The three locals of the loop of [checkAndDispatchAlerts] over the
    asteroids: the users who watch the asteroid, *)
Definition watchingUsers (asteroid : AsteroidDoc.t) : M (list UserDoc.t) :=
  User.find (User.watching (AsteroidDoc.neo_reference_id asteroid)).

(** for a score of 50 or more the users whose threshold it reaches, *)
Definition thresholdUsers (asteroid : AsteroidDoc.t) : M (list UserDoc.t) :=
  if Js.ge (AsteroidDoc.riskScore asteroid) (Some 50%R)
  then User.find (User.threshold_match (AsteroidDoc.neo_reference_id asteroid)
                    (AsteroidDoc.riskScore asteroid))
  else ret [].

(** and [[...watchingUsers, ...thresholdUsers]]. *)
Definition usersToAlert (asteroid : AsteroidDoc.t) : M (list UserDoc.t) :=
  watching <- watchingUsers asteroid ;;
  threshold <- thresholdUsers asteroid ;;
  ret (watching ++ threshold).

Definition checkAndDispatchAlerts (io : bool) (daysAhead : Z) : M Dispatch :=
  try_catch
    (now <- Date_now ;;
     let futureDate := (now + daysAhead * Js.DAY_MS)%Z in
     upcomingAsteroids <- Asteroid.find_approaching now futureDate ;;
     if Nat.eqb (List.length upcomingAsteroids) 0 then ret {| alertsSent := 0; error := None |}
     else
       totalAlertsSent <-
         for_of upcomingAsteroids (fun totalAlertsSent asteroid =>
           users <- usersToAlert asteroid ;;
           for_of users (fun totalAlertsSent user =>
             if matchesUserThresholds asteroid (UserDoc.alertSettings user) then
               alert <- createAlertForUser user asteroid io ;;
               match alert with
               | Some _ => ret (S totalAlertsSent)
               | None => ret totalAlertsSent
               end
             else ret totalAlertsSent) totalAlertsSent) 0 ;;
       ret {| alertsSent := totalAlertsSent; error := None |})
    (fun error => ret {| alertsSent := 0; error := Some error |}).

Definition broadcastNewHazardousAsteroid (asteroid : AsteroidDoc.t) (io : bool) : M unit :=
  if negb io then ret tt
  else
    timestamp <- Date_now ;;
    emit {| Io.room := None; Io.payload := Io.NEW_HAZARDOUS_ASTEROID asteroid timestamp |}.

End AlertDispatcher.

(** ** The scheduler ([services/scheduler.js])

    [io] stands for the module's socket reference, [false] until
    [initScheduler] has set it. *)

Module Scheduler.

Import Effect.
Local Open Scope js_scope.

Definition count (b : bool) (n : nat) : nat := if b then S n else n.

(** The body of the loop of [processAndStoreAsteroids]; the only statement
    that can raise, the upsert, comes before the first update of [stats]. *)
Definition processOne (io : bool) (stats : Stats.t) (neo : Nasa.Neo) : M Stats.t :=
  try_catch
    (let risk := RiskEngine.calculateRiskScore (RiskEngine.of_feed neo) in
     asteroid <- Asteroid.upsertFromNASA neo (RiskEngine.score risk)
                   (RiskEngine.category risk) ;;
     let isHigh :=
       match RiskEngine.category risk with
       | RiskEngine.high => true
       | _ => false
       end in
     (if isHigh && io
      then AlertDispatcher.broadcastNewHazardousAsteroid asteroid io
      else ret tt) ;;;
     ret {| Stats.total := Stats.total stats;
            Stats.processed := S (Stats.processed stats);
            Stats.hazardous :=
              count (AsteroidDoc.isPotentiallyHazardous asteroid) (Stats.hazardous stats);
            Stats.highRisk := count isHigh (Stats.highRisk stats);
            Stats.errors := Stats.errors stats |})
    (fun _ =>
       ret {| Stats.total := Stats.total stats;
              Stats.processed := Stats.processed stats;
              Stats.hazardous := Stats.hazardous stats;
              Stats.highRisk := Stats.highRisk stats;
              Stats.errors := S (Stats.errors stats) |}).

Definition processAndStoreAsteroids (io : bool) (neoData : list Nasa.Neo) : M Stats.t :=
  for_of neoData (processOne io)
    {| Stats.total := List.length neoData;
       Stats.processed := 0;
       Stats.hazardous := 0;
       Stats.highRisk := 0;
       Stats.errors := 0 |}.

Definition runDailyFetch (io : bool) : M unit :=
  try_catch
    (todayNeos <- NasaService.fetchTodayNeos ;;
     if Nat.eqb (List.length todayNeos) 0 then ret tt
     else
       stats <- processAndStoreAsteroids io todayNeos ;;
       (if io then
          timestamp <- Date_now ;;
          emit {| Io.room := None; Io.payload := Io.DAILY_UPDATE stats timestamp |}
        else ret tt) ;;;
       AlertDispatcher.checkAndDispatchAlerts io 1 ;;;
       ret tt)
    (fun _ => ret tt).

Definition runWeeklyFetch (io : bool) : M unit :=
  try_catch
    (weekNeos <- NasaService.fetchWeekNeos ;;
     if Nat.eqb (List.length weekNeos) 0 then ret tt
     else
       stats <- processAndStoreAsteroids io weekNeos ;;
       (if io then
          timestamp <- Date_now ;;
          emit {| Io.room := None; Io.payload := Io.WEEKLY_UPDATE stats timestamp |}
        else ret tt) ;;;
       AlertDispatcher.checkAndDispatchAlerts io 7 ;;;
       ret tt)
    (fun _ => ret tt).

Inductive FetchType := today | week.

Definition triggerManualFetch (type : FetchType) (io : bool) : M unit :=
  match type with
  | week => runWeeklyFetch io
  | today => runDailyFetch io
  end.

End Scheduler.

(** ** Objects and notions the properties are stated with *)

Module RiskCases.

Import RiskEngine.
Local Open Scope R_scope.

(** The object with no property at all. *)
Definition unknown_object : RiskEngine.Subject :=
  {| is_potentially_hazardous_asteroid := None;
     isPotentiallyHazardous := None;
     estimatedDiameterMax := None;
     estimated_diameter := None;
     missDistanceLunar := None;
     close_approach_data := [];
     relativeVelocityKmS := None |}.



End RiskCases.

(** Reasoning about a computation: [post m w Q] says that [m], started in
    [w], ends with a result and in a world that satisfy [Q]. *)
Module Hoare.

Import Effect.

Definition post {A} (m : M A) (w : World) (Q : Result A -> World -> Prop) : Prop :=
  Q (fst (m w)) (snd (m w)).

(** What [Q] has to say about a result that a [bind] passes on or lets
    escape. *)
Definition on_ok {A B} (k : A -> World -> Prop) (Q : Result B -> World -> Prop)
  : Result A -> World -> Prop :=
  fun r w =>
    match r with
    | Ok a => k a w
    | Throw e => Q (Throw e) w
    end.

(** The same for the body of a [try]. *)
Definition on_throw {A} (h : Error -> World -> Prop) (Q : Result A -> World -> Prop)
  : Result A -> World -> Prop :=
  fun r w =>
    match r with
    | Ok a => Q (Ok a) w
    | Throw e => h e w
    end.

(** [m] keeps the invariant [Inv] of the world, however it ends. *)
Definition preserves (Inv : World -> Prop) {A} (m : M A) : Prop :=
  forall w, Inv w -> Inv (snd (m w)).

End Hoare.

(** Sample documents. *)
Module Samples.

Local Open Scope R_scope.

Definition neo (id : string) (approach : list Nasa.CloseApproach) : Nasa.Neo :=
  {| Nasa.id := id;
     Nasa.neo_reference_id := Some id;
     Nasa.name := "(2024 AB)"%string;
     Nasa.nasa_jpl_url := None;
     Nasa.absolute_magnitude_h := Some 21;
     Nasa.estimated_diameter := None;
     Nasa.is_potentially_hazardous_asteroid := Some false;
     Nasa.close_approach_data := approach |}.

Definition approach (at_ : Z) : Nasa.CloseApproach :=
  {| Nasa.close_approach_date := Some {| Nasa.text := "2024-01-01"; Nasa.instant := Some at_ |};
     Nasa.close_approach_date_full := None;
     Nasa.miss_distance :=
       Some {| Nasa.astronomical := Some (1 / 100);
               Nasa.lunar := Some 4;
               Nasa.kilometers := Some 1500000 |};
     Nasa.relative_velocity :=
       Some {| Nasa.kilometers_per_second := Some 12;
               Nasa.kilometers_per_hour := Some 43200 |};
     Nasa.orbiting_body := Some "Earth"%string |}.

(** A raw record with one close approach, an hour after the epoch. *)
Definition feed_record : Nasa.Neo := neo "3542519" [approach 3600000].

Definition asteroid (id : string) (diameter lunar score : Js.num) (approach : Z)
  : AsteroidDoc.t :=
  {| AsteroidDoc.neo_reference_id := id;
     AsteroidDoc.name := "(2024 AB)"%string;
     AsteroidDoc.nasa_jpl_url := None;
     AsteroidDoc.absolute_magnitude_h := Some 21;
     AsteroidDoc.riskScore := score;
     AsteroidDoc.riskCategory := RiskEngine.low;
     AsteroidDoc.isPotentiallyHazardous := false;
     AsteroidDoc.estimatedDiameterMin := None;
     AsteroidDoc.estimatedDiameterMax := diameter;
     AsteroidDoc.closeApproachDate := approach;
     AsteroidDoc.closeApproachDateFull := None;
     AsteroidDoc.missDistanceKm := Some 1500000;
     AsteroidDoc.missDistanceAu := Some (1 / 100);
     AsteroidDoc.missDistanceLunar := lunar;
     AsteroidDoc.relativeVelocityKmS := Some 12;
     AsteroidDoc.relativeVelocityKmH := Some 43200;
     AsteroidDoc.orbitingBody := "Earth"%string;
     AsteroidDoc.raw_data := neo id [];
     AsteroidDoc.expiresAt := 0;
     AsteroidDoc.lastFetchedAt := 0;
     AsteroidDoc.createdAt := 0;
     AsteroidDoc.updatedAt := 0 |}.

Definition settings (minDiameter maxDistance riskThreshold : Js.num)
  : UserDoc.AlertSettings :=
  {| UserDoc.enabled := true;
     UserDoc.minDiameter := minDiameter;
     UserDoc.maxDistance := maxDistance;
     UserDoc.riskThreshold := riskThreshold |}.

Definition user (id : nat) (watched : list string) (s : UserDoc.AlertSettings)
  : UserDoc.t :=
  {| UserDoc._id := id;
     UserDoc.email := "user@example.org"%string;
     UserDoc.watched_asteroid_ids := watched;
     UserDoc.alertSettings := s |}.

Definition watcher : UserDoc.t :=
  user 1 ["3542519"%string] (settings None None (Some 60)).

Definition matcher : UserDoc.t :=
  user 2 [] (settings (Some 100) (Some 10) (Some 50)).

(** A user who watches and has set the distance limit to zero. *)
Definition unlimited : UserDoc.t :=
  user 3 ["3542519"%string] (settings (Some 100) (Some 0) (Some 50)).

Definition object_82 : AsteroidDoc.t :=
  asteroid "3542519" (Some 300) (Some 4) (Some 82) 3600000.

Definition object_40 : AsteroidDoc.t :=
  asteroid "3542519" (Some 300) (Some 4) (Some 40) 3600000.

(** The alert [matcher] got about [object_82] at instant 1000. *)
Definition earlier_alert : AlertDoc.t :=
  Alert.closeApproachAlert matcher object_82 1000.

(** Two and twenty-five hours, in milliseconds. *)
Definition hours_2 : Z := 2 * 60 * 60 * 1000.
Definition hours_25 : Z := 25 * 60 * 60 * 1000.

(** A store that never raises and answers each call in a millisecond. *)
Definition steady : nat -> Effect.Tick :=
  fun _ => {| Effect.elapsed := 1; Effect.fails := false |}.

(** A feed that is down. *)
Definition feed_down : Z -> Z -> Feed.Response :=
  fun _ _ => Feed.NotOk 503 "Service Unavailable".

Definition world (asteroids : list AsteroidDoc.t) (alerts : list AlertDoc.t)
    (users : list UserDoc.t) (clock : Z) : Effect.World :=
  {| Effect.asteroids := asteroids;
     Effect.alerts := alerts;
     Effect.users := users;
     Effect.clock := clock;
     Effect.ops := 0;
     Effect.oracle := steady;
     Effect.nasa := feed_down;
     Effect.emitted := [] |}.

End Samples.

(** Notions for the sweep. *)
Module Sweep.

Import Effect.

(** The filter as the specification words it: the three comparisons, each
    as JavaScript evaluates it. *)
Definition personal_filter (a : AsteroidDoc.t) (s : UserDoc.AlertSettings) : Prop :=
  Js.ge (AsteroidDoc.estimatedDiameterMax a) (UserDoc.minDiameter s) = true
  /\ Js.le (AsteroidDoc.missDistanceLunar a) (UserDoc.maxDistance s) = true
  /\ Js.ge (AsteroidDoc.riskScore a) (UserDoc.riskThreshold s) = true.

(** [w'] has the users and asteroids of [w], and the alerts of [w] followed
    by new ones that all satisfy [P]. *)
Definition grows (P : AlertDoc.t -> Prop) (w w' : World) : Prop :=
  users w' = users w
  /\ asteroids w' = asteroids w
  /\ exists created, alerts w' = alerts w ++ created /\ Forall P created.

(** An alert that the sweep may create in [w]: it is the close-approach
    alert of a stored user and a stored asteroid that pass
    [matchesUserThresholds]. *)
Definition filtered (w : World) (al : AlertDoc.t) : Prop :=
  exists u a,
    In u (users w)
    /\ In a (asteroids w)
    /\ al = Alert.closeApproachAlert u a (AlertDoc.createdAt al)
    /\ AlertDispatcher.matchesUserThresholds a (UserDoc.alertSettings u) = true.

End Sweep.

(** Notions for the dedup guard. *)
Module Dedup.

Import Effect.
Local Open Scope Z_scope.

(** Two close-approach alerts to the same user about the same object. *)
Definition same_pair (x y : AlertDoc.t) : Prop :=
  AlertDoc.type x = AlertDoc.close_approach
  /\ AlertDoc.type y = AlertDoc.close_approach
  /\ AlertDoc.userId x = AlertDoc.userId y
  /\ AlertDoc.asteroidId x = AlertDoc.asteroidId y.

(** Created at least 24 hours apart, when of the same pair. *)
Definition apart (x y : AlertDoc.t) : Prop :=
  same_pair x y -> Js.DAY_MS <= Z.abs (AlertDoc.createdAt y - AlertDoc.createdAt x).

(** The dedup contract on a collection of alerts: no two of its records of
    the same pair were created less than 24 hours apart. *)
Definition contract (l : list AlertDoc.t) : Prop := ForallOrdPairs apart l.

(** [findOneAndUpdate(..., { isRead: true })] and its [updateMany], as far as
    one record goes. *)
Definition mark_read (sel : AlertDoc.t -> bool) (x : AlertDoc.t) : AlertDoc.t :=
  {| AlertDoc.userId := AlertDoc.userId x;
     AlertDoc.asteroidId := AlertDoc.asteroidId x;
     AlertDoc.asteroidName := AlertDoc.asteroidName x;
     AlertDoc.type := AlertDoc.type x;
     AlertDoc.severity := AlertDoc.severity x;
     AlertDoc.data := AlertDoc.data x;
     AlertDoc.isRead := AlertDoc.isRead x || sel x;
     AlertDoc.eventDate := AlertDoc.eventDate x;
     AlertDoc.createdAt := AlertDoc.createdAt x;
     AlertDoc.updatedAt := AlertDoc.updatedAt x |}.

(** What may happen between two runs of the pipeline: time passes, users
    read or delete alerts of theirs, and anything at all happens to the
    users, the asteroids, the feed and the store's behaviour. *)
Definition outside (w w' : World) : Prop :=
  clock w <= clock w'
  /\ exists keep sel, alerts w' = map (mark_read sel) (filter keep (alerts w)).

(** The worlds reached when the scheduler's jobs run one at a time, each to
    its end: the manual and the daily and weekly fetches, and the sweep. *)
Inductive reachable : World -> Prop :=
| reach_start w : alerts w = [] -> reachable w
| reach_fetch type io w :
    reachable w -> reachable (snd (Scheduler.triggerManualFetch type io w))
| reach_sweep io daysAhead w :
    reachable w -> reachable (snd (AlertDispatcher.checkAndDispatchAlerts io daysAhead w))
| reach_outside w w' : reachable w -> outside w w' -> reachable w'.

(** The worlds reached when runs overlap: [createAlertForUser] waits for the
    store twice, after its check and after its create, and another run may
    go on in between.  The second component lists the creations whose check
    found nothing and whose create is still to come. *)
Inductive overlapping : World -> list (UserDoc.t * AsteroidDoc.t) -> Prop :=
| over_start w : alerts w = [] -> overlapping w []
| over_check u a w flying :
    overlapping w flying ->
    fst (Alert.findOne (UserDoc._id u) (AsteroidDoc.neo_reference_id a)
           (clock w - Js.DAY_MS) w) = Ok None ->
    overlapping
      (snd (Alert.findOne (UserDoc._id u) (AsteroidDoc.neo_reference_id a)
              (clock w - Js.DAY_MS) w))
      ((u, a) :: flying)
| over_create u a w before after :
    overlapping w (before ++ (u, a) :: after) ->
    overlapping (snd (Alert.createCloseApproachAlert u a w)) (before ++ after).

End Dedup.

(** Notions for the upsert. *)
Module Upsert.

Local Open Scope Z_scope.

Definition with_times (expiresAt lastFetchedAt updatedAt : Z) (d : AsteroidDoc.t)
  : AsteroidDoc.t :=
  {| AsteroidDoc.neo_reference_id := AsteroidDoc.neo_reference_id d;
     AsteroidDoc.name := AsteroidDoc.name d;
     AsteroidDoc.nasa_jpl_url := AsteroidDoc.nasa_jpl_url d;
     AsteroidDoc.absolute_magnitude_h := AsteroidDoc.absolute_magnitude_h d;
     AsteroidDoc.riskScore := AsteroidDoc.riskScore d;
     AsteroidDoc.riskCategory := AsteroidDoc.riskCategory d;
     AsteroidDoc.isPotentiallyHazardous := AsteroidDoc.isPotentiallyHazardous d;
     AsteroidDoc.estimatedDiameterMin := AsteroidDoc.estimatedDiameterMin d;
     AsteroidDoc.estimatedDiameterMax := AsteroidDoc.estimatedDiameterMax d;
     AsteroidDoc.closeApproachDate := AsteroidDoc.closeApproachDate d;
     AsteroidDoc.closeApproachDateFull := AsteroidDoc.closeApproachDateFull d;
     AsteroidDoc.missDistanceKm := AsteroidDoc.missDistanceKm d;
     AsteroidDoc.missDistanceAu := AsteroidDoc.missDistanceAu d;
     AsteroidDoc.missDistanceLunar := AsteroidDoc.missDistanceLunar d;
     AsteroidDoc.relativeVelocityKmS := AsteroidDoc.relativeVelocityKmS d;
     AsteroidDoc.relativeVelocityKmH := AsteroidDoc.relativeVelocityKmH d;
     AsteroidDoc.orbitingBody := AsteroidDoc.orbitingBody d;
     AsteroidDoc.raw_data := AsteroidDoc.raw_data d;
     AsteroidDoc.expiresAt := expiresAt;
     AsteroidDoc.lastFetchedAt := lastFetchedAt;
     AsteroidDoc.createdAt := AsteroidDoc.createdAt d;
     AsteroidDoc.updatedAt := updatedAt |}.

(** The document [d] as a call at instant [now] leaves it when nothing but
    the time has changed: the TTL, the fetch time and [updatedAt] are new. *)
Definition refreshed (now : Z) (d : AsteroidDoc.t) : AsteroidDoc.t :=
  with_times (now + Js.DAY_MS) now now d.

(** [d'] is [d] in every field except [expiresAt] and [lastFetchedAt]. *)
Definition same_but_ttl (d d' : AsteroidDoc.t) : Prop :=
  d' = with_times (AsteroidDoc.expiresAt d') (AsteroidDoc.lastFetchedAt d')
         (AsteroidDoc.updatedAt d) d.

(** The number of stored records with an external id. *)
Definition count (id : string) (l : list AsteroidDoc.t) : nat :=
  List.length (filter (fun d => String.eqb (AsteroidDoc.neo_reference_id d) id) l).

(** The unique index on [neo_reference_id]. *)
Definition unique (l : list AsteroidDoc.t) : Prop :=
  NoDup (map AsteroidDoc.neo_reference_id l).

(** The collection with the record of an id replaced. *)
Definition replaced (id : string) (d' : AsteroidDoc.t) (l : list AsteroidDoc.t)
  : list AsteroidDoc.t :=
  map (fun d => if String.eqb (AsteroidDoc.neo_reference_id d) id then d' else d) l.

End Upsert.

(** Notions for the feed and the batch. *)
Module Batch.

Import Effect.

(** The request did not come to a body. *)
Definition failed (r : Feed.Response) : Prop :=
  match r with
  | Feed.Body _ => False
  | _ => True
  end.

(** The error a failed request is caught with. *)
Definition failure_of (r : Feed.Response) : Error :=
  match r with
  | Feed.Rejected m => FetchError m
  | Feed.NotOk status statusText => NasaApiError status statusText
  | Feed.BadJson m => FetchError m
  | Feed.Body _ => TypeError
  end.

(** The world with another feed. *)
Definition with_feed (feed : Z -> Z -> Feed.Response) (w : World) : World :=
  {| asteroids := asteroids w; alerts := alerts w; users := users w;
     clock := clock w; ops := ops w; oracle := oracle w; nasa := feed;
     emitted := emitted w |}.

(** A feed that answers, and has nothing. *)
Definition nothing_available : Z -> Z -> Feed.Response :=
  fun _ _ => Feed.Body {| Feed.element_count := Some 0%R;
                          Feed.near_earth_objects := Some [] |}.

(** The id under which a raw record is stored. *)
Definition id_of (neo : Nasa.Neo) : string :=
  AsteroidDoc.neo_reference_id
    (fst (Asteroid.asteroidData neo 0 RiskEngine.minimal 0)).

(** The processing of [neo] raises when its store call is the [n]-th one:
    the store raises, or the record has no valid close-approach date. *)
Definition raises (oracle : nat -> Tick) (n : nat) (neo : Nasa.Neo) : bool :=
  fails (oracle n)
  || match snd (Asteroid.asteroidData neo 0 RiskEngine.minimal 0) with
     | Some _ => false
     | None => true
     end.

(** The records of a batch whose processing raises, the first store call of
    the batch being the [n]-th one. *)
Fixpoint failures (oracle : nat -> Tick) (n : nat) (neoData : list Nasa.Neo) : nat :=
  match neoData with
  | [] => 0
  | neo :: rest =>
      (if raises oracle n neo then 1 else 0) + failures oracle (S n) rest
  end.

End Batch.

(** ** Further notions, for the properties beyond the specification's *)

Module RiskShapes.

Import RiskEngine.
Local Open Scope R_scope.

(** An object in the stored shape with all four inputs known. *)
Definition stored_object (hazardous : bool) (diameter lunar velocity : R) : Subject :=
  {| is_potentially_hazardous_asteroid := None;
     isPotentiallyHazardous := Some hazardous;
     estimatedDiameterMax := Some diameter;
     estimated_diameter := None;
     missDistanceLunar := Some lunar;
     close_approach_data := [];
     relativeVelocityKmS := Some velocity |}.

(** A stored document as [calculateRiskScore] sees it: the feed-shape
    properties are absent at its top level. *)
Definition of_doc (d : AsteroidDoc.t) : Subject :=
  {| is_potentially_hazardous_asteroid := None;
     isPotentiallyHazardous := Some (AsteroidDoc.isPotentiallyHazardous d);
     estimatedDiameterMax := AsteroidDoc.estimatedDiameterMax d;
     estimated_diameter := None;
     missDistanceLunar := AsteroidDoc.missDistanceLunar d;
     close_approach_data := [];
     relativeVelocityKmS := AsteroidDoc.relativeVelocityKmS d |}.

(** The categories in the order of their thresholds. *)
Definition rank (c : RiskCategory) : nat :=
  match c with
  | minimal => 0
  | low => 1
  | moderate => 2
  | high => 3
  end.

(** The sum of the four parts of a breakdown. *)
Definition breakdown_sum (b : Breakdown) : Z :=
  (b_hazardWeight b + b_diameterScore b + b_distanceScore b + b_velocityScore b)%Z.

End RiskShapes.

(** Notions for what ingestion stores. *)
Module Ingest.

Import Effect.
Local Open Scope Z_scope.

(** The largest diameter the feed gives for a raw record, if it gives one. *)
Definition feed_diameter (neo : Nasa.Neo) : Js.num :=
  AsteroidDoc.estimatedDiameterMax
    (fst (Asteroid.asteroidData neo 0 RiskEngine.minimal 0)).

(** No stored record has the id of the raw record. *)
Definition fresh (neo : Nasa.Neo) (l : list AsteroidDoc.t) : Prop :=
  forall x, In x l -> AsteroidDoc.neo_reference_id x <> Batch.id_of neo.

(** The sample record as it is stored at instant 0 with a given score and
    the category of that score. *)
Definition scored (z : Z) : AsteroidDoc.t :=
  fst (Asteroid.asteroidData Samples.feed_record z (RiskEngine.getRiskCategory z) 0).

(** A stored record as the pipeline leaves it: an integer score from 1 to
    100, the category of that score, a TTL of 24 hours from the fetch, and
    times in their order, none ahead of the clock. *)
Definition well_formed (now : Z) (d : AsteroidDoc.t) : Prop :=
  (exists z, AsteroidDoc.riskScore d = Some (IZR z)
             /\ 1 <= z <= 100
             /\ AsteroidDoc.riskCategory d = RiskEngine.getRiskCategory z)
  /\ AsteroidDoc.expiresAt d = AsteroidDoc.lastFetchedAt d + Js.DAY_MS
  /\ AsteroidDoc.lastFetchedAt d = AsteroidDoc.updatedAt d
  /\ AsteroidDoc.createdAt d <= AsteroidDoc.updatedAt d
  /\ AsteroidDoc.updatedAt d <= now
  /\ AsteroidDoc.missDistanceLunar d <> None
  /\ AsteroidDoc.relativeVelocityKmS d <> None.

End Ingest.

(** Notions for what the dispatcher delivers. *)
Module Delivery.

Import Effect.
Local Open Scope Z_scope.

(** The event [e] notifies the recipient of the alert [al], in the
    recipient's own room, about the object of the alert. *)
Definition notifies (al : AlertDoc.t) (e : Io.Event) : Prop :=
  Io.room e = Some (AlertDoc.userId al)
  /\ exists a t,
       Io.payload e = Io.CLOSE_APPROACH_ALERT al a t
       /\ AsteroidDoc.neo_reference_id a = AlertDoc.asteroidId al.

(** The events that go with the alerts created: one for each, in their
    order, when there is a socket, and none when there is not. *)
Definition delivered (io : bool) (created : list AlertDoc.t) (events : list Io.Event)
  : Prop :=
  if io then Forall2 notifies created events else events = [].

(** The user [u] is one the sweep considers for the asteroid [a]: alerts
    enabled, and either watching it, or not watching it while the asteroid
    scores 50 or more and reaches the user's threshold. *)
Definition candidate (a : AsteroidDoc.t) (u : UserDoc.t) : Prop :=
  UserDoc.enabled (UserDoc.alertSettings u) = true
  /\ (In (AsteroidDoc.neo_reference_id a) (UserDoc.watched_asteroid_ids u)
      \/ (~ In (AsteroidDoc.neo_reference_id a) (UserDoc.watched_asteroid_ids u)
          /\ exists r t,
               AsteroidDoc.riskScore a = Some r
               /\ (50 <= r)%R
               /\ UserDoc.riskThreshold (UserDoc.alertSettings u) = Some t
               /\ (t <= r)%R)).

(** The alert [al] is one a sweep over the window from [from] to [to] may
    create in [w]. *)
Definition recipient (w : World) (from to : Z) (al : AlertDoc.t) : Prop :=
  exists u a,
    In u (users w)
    /\ In a (asteroids w)
    /\ from <= AsteroidDoc.closeApproachDate a <= to
    /\ candidate a u
    /\ AlertDispatcher.matchesUserThresholds a (UserDoc.alertSettings u) = true
    /\ al = Alert.closeApproachAlert u a (AlertDoc.createdAt al).

(** The state of a sweep started in [w0] that has created [n] alerts so
    far, all satisfying [P]. *)
Definition sent (P : AlertDoc.t -> Prop) (io : bool) (n : nat) (w0 w : World) : Prop :=
  users w = users w0
  /\ asteroids w = asteroids w0
  /\ exists created events,
       alerts w = alerts w0 ++ created
       /\ emitted w = emitted w0 ++ events
       /\ Forall P created
       /\ delivered io created events
       /\ List.length created = n.

(** A store that raises at its [n]-th call only. *)
Definition failing_at (n : nat) : nat -> Tick :=
  fun k => {| elapsed := 1; fails := Nat.eqb k n |}.

(** A second object with the approach of [Samples.object_82]. *)
Definition object_77 : AsteroidDoc.t :=
  Samples.asteroid "2000433" (Some 300%R) (Some 4%R) (Some 77%R) 3600000.

(** A store with two objects and their watcher, which raises at its sixth
    call. *)
Definition interrupted : World :=
  {| asteroids := [Samples.object_82; object_77];
     alerts := [];
     users := [Samples.watcher];
     clock := 0;
     ops := 0;
     oracle := failing_at 5;
     nasa := Samples.feed_down;
     emitted := [] |}.

End Delivery.


(** * The batch's tallies and broadcasts *)

Module Tally.

Import Effect.
Local Open Scope Z_scope.

(** The event [e] is the broadcast of a stored record in the high category:
    sent to all, about a record flagged as hazardous that scores 76 or
    more. *)
Definition about_high (e : Io.Event) : Prop :=
  Io.room e = None
  /\ exists a t,
       Io.payload e = Io.NEW_HAZARDOUS_ASTEROID a t
       /\ AsteroidDoc.riskCategory a = RiskEngine.high
       /\ AsteroidDoc.isPotentiallyHazardous a = true
       /\ exists z, AsteroidDoc.riskScore a = Some (IZR z) /\ 76 <= z.

(** The tallies [s'] are those of [s] after some more records: each counter
    has grown, the high-risk one by [k], by no more than the one above
    it. *)
Definition counted (k : nat) (s s' : Stats.t) : Prop :=
  exists p h,
    (k <= h <= p)%nat
    /\ Stats.processed s' = (Stats.processed s + p)%nat
    /\ Stats.hazardous s' = (Stats.hazardous s + h)%nat
    /\ Stats.highRisk s' = (Stats.highRisk s + k)%nat.

(** The state of a batch started in [w0] with the tallies [s0]. *)
Definition run (io : bool) (s0 : Stats.t) (w0 : World) (s : Stats.t) (w : World)
  : Prop :=
  users w = users w0
  /\ alerts w = alerts w0
  /\ clock w0 <= clock w
  /\ exists k broadcasts,
       counted k s0 s
       /\ emitted w = emitted w0 ++ broadcasts
       /\ Forall about_high broadcasts
       /\ List.length broadcasts = if io then k else 0%nat.


End Tally.


(** * A run of the pipeline *)

Module Pipeline.

Import Effect.
Local Open Scope Z_scope.

(** What a run of the given kind fetches, how far its sweep looks ahead,
    and the update it announces. *)
Definition fetch (type : Scheduler.FetchType) : M (list Nasa.Neo) :=
  match type with
  | Scheduler.today => NasaService.fetchTodayNeos
  | Scheduler.week => NasaService.fetchWeekNeos
  end.

Definition daysAhead (type : Scheduler.FetchType) : Z :=
  match type with
  | Scheduler.today => 1
  | Scheduler.week => 7
  end.

Definition update (type : Scheduler.FetchType) : Stats.t -> Z -> Io.Payload :=
  match type with
  | Scheduler.today => Io.DAILY_UPDATE
  | Scheduler.week => Io.WEEKLY_UPDATE
  end.

(** The world after the batch of a run, once the update is announced. *)
Definition announced (type : Scheduler.FetchType) (io : bool) (stats : Stats.t)
    (w : World) : World :=
  if io
  then push_event {| Io.room := None; Io.payload := update type stats (clock w) |} w
  else w.

(** A feed that has the sample record for every day asked. *)
Definition one_record : Z -> Z -> Feed.Response :=
  fun start _ =>
    Feed.Body {| Feed.element_count := Some 1%R;
                 Feed.near_earth_objects := Some [(start, [Samples.feed_record])] |}.

(** The stored sample with that feed. *)
Definition fed : World :=
  {| asteroids := [Ingest.scored 75];
     alerts := [];
     users := [Samples.watcher];
     clock := 10;
     ops := 0;
     oracle := Samples.steady;
     nasa := one_record;
     emitted := [] |}.

End Pipeline.


(** * Reading the alerts

    [getUnreadAlerts] and [markAllAlertsRead] of alertDispatcher.js.  The
    sort of the query is taken to be stable: alerts created at the same
    instant come in the order of the collection. *)

Module Inbox.

Import Effect.
Local Open Scope js_scope.
Local Open Scope Z_scope.

(** The filter [{ userId, isRead: false }]. *)
Definition unread (userId : nat) (a : AlertDoc.t) : bool :=
  Nat.eqb (AlertDoc.userId a) userId && negb (AlertDoc.isRead a).

(** [.sort({ createdAt: -1 })] *)
Fixpoint insert (a : AlertDoc.t) (l : list AlertDoc.t) : list AlertDoc.t :=
  match l with
  | [] => [a]
  | x :: l' =>
      if AlertDoc.createdAt x <=? AlertDoc.createdAt a then a :: x :: l'
      else x :: insert a l'
  end.

Definition sort (l : list AlertDoc.t) : list AlertDoc.t := fold_right insert [] l.

Definition getUnreadAlerts (userId : nat) : M (list AlertDoc.t) :=
  await_store (fun w =>
    (Ok (firstn 20 (sort (filter (unread userId) (alerts w)))), w)).

(** The update [{ isRead: true }] applied at instant [now] to the records
    that match; the [timestamps] option moves their [updatedAt]. *)
Definition read_at (now : Z) (sel : AlertDoc.t -> bool) (x : AlertDoc.t) : AlertDoc.t :=
  if sel x then
    {| AlertDoc.userId := AlertDoc.userId x;
       AlertDoc.asteroidId := AlertDoc.asteroidId x;
       AlertDoc.asteroidName := AlertDoc.asteroidName x;
       AlertDoc.type := AlertDoc.type x;
       AlertDoc.severity := AlertDoc.severity x;
       AlertDoc.data := AlertDoc.data x;
       AlertDoc.isRead := true;
       AlertDoc.eventDate := AlertDoc.eventDate x;
       AlertDoc.createdAt := AlertDoc.createdAt x;
       AlertDoc.updatedAt := now |}
  else x.

(** [Alert.updateMany({ userId, isRead: false }, { isRead: true })]; the
    result is its [modifiedCount]. *)
Definition markAllAlertsRead (userId : nat) : M nat :=
  now <- Date_now ;;
  await_store (fun w =>
    (Ok (List.length (filter (unread userId) (alerts w))),
     set_alerts (List.map (read_at now (unread userId)) (alerts w)) w)).

(** The fields the dedup guard of [createAlertForUser] looks at. *)
Definition guard_key (a : AlertDoc.t) : nat * string * Z :=
  (AlertDoc.userId a, AlertDoc.asteroidId a, AlertDoc.createdAt a).

(** Newest first. *)
Definition newest_first (l : list AlertDoc.t) : Prop :=
  StronglySorted (fun x y => AlertDoc.createdAt y <= AlertDoc.createdAt x) l.

(** Three alerts of the matcher, the second one read, and one of the
    watcher. *)
Definition inbox : World :=
  Samples.world []
    [Alert.closeApproachAlert Samples.matcher Samples.object_82 1000;
     read_at 2500 (fun _ => true)
       (Alert.closeApproachAlert Samples.matcher Delivery.object_77 2000);
     Alert.closeApproachAlert Samples.watcher Samples.object_82 3000;
     Alert.closeApproachAlert Samples.matcher Delivery.object_77 4000]
    [Samples.watcher; Samples.matcher] 5000.

End Inbox.


(** * The watchlist

    The methods [isWatching], [addToWatchlist] and [removeFromWatchlist] of
    the [User] schema.  The two that change the list end in Mongoose's
    [this.save()]; they are modelled by the document they hand to it. *)

Module Watchlist.

Definition with_watched (l : list string) (u : UserDoc.t) : UserDoc.t :=
  {| UserDoc._id := UserDoc._id u;
     UserDoc.email := UserDoc.email u;
     UserDoc.watched_asteroid_ids := l;
     UserDoc.alertSettings := UserDoc.alertSettings u |}.

Definition isWatching (this : UserDoc.t) (asteroidId : string) : bool :=
  Js.includes (UserDoc.watched_asteroid_ids this) asteroidId.

Definition addToWatchlist (this : UserDoc.t) (asteroidId : string) : UserDoc.t :=
  if negb (isWatching this asteroidId)
  then with_watched (UserDoc.watched_asteroid_ids this ++ [asteroidId]) this
  else this.

Definition removeFromWatchlist (this : UserDoc.t) (asteroidId : string) : UserDoc.t :=
  with_watched
    (filter (fun id => negb (String.eqb id asteroidId)) (UserDoc.watched_asteroid_ids this))
    this.

End Watchlist.


(** * The size comparison

    [getSizeComparison] of the [Asteroid] schema.  The icons, which go with
    the names, are left out; a number formatted by [toFixed(1)] is kept as
    its sign and its tenths. *)

Module SizeComparison.

Local Open Scope R_scope.






(** [x.toFixed(1)] *)
Record Fixed := { negative : bool; tenths : Z }.


(** [(1 / ratio).toFixed(1)] for a formatted [ratio]: a ratio of zero tenths
    gives an infinity. *)
Inductive Factor :=
| Infinity (negative : bool)
| Finite (factor : Fixed).


(** The three wordings of the description. *)
Inductive Description :=
| About (name : string)
| Larger (ratio : Fixed) (name : string)
| Smaller (factor : Factor) (name : string).

Record t := {
  comparedTo : string;
  ratio : Fixed;
  description : Description }.


End SizeComparison.


(** * The colours of the categories

    [getRiskLevelInfo] of riskEngine.js, on the categories that
    [calculateRiskScore] gives, for which its fallback to the minimal level
    is not reached, and the virtual [riskBadgeColor] of the [Asteroid]
    schema.  The icons are left out. *)

Module RiskDisplay.

Record LevelInfo := {
  label : string;
  color : string;
  description : string }.

Definition getRiskLevelInfo (category : RiskEngine.RiskCategory) : LevelInfo :=
  match category with
  | RiskEngine.minimal =>
      {| label := "Minimal Risk";
         color := "#22c55e";
         description := "No significant threat. Standard monitoring." |}
  | RiskEngine.low =>
      {| label := "Low Risk";
         color := "#eab308";
         description := "Minor concern. Continued observation recommended." |}
  | RiskEngine.moderate =>
      {| label := "Moderate Risk";
         color := "#f59e0b";
         description := "Notable approach. Enhanced monitoring advised." |}
  | RiskEngine.high =>
      {| label := "High Risk";
         color := "#ef4444";
         description := "Significant concern. Close observation required." |}
  end.

Definition riskBadgeColor (this : AsteroidDoc.t) : string :=
  match AsteroidDoc.riskCategory this with
  | RiskEngine.high => "#ef4444"
  | RiskEngine.moderate => "#f59e0b"
  | RiskEngine.low => "#eab308"
  | RiskEngine.minimal => "#22c55e"
  end.

End RiskDisplay.


(** * The middleware

    [auth] and [adminAuth].  What [auth] asks of the outside, the
    verification of the token by [jwt.verify] and the lookup of the user by
    [User.findById], comes as two functions that give a value or the error
    thrown; a response is one of the three things a middleware ends with. *)

Module Middleware.

(** [s.split(' ')[1]]: what lies between the first space of [s] and the
    next one, and [undefined] when [s] has no space. *)
Fixpoint upto_space (s : string) : string :=
  match s with
  | EmptyString => EmptyString
  | String c s' =>
      if Ascii.eqb c " "%char then EmptyString else String c (upto_space s')
  end.

Fixpoint split_1 (s : string) : option string :=
  match s with
  | EmptyString => None
  | String c s' => if Ascii.eqb c " "%char then Some (upto_space s') else split_1 s'
  end.

(** The fields of a [User] document that [auth] copies. *)
Record Account := {
  _id : nat;
  email : string;
  displayName : string;
  role : string }.

(** [req.user] *)
Record ReqUser := {
  u_id : nat;
  u_email : string;
  u_displayName : string;
  u_role : string }.

Record Request := {
  authorization : option string;
  user : option ReqUser }.

(** An error, as far as the middleware looks at it. *)
Record Thrown := { name : string }.

Inductive Response :=
| next
| next_error (error : Thrown)
| json (status : nat) (message : string).

(** The [catch] block of [auth]. *)
Definition caught (error : Thrown) : Response :=
  if String.eqb (name error) "JsonWebTokenError" then json 401 "Invalid token."
  else if String.eqb (name error) "TokenExpiredError"
       then json 401 "Token expired. Please login again."
       else next_error error.

Section Auth.

(** [jwt.verify(token, process.env.JWT_SECRET)], as far as [decoded.id]
    goes, and [await User.findById(id)]. *)
Variable verify : string -> Thrown + option nat.
Variable findById : option nat -> Thrown + option Account.

Definition auth (req : Request) : Request * Response :=
  match authorization req with
  | None => (req, json 401 "No token provided. Authorization denied.")
  | Some authHeader =>
      if negb (String.prefix "Bearer " authHeader)
      then (req, json 401 "No token provided. Authorization denied.")
      else
        match split_1 authHeader with
        | None | Some EmptyString =>
            (req, json 401 "No token provided. Authorization denied.")
        | Some token =>
            match verify token with
            | inl error => (req, caught error)
            | inr decoded_id =>
                match findById decoded_id with
                | inl error => (req, caught error)
                | inr None => (req, json 401 "User no longer exists.")
                | inr (Some user) =>
                    ({| authorization := authorization req;
                        user := Some {| u_id := _id user;
                                        u_email := email user;
                                        u_displayName := displayName user;
                                        u_role := role user |} |},
                     next)
                end
            end
        end
  end.

Definition adminAuth (req : Request) : Response :=
  match user req with
  | None => json 401 "Authentication required."
  | Some u =>
      if negb (String.eqb (u_role u) "admin")
      then json 403 "Access denied. Admin privileges required."
      else next
  end.

(** The chain [auth, adminAuth] in front of the handlers of the admin
    routes: the second runs when the first has called [next()]. *)
Definition admin_only (req : Request) : Request * Response :=
  match auth req with
  | (req', next) => (req', adminAuth req')
  | (req', response) => (req', response)
  end.

End Auth.

(** A verifier that knows one token, and a store with one administrator
    and one user. *)
Definition sample_verify (token : string) : Thrown + option nat :=
  if String.eqb token "t0k3n" then inr (Some 7)
  else if String.eqb token "us3r" then inr (Some 8)
  else inl {| name := "JsonWebTokenError" |}.

Definition sample_findById (id : option nat) : Thrown + option Account :=
  match id with
  | Some 7 => inr (Some {| _id := 7; email := "admin@example.org";
                           displayName := "Admin"; role := "admin" |})
  | Some 8 => inr (Some {| _id := 8; email := "user@example.org";
                           displayName := "User"; role := "user" |})
  | _ => inr None
  end.

End Middleware.


(** * The chat rooms

    The room names the chat accepts, as the validator of the [ChatMessage]
    schema and the handlers of app.js test them, and the rooms of a socket
    of the chat namespace as its [chat:join_room] and [chat:leave_room]
    events change them.  A string is taken as its sequence of bytes: none
    of the bytes of a character outside ASCII is in the class of the
    pattern. *)

Module Chat.

(** The class [[a-zA-Z0-9_-]]. *)
Definition in_class (c : ascii) : bool :=
  let n := nat_of_ascii c in
  (Nat.leb 97 n && Nat.leb n 122)
  || (Nat.leb 65 n && Nat.leb n 90)
  || (Nat.leb 48 n && Nat.leb n 57)
  || Ascii.eqb c "_"%char
  || Ascii.eqb c "-"%char.

(** [[a-zA-Z0-9_-]+$] *)
Fixpoint one_or_more (s : string) : bool :=
  match s with
  | EmptyString => false
  | String c EmptyString => in_class c
  | String c s' => in_class c && one_or_more s'
  end.

(** What is left of [s] after the literal [p], when [s] begins with it. *)
Fixpoint after (p s : string) : option string :=
  match p, s with
  | EmptyString, _ => Some s
  | String a p', String b s' => if Ascii.eqb a b then after p' s' else None
  | String _ _, EmptyString => None
  end.

(** [/^asteroid:[a-zA-Z0-9_-]+$/.test(room)] *)
Definition asteroid_room (room : string) : bool :=
  match after "asteroid:" room with
  | Some id => one_or_more id
  | None => false
  end.

(** The validator of the schema's [room]. *)
Definition validator (v : string) : bool :=
  String.eqb v "global" || asteroid_room v.

(** The events of a socket that change its rooms, with the room they
    carry, if they carry one. *)
Inductive Event :=
| join_room (room : option string)
| leave_room (room : option string).

(** The rooms of a socket on connection, its own room apart. *)
Definition connection : list string := ["global"%string].

(** [socket.join(room)] and [socket.leave(room)] on the set of rooms. *)
Definition join (room : string) (rooms : list string) : list string :=
  if Js.includes rooms room then rooms else room :: rooms.

Definition leave (room : string) (rooms : list string) : list string :=
  filter (fun r => negb (String.eqb r room)) rooms.

Definition on (event : Event) (rooms : list string) : list string :=
  match event with
  | join_room room =>
      match room with
      | Some room =>
          if negb (String.eqb room "") && asteroid_room room then join room rooms
          else rooms
      | None => rooms
      end
  | leave_room room =>
      match room with
      | Some room =>
          if negb (String.eqb room "") && negb (String.eqb room "global")
          then leave room rooms
          else rooms
      | None => rooms
      end
  end.

(** The rooms after the events, in their order. *)
Definition rooms_after (events : list Event) : list string :=
  fold_left (fun rooms event => on event rooms) events connection.

End Chat.

(** * Properties *)

(** ** Facts about the JavaScript operators *)

Section JsFacts.

Local Open Scope R_scope.

Lemma Rleb_true x y : Js.Rleb x y = true <-> x <= y.
Proof. unfold Js.Rleb; destruct (Rle_dec x y); split; intros; try easy; lra. Qed.

Lemma Rleb_false x y : Js.Rleb x y = false <-> y < x.
Proof. unfold Js.Rleb; destruct (Rle_dec x y); split; intros; try easy; lra. Qed.

Lemma Rltb_true x y : Js.Rltb x y = true <-> x < y.
Proof. unfold Js.Rltb; destruct (Rlt_dec x y); split; intros; try easy; lra. Qed.

Lemma Rltb_false x y : Js.Rltb x y = false <-> y <= x.
Proof. unfold Js.Rltb; destruct (Rlt_dec x y); split; intros; try easy; lra. Qed.

Lemma Reqb_true x y : Js.Reqb x y = true <-> x = y.
Proof. unfold Js.Reqb; destruct (Req_dec_T x y); split; intros; easy. Qed.

Lemma Reqb_false x y : Js.Reqb x y = false <-> x <> y.
Proof. unfold Js.Reqb; destruct (Req_dec_T x y); split; intros; easy. Qed.

Lemma Math_round_eq (z : Z) (x : R) :
  IZR z - / 2 <= x < IZR z + / 2 -> Js.Math_round x = z.
Proof. intros H; unfold Js.Math_round; apply Zfloor_eq; lra. Qed.

Lemma ln10_pos : 0 < ln 10.
Proof. rewrite <- ln_1; apply ln_increasing; lra. Qed.

Lemma log10_le x y : 0 < x <= y -> Js.Math_log10 x <= Js.Math_log10 y.
Proof.
  intros [Hx [Hlt | Heq]].
  - unfold Js.Math_log10.
    apply Rmult_le_compat_r.
    + left; apply Rinv_0_lt_compat, ln10_pos.
    + left; apply ln_increasing; assumption.
  - subst; lra.
Qed.

Lemma log10_1000_pos : 0 < Js.Math_log10 1000.
Proof.
  unfold Js.Math_log10.
  apply Rdiv_lt_0_compat; [| apply ln10_pos].
  rewrite <- ln_1; apply ln_increasing; lra.
Qed.

(** The clamp [Math.min(100, Math.max(0, x))]. *)
Lemma clamp_id x : 0 <= x <= 100 -> Rmin 100 (Rmax 0 x) = x.
Proof.
  intros [H0 H100].
  rewrite (Rmax_right 0 x) by assumption.
  apply Rmin_right; assumption.
Qed.

Lemma clamp_le x y : x <= y -> Rmin 100 (Rmax 0 x) <= Rmin 100 (Rmax 0 y).
Proof.
  intros H.
  apply Rle_min_compat_l, Rle_max_compat_l; assumption.
Qed.

End JsFacts.

(** Decide the comparisons of the goal from the real-number facts at hand. *)
Ltac js_cases :=
  repeat match goal with
    | |- context [Js.Rleb ?a ?b] =>
        first [ rewrite (proj2 (Rleb_true a b)) by lra
              | rewrite (proj2 (Rleb_false a b)) by lra ]
    | |- context [Js.Rltb ?a ?b] =>
        first [ rewrite (proj2 (Rltb_true a b)) by lra
              | rewrite (proj2 (Rltb_false a b)) by lra ]
    | |- context [Js.Reqb ?a ?b] =>
        first [ rewrite (proj2 (Reqb_true a b)) by lra
              | rewrite (proj2 (Reqb_false a b)) by lra ]
    end.

(** ** The risk engine *)

Section RiskEngineFacts.

Import RiskEngine.
Local Open Scope R_scope.

Lemma distance_unknown : calculateDistanceScore None = 100.
Proof. reflexivity. Qed.

Lemma distance_nonpositive d : d <= 0 -> calculateDistanceScore (Some d) = 100.
Proof.
  intros H; unfold calculateDistanceScore; simpl.
  rewrite (proj2 (Rleb_true d 0)) by lra.
  rewrite orb_true_r; reflexivity.
Qed.

Lemma distance_close d : 0 < d <= 1 -> calculateDistanceScore (Some d) = 100.
Proof.
  intros H; unfold calculateDistanceScore, MIN_SAFE_DISTANCE; simpl.
  js_cases; reflexivity.
Qed.

Lemma distance_far d : 50 <= d -> calculateDistanceScore (Some d) = 0.
Proof.
  intros H.
  unfold calculateDistanceScore, MIN_SAFE_DISTANCE, MAX_CONCERNING_DISTANCE, Js.ge; simpl.
  js_cases; reflexivity.
Qed.

Lemma distance_linear d :
  1 < d < 50 -> calculateDistanceScore (Some d) = 100 * (50 - d) / (50 - 1).
Proof.
  intros H.
  unfold calculateDistanceScore, MIN_SAFE_DISTANCE, MAX_CONCERNING_DISTANCE, Js.ge; simpl.
  js_cases; simpl.
  rewrite clamp_id; lra.
Qed.

End RiskEngineFacts.

Section RiskEngineClaims.

Import RiskEngine.
Local Open Scope R_scope.

(** C5.  The distance sub-score is 100 for an unknown or non-positive lunar
    distance, 100 up to 1 LD, 0 from 50 LD on, and [100 (50 - d) / (50 - 1)]
    in between; so it is 100 at 0.5, 0 at 50 and 50 at 25.5. *)
Theorem distance_score_cases :
  calculateDistanceScore None = 100
  /\ (forall d, d <= 0 -> calculateDistanceScore (Some d) = 100)
  /\ (forall d, 0 < d <= 1 -> calculateDistanceScore (Some d) = 100)
  /\ (forall d, 50 <= d -> calculateDistanceScore (Some d) = 0)
  /\ (forall d, 1 < d < 50 ->
        calculateDistanceScore (Some d) = 100 * (50 - d) / (50 - 1))
  /\ calculateDistanceScore (Some 0.5) = 100
  /\ calculateDistanceScore (Some 50) = 0
  /\ calculateDistanceScore (Some 25.5) = 50.
Proof.
  split; [exact distance_unknown |].
  split; [exact distance_nonpositive |].
  split; [exact distance_close |].
  split; [exact distance_far |].
  split; [exact distance_linear |].
  split; [apply distance_close; lra |].
  split; [apply distance_far; lra |].
  rewrite distance_linear by lra.
  lra.
Qed.

(** The cases at -3, 3/4, 80 and 8 lunar distances. *)
Lemma distance_score_cases_witness :
  calculateDistanceScore (Some (-3)) = 100
  /\ calculateDistanceScore (Some (3 / 4)) = 100
  /\ calculateDistanceScore (Some 80) = 0
  /\ calculateDistanceScore (Some 8) = 100 * (50 - 8) / (50 - 1).
Proof.
  destruct distance_score_cases as (_ & Hneg & Hclose & Hfar & Hlin & _).
  split; [apply Hneg; lra |].
  split; [apply Hclose; lra |].
  split; [apply Hfar; lra |].
  apply Hlin; lra.
Defined.

Lemma diameter_missing : calculateDiameterScore None = 0.
Proof. reflexivity. Qed.

Lemma diameter_nonpositive d : d <= 0 -> calculateDiameterScore (Some d) = 0.
Proof.
  intros H; unfold calculateDiameterScore; simpl.
  rewrite (proj2 (Rleb_true d 0)) by lra.
  rewrite orb_true_r; reflexivity.
Qed.

Lemma diameter_positive d :
  0 < d ->
  calculateDiameterScore (Some d)
  = Rmin 100 (Rmax 0 (Js.Math_log10 d / Js.Math_log10 1000 * 100)).
Proof.
  intros H; unfold calculateDiameterScore, MAX_DIAMETER; simpl.
  js_cases; reflexivity.
Qed.

Lemma diameter_monotone d1 d2 :
  0 < d1 <= d2 -> calculateDiameterScore (Some d1) <= calculateDiameterScore (Some d2).
Proof.
  intros [H1 H12].
  rewrite !diameter_positive by lra.
  apply clamp_le.
  apply Rmult_le_compat_r; [lra |].
  apply Rmult_le_compat_r.
  - left; apply Rinv_0_lt_compat, log10_1000_pos.
  - apply log10_le; split; assumption.
Qed.

Lemma diameter_1000 : calculateDiameterScore (Some 1000) = 100.
Proof.
  rewrite diameter_positive by lra.
  pose proof log10_1000_pos as Hpos.
  replace (Js.Math_log10 1000 / Js.Math_log10 1000) with 1 by (field; lra).
  rewrite clamp_id; lra.
Qed.

(** C6.  The diameter sub-score never decreases as the diameter grows, is 0
    for a missing or non-positive diameter, and is 100 at 1000 meters. *)
Theorem diameter_score_monotone :
  (forall d1 d2, 0 < d1 <= d2 ->
     calculateDiameterScore (Some d1) <= calculateDiameterScore (Some d2))
  /\ (forall d, d <= 0 -> calculateDiameterScore (Some d) = 0)
  /\ calculateDiameterScore None = 0
  /\ calculateDiameterScore (Some 1000) = 100.
Proof.
  split; [exact diameter_monotone |].
  split; [exact diameter_nonpositive |].
  split; [exact diameter_missing | exact diameter_1000].
Qed.

(** From 10 to 500 meters the score does not decrease; at -2 it is 0. *)
Lemma diameter_score_monotone_witness :
  calculateDiameterScore (Some 10) <= calculateDiameterScore (Some 500)
  /\ calculateDiameterScore (Some (-2)) = 0.
Proof.
  destruct diameter_score_monotone as (Hmono & Hneg & _).
  split; [apply Hmono; lra | apply Hneg; lra].
Defined.

End RiskEngineClaims.

Section RiskScoreClaims.

Import RiskEngine RiskCases.
Local Open Scope R_scope.

Lemma falsy_or0 x : Js.falsy (Some (Js.or0 x)) = Js.falsy x.
Proof.
  destruct x as [r |]; simpl; [reflexivity |].
  apply Reqb_true; reflexivity.
Qed.

Lemma le_or0 x : Js.falsy x = false -> Js.le (Some (Js.or0 x)) (Some 0) = Js.le x (Some 0).
Proof. destruct x as [r |]; simpl; [reflexivity | discriminate]. Qed.

Lemma diameter_or0 x : calculateDiameterScore (Some (Js.or0 x)) = calculateDiameterScore x.
Proof.
  unfold calculateDiameterScore.
  rewrite falsy_or0.
  destruct (Js.falsy x) eqn:E; [reflexivity |].
  rewrite le_or0 by assumption; reflexivity.
Qed.

Lemma velocity_or0 x : calculateVelocityScore (Some (Js.or0 x)) = calculateVelocityScore x.
Proof.
  unfold calculateVelocityScore.
  rewrite falsy_or0.
  destruct (Js.falsy x) eqn:E; [reflexivity |].
  rewrite le_or0 by assumption; reflexivity.
Qed.

Lemma distance_or0 x : calculateDistanceScore (Some (Js.or0 x)) = calculateDistanceScore x.
Proof.
  unfold calculateDistanceScore.
  rewrite falsy_or0.
  destruct (Js.falsy x) eqn:E; [reflexivity |].
  rewrite le_or0 by assumption.
  destruct x as [r |]; [reflexivity | discriminate].
Qed.


Lemma score_range a : (1 <= score (calculateRiskScore a) <= 100)%Z.
Proof. unfold calculateRiskScore; simpl; lia. Qed.






End RiskScoreClaims.

(** ** Rules for [post] *)

Section HoareRules.

Import Effect Hoare.

Context {A B : Type}.

Lemma post_ret (a : A) w (Q : Result A -> World -> Prop) :
  Q (Ok a) w -> post (ret a) w Q.
Proof. intros H; exact H. Qed.

Lemma post_throw (e : Error) w (Q : Result A -> World -> Prop) :
  Q (Throw e) w -> post (throw e) w Q.
Proof. intros H; exact H. Qed.

Lemma post_bind (m : M A) (k : A -> M B) w (Q : Result B -> World -> Prop) :
  post m w (on_ok (fun a w' => post (k a) w' Q) Q) -> post (bind m k) w Q.
Proof.
  unfold post, bind, on_ok.
  destruct (m w) as [[a | e] w']; simpl; intros H; exact H.
Qed.

Lemma post_try_catch (m : M A) (h : Error -> M A) w (Q : Result A -> World -> Prop) :
  post m w (on_throw (fun e w' => post (h e) w' Q) Q) -> post (try_catch m h) w Q.
Proof.
  unfold post, try_catch, on_throw.
  destruct (m w) as [[a | e] w']; simpl; intros H; exact H.
Qed.

Lemma post_await (call : World -> Result A * World) w (Q : Result A -> World -> Prop) :
  (fails (oracle w (ops w)) = true -> Q (Throw StoreError) (tick w)) ->
  (fails (oracle w (ops w)) = false -> Q (fst (call w)) (tick (snd (call w)))) ->
  post (await_store call) w Q.
Proof.
  unfold post, await_store.
  destruct (fails (oracle w (ops w))); intros Hf Hs.
  - apply Hf; reflexivity.
  - destruct (call w) as [r w']; apply Hs; reflexivity.
Qed.

Lemma post_now w (Q : Result Z -> World -> Prop) :
  Q (Ok (clock w)) w -> post Date_now w Q.
Proof. intros H; exact H. Qed.

Lemma post_emit e w (Q : Result unit -> World -> Prop) :
  Q (Ok tt) (push_event e w) -> post (emit e) w Q.
Proof. intros H; exact H. Qed.

Lemma post_mono (m : M A) w (Q Q' : Result A -> World -> Prop) :
  post m w Q -> (forall r w', Q r w' -> Q' r w') -> post m w Q'.
Proof. unfold post; intros H HQ; apply HQ, H. Qed.

(** The loop rule: [I rest s] holds of the world before the elements [rest]
    are visited with the local state [s]. *)
Lemma post_for_of (body : B -> A -> M B) (I : list A -> B -> World -> Prop)
    (Q : Result B -> World -> Prop) :
  (forall x rest s w, I (x :: rest) s w ->
     post (body s x) w (on_ok (fun s' w' => I rest s' w') Q)) ->
  (forall s w, I [] s w -> Q (Ok s) w) ->
  forall l s w, I l s w -> post (for_of l body s) w Q.
Proof.
  intros Hbody Hend l.
  induction l as [| x rest IH]; intros s w HI.
  - unfold post; simpl; apply Hend, HI.
  - simpl; unfold post, bind.
    specialize (Hbody x rest s w HI).
    unfold post, on_ok in Hbody.
    destruct (body s x w) as [[s' | e] w']; simpl in *.
    + apply IH, Hbody.
    + exact Hbody.
Qed.

End HoareRules.

(** ** The personal filter *)

Section PersonalFilter.

Import AlertDispatcher.
Local Open Scope R_scope.

Lemma truthy_spec x : Js.truthy x = true <-> exists r, x = Some r /\ r <> 0.
Proof.
  unfold Js.truthy; destruct x as [r |]; simpl.
  - rewrite negb_true_iff, Reqb_false.
    split.
    + intros H; exists r; split; [reflexivity | exact H].
    + intros (r' & Hr & Hn); injection Hr as <-; exact Hn.
  - split; [discriminate | intros (r & Hr & _); discriminate].
Qed.

Lemma lt_spec x y : Js.lt x y = true <-> exists a b, x = Some a /\ y = Some b /\ a < b.
Proof.
  destruct x as [a |], y as [b |]; simpl.
  - rewrite Rltb_true; split.
    + intros H; exists a, b; auto.
    + intros (a' & b' & Ha & Hb & H); injection Ha as <-; injection Hb as <-; exact H.
  - split; [discriminate | intros (a' & b' & _ & Hb & _); discriminate].
  - split; [discriminate | intros (a' & b' & Ha & _); discriminate].
  - split; [discriminate | intros (a' & b' & Ha & _); discriminate].
Qed.

(** A condition of the filter rejects exactly when the setting is set and not
    zero, the field is there, and the comparison goes against the asteroid. *)
Lemma rejects_spec setting field :
  Js.truthy setting && Js.lt field setting = false <->
  (forall m d, setting = Some m -> m <> 0 -> field = Some d -> m <= d).
Proof.
  rewrite andb_false_iff; split.
  - intros H m d Hs Hm Hf; subst.
    destruct H as [H | H].
    + assert (T : Js.truthy (Some m) = true) by (apply truthy_spec; eauto).
      congruence.
    + simpl in H; apply Rltb_false in H; exact H.
  - intros H.
    destruct (Js.truthy setting) eqn:T; [right | left; reflexivity].
    apply truthy_spec in T as (m & -> & Hm).
    destruct field as [d |]; [| reflexivity].
    simpl; apply Rltb_false; eauto.
Qed.

Lemma matches_spec a s :
  matchesUserThresholds a s = true <->
  (forall m d, UserDoc.minDiameter s = Some m -> m <> 0 ->
     AsteroidDoc.estimatedDiameterMax a = Some d -> m <= d)
  /\ (forall m d, UserDoc.maxDistance s = Some m -> m <> 0 ->
        AsteroidDoc.missDistanceLunar a = Some d -> d <= m)
  /\ (forall t r, UserDoc.riskThreshold s = Some t -> t <> 0 ->
        AsteroidDoc.riskScore a = Some r -> t <= r).
Proof.
  unfold matchesUserThresholds.
  rewrite <- (rejects_spec (UserDoc.minDiameter s) (AsteroidDoc.estimatedDiameterMax a)).
  rewrite <- (rejects_spec (UserDoc.riskThreshold s) (AsteroidDoc.riskScore a)).
  assert (Hd : Js.truthy (UserDoc.maxDistance s)
               && Js.gt (AsteroidDoc.missDistanceLunar a) (UserDoc.maxDistance s) = false
               <-> (forall m d, UserDoc.maxDistance s = Some m -> m <> 0 ->
                      AsteroidDoc.missDistanceLunar a = Some d -> d <= m)).
  { unfold Js.gt; rewrite andb_false_iff; split.
    - intros H m d Hs Hm Hf; rewrite Hs, Hf in H.
      destruct H as [H | H].
      + assert (T : Js.truthy (Some m) = true) by (apply truthy_spec; eauto).
        congruence.
      + simpl in H; apply Rltb_false in H; exact H.
    - intros H.
      destruct (Js.truthy (UserDoc.maxDistance s)) eqn:T; [right | left; reflexivity].
      apply truthy_spec in T as (m & Hs & Hm); rewrite Hs.
      destruct (AsteroidDoc.missDistanceLunar a) as [d |] eqn:Hf; [| reflexivity].
      simpl; apply Rltb_false; eauto. }
  rewrite <- Hd.
  destruct (Js.truthy (UserDoc.minDiameter s) && _);
    destruct (Js.truthy (UserDoc.maxDistance s) && _);
    destruct (Js.truthy (UserDoc.riskThreshold s) && _);
    intuition congruence.
Qed.

(** C10.  The filter accepts exactly when each of the three conditions, taken
    only if its setting is set and not zero and the asteroid has the field
    compared, holds of the numbers.  So a setting that is zero or absent
    lets every asteroid through its condition, and so does a missing field of
    the asteroid, whatever the setting. *)
Theorem thresholds_apply_when_set :
  (forall a s,
     matchesUserThresholds a s = true <->
     (forall m d, UserDoc.minDiameter s = Some m -> m <> 0 ->
        AsteroidDoc.estimatedDiameterMax a = Some d -> m <= d)
     /\ (forall m d, UserDoc.maxDistance s = Some m -> m <> 0 ->
           AsteroidDoc.missDistanceLunar a = Some d -> d <= m)
     /\ (forall t r, UserDoc.riskThreshold s = Some t -> t <> 0 ->
           AsteroidDoc.riskScore a = Some r -> t <= r))
  /\ (forall a s,
        Js.falsy (UserDoc.minDiameter s) = true ->
        Js.falsy (UserDoc.maxDistance s) = true ->
        Js.falsy (UserDoc.riskThreshold s) = true ->
        matchesUserThresholds a s = true)
  /\ (forall a s,
        AsteroidDoc.estimatedDiameterMax a = None ->
        AsteroidDoc.missDistanceLunar a = None ->
        AsteroidDoc.riskScore a = None ->
        matchesUserThresholds a s = true).
Proof.
  split; [exact matches_spec |].
  split.
  - intros a s Hd Hl Hr.
    unfold matchesUserThresholds, Js.truthy.
    rewrite Hd, Hl, Hr; reflexivity.
  - intros a s Hd Hl Hr.
    apply matches_spec.
    rewrite Hd, Hl, Hr.
    repeat split; intros; discriminate.
Qed.

(** An asteroid without a diameter, at 4 lunar distances, passes the filter
    of a user who asks for 100 meters and has set the distance limit to 0. *)
Lemma thresholds_apply_when_set_witness :
  matchesUserThresholds
    (Samples.asteroid "3542519" None (Some 4) (Some 80) 0)
    (Samples.settings (Some 100) (Some 0) None) = true.
Proof.
  destruct thresholds_apply_when_set as (Hiff & _).
  apply Hiff; simpl.
  repeat split; intros m d Hs Hm Hf.
  - discriminate Hf.
  - injection Hs as <-; contradiction Hm; reflexivity.
  - discriminate Hs.
Defined.

End PersonalFilter.

(** ** The candidates of the sweep *)

Section Candidates.

Import Effect AlertDispatcher.
Local Open Scope R_scope.

Lemma includes_spec l s : Js.includes l s = true <-> In s l.
Proof.
  unfold Js.includes; rewrite existsb_exists; split.
  - intros (x & Hin & Heq); apply String.eqb_eq in Heq; subst; exact Hin.
  - intros Hin; exists s; split; [exact Hin | apply String.eqb_refl].
Qed.

Lemma le_spec x y : Js.le x y = true <-> exists a b, x = Some a /\ y = Some b /\ a <= b.
Proof.
  destruct x as [a |], y as [b |]; simpl.
  - rewrite Rleb_true; split.
    + intros H; exists a, b; auto.
    + intros (a' & b' & Ha & Hb & H); injection Ha as <-; injection Hb as <-; exact H.
  - split; [discriminate | intros (a' & b' & _ & Hb & _); discriminate].
  - split; [discriminate | intros (a' & b' & Ha & _); discriminate].
  - split; [discriminate | intros (a' & b' & Ha & _); discriminate].
Qed.

Lemma watching_spec id u :
  User.watching id u = true <->
  In id (UserDoc.watched_asteroid_ids u) /\ UserDoc.enabled (UserDoc.alertSettings u) = true.
Proof. unfold User.watching; rewrite andb_true_iff, includes_spec; reflexivity. Qed.

Lemma threshold_match_spec id r u :
  User.threshold_match id (Some r) u = true <->
  UserDoc.enabled (UserDoc.alertSettings u) = true
  /\ (exists t, UserDoc.riskThreshold (UserDoc.alertSettings u) = Some t /\ t <= r)
  /\ ~ In id (UserDoc.watched_asteroid_ids u).
Proof.
  unfold User.threshold_match.
  rewrite !andb_true_iff, negb_true_iff, le_spec, <- not_true_iff_false, includes_spec.
  split.
  - intros [[He (t & r' & Ht & Hr & Hle)] Hw]; injection Hr as <-; eauto.
  - intros (He & (t & Ht & Hle) & Hw); repeat split; eauto.
Qed.






End Candidates.

(** ** What the sweep creates *)

Section SweepFacts.

Import Effect Hoare Sweep AlertDispatcher.

Variable P : AlertDoc.t -> Prop.

Lemma grows_refl w : grows P w w.
Proof.
  repeat split.
  exists []; split; [symmetry; apply app_nil_r | constructor].
Qed.

Lemma grows_trans w1 w2 w3 : grows P w1 w2 -> grows P w2 w3 -> grows P w1 w3.
Proof.
  intros (Hu & Ha & c1 & H1 & F1) (Hu' & Ha' & c2 & H2 & F2).
  split; [congruence |].
  split; [congruence |].
  exists (c1 ++ c2); split.
  - rewrite H2, H1, app_assoc; reflexivity.
  - apply Forall_app; split; assumption.
Qed.

Lemma grows_tick w0 w : grows P w0 w -> grows P w0 (tick w).
Proof. intros H; exact H. Qed.

Lemma grows_push_event e w0 w : grows P w0 w -> grows P w0 (push_event e w).
Proof. intros H; exact H. Qed.

Lemma grows_create al w0 w :
  P al -> grows P w0 w -> grows P w0 (set_alerts (alerts w ++ [al]) w).
Proof.
  intros HP (Hu & Ha & c & H & F).
  split; [exact Hu |].
  split; [exact Ha |].
  exists (c ++ [al]); split.
  - simpl; rewrite H, app_assoc; reflexivity.
  - apply Forall_app; split; [exact F | constructor; [exact HP | constructor]].
Qed.

(** A store call that only reads keeps the world but for the time it takes. *)
Lemma post_read {A} (f : World -> A) w (Q : Result A -> World -> Prop) :
  (fails (oracle w (ops w)) = true -> Q (Throw StoreError) (tick w)) ->
  (fails (oracle w (ops w)) = false -> Q (Ok (f w)) (tick w)) ->
  post (await_store (fun w => (Ok (f w), w))) w Q.
Proof. intros Hf Hs; apply post_await; assumption. Qed.

Lemma createAlertForUser_grows u a io w0 w :
  (forall t, P (Alert.closeApproachAlert u a t)) ->
  grows P w0 w ->
  post (createAlertForUser u a io) w (fun _ w' => grows P w0 w').
Proof.
  intros HP Hg.
  unfold createAlertForUser.
  apply post_try_catch, post_bind, post_now; cbn [on_ok on_throw].
  apply post_bind.
  unfold Alert.findOne.
  apply post_read; cbn [on_ok on_throw].
  - intros _; exact Hg.
  - intros _.
    destruct (find _ (alerts w)) as [existing |].
    + exact Hg.
    + apply post_bind.
      unfold Alert.createCloseApproachAlert.
      apply post_bind, post_now; cbn [on_ok on_throw].
      apply post_await; cbn [on_ok on_throw].
      * intros _; exact Hg.
      * intros _.
        apply post_bind.
        assert (Hg' : grows P w0
                  (tick (set_alerts
                     (alerts (tick w) ++ [Alert.closeApproachAlert u a (clock (tick w))])
                     (tick w)))).
        { apply grows_tick, grows_create; [apply HP | exact Hg]. }
        destruct io; cbn [on_ok on_throw].
        -- apply post_bind, post_now; cbn [on_ok on_throw].
           apply post_emit; cbn [on_ok on_throw].
           exact Hg'.
        -- exact Hg'.
Qed.

Lemma usersToAlert_grows a w0 w :
  grows P w0 w ->
  post (usersToAlert a) w
    (on_ok (fun l w' => grows P w0 w' /\ forall u, In u l -> In u (users w0))
           (fun (_ : Result (list UserDoc.t)) w' => grows P w0 w')).
Proof.
  intros Hg.
  assert (Hu : users w = users w0) by apply Hg.
  unfold usersToAlert, watchingUsers, thresholdUsers, User.find.
  apply post_bind, post_read; cbn [on_ok on_throw].
  - intros _; exact Hg.
  - intros _.
    apply post_bind.
    destruct (Js.ge (AsteroidDoc.riskScore a) (Some 50%R)).
    + apply post_read; cbn [on_ok on_throw].
      * intros _; exact Hg.
      * intros _; split; [exact Hg |].
        intros u Hin; rewrite <- Hu.
        apply in_app_or in Hin as [Hin | Hin]; apply filter_In in Hin; apply Hin.
    + cbn [on_ok on_throw]; split; [exact Hg |].
      intros u Hin; rewrite <- Hu.
      apply in_app_or in Hin as [Hin | Hin]; [| contradiction].
      apply filter_In in Hin; apply Hin.
Qed.

End SweepFacts.

Section SweepClaims.

Import Effect Hoare Sweep AlertDispatcher.

Lemma sweep_grows io daysAhead w :
  post (checkAndDispatchAlerts io daysAhead) w (fun _ w' => grows (filtered w) w w').
Proof.
  unfold checkAndDispatchAlerts.
  apply post_try_catch, post_bind, post_now; cbn [on_ok on_throw].
  apply post_bind.
  unfold Asteroid.find_approaching.
  apply post_read; cbn [on_ok on_throw].
  - intros _; exact (grows_tick _ _ _ (grows_refl _ _)).
  - intros _.
    set (upcoming := filter _ (asteroids w)).
    destruct (Nat.eqb (List.length upcoming) 0).
    + exact (grows_tick _ _ _ (grows_refl _ _)).
    + apply post_bind.
      apply post_for_of with
        (I := fun rest (_ : nat) w' =>
                grows (filtered w) w w' /\ forall a, In a rest -> In a (asteroids w)).
      * intros a rest n w1 [Hg Hin].
        apply post_bind.
        eapply post_mono; [apply usersToAlert_grows; exact Hg |].
        intros [l | e] w2; cbn [on_ok on_throw]; [| intros H; exact H].
        intros [Hg2 Hl].
        apply post_for_of with
          (I := fun rest' (_ : nat) w' =>
                  grows (filtered w) w w' /\ forall u, In u rest' -> In u (users w)).
        -- intros u rest' n' w3 [Hg3 Hin'].
           destruct (matchesUserThresholds a (UserDoc.alertSettings u)) eqn:Hm.
           ++ apply post_bind.
              eapply post_mono.
              ** apply createAlertForUser_grows; [| exact Hg3].
                 intros t; exists u, a.
                 split; [apply Hin'; left; reflexivity |].
                 split; [apply Hin; left; reflexivity |].
                 split; [reflexivity | exact Hm].
              ** intros [[al |] | e] w4 Hg4; cbn [on_ok on_throw];
                   try (split; [exact Hg4 | intros; apply Hin'; right; assumption]).
                 exact Hg4.
           ++ cbn [on_ok on_throw]; split; [exact Hg3 |].
              intros; apply Hin'; right; assumption.
        -- intros n' w3 [Hg3 _]; cbn [on_ok on_throw]; split; [exact Hg3 |].
           intros; apply Hin; right; assumption.
        -- split; assumption.
      * intros n w1 [Hg _]; cbn [on_ok on_throw]; exact Hg.
      * split; [exact (grows_tick _ _ _ (grows_refl _ _)) |].
        intros a Hin; apply filter_In in Hin; apply Hin.
Qed.

End SweepClaims.

(** Run a computation on a concrete world, deciding the comparisons of
    numbers as they come. *)
Ltac js_run :=
  repeat (progress (
    cbn;
    unfold Effect.try_catch, Effect.bind, Effect.ret, Effect.throw, Effect.Date_now,
      Effect.await_store, Effect.emit,
      Asteroid.find_approaching, Asteroid.upsertFromNASA,
      AlertDispatcher.usersToAlert, AlertDispatcher.watchingUsers,
      AlertDispatcher.thresholdUsers, User.find, AlertDispatcher.createAlertForUser,
      Alert.findOne, Alert.createCloseApproachAlert,
      AlertDispatcher.matchesUserThresholds, User.watching, User.threshold_match,
      Js.truthy, Js.falsy, Js.lt, Js.gt, Js.le, Js.ge;
    cbn; js_cases)).

Section PersonalFilterInTheSweep.

Import Effect Hoare Sweep AlertDispatcher.
Local Open Scope R_scope.

(** C3, as the code has it.  Whatever the sweep adds to the alerts is the
    close-approach alert of a stored user and a stored asteroid that pass
    [matchesUserThresholds]: each of the three comparisons holds when the
    user's setting is set and not zero and the asteroid has the field.  No
    alert is created for a user whose riskThreshold is 60 about an object
    that scores 40, watched or not. *)
Theorem sweep_alerts_pass_the_filter :
  forall io daysAhead w,
    exists created,
      alerts (snd (checkAndDispatchAlerts io daysAhead w)) = alerts w ++ created
      /\ Forall (fun al => exists u a,
           In u (users w)
           /\ In a (asteroids w)
           /\ al = Alert.closeApproachAlert u a (AlertDoc.createdAt al)
           /\ matchesUserThresholds a (UserDoc.alertSettings u) = true
           /\ (forall m d, UserDoc.minDiameter (UserDoc.alertSettings u) = Some m ->
                 m <> 0 -> AsteroidDoc.estimatedDiameterMax a = Some d -> m <= d)
           /\ (forall m d, UserDoc.maxDistance (UserDoc.alertSettings u) = Some m ->
                 m <> 0 -> AsteroidDoc.missDistanceLunar a = Some d -> d <= m)
           /\ (forall t r, UserDoc.riskThreshold (UserDoc.alertSettings u) = Some t ->
                 t <> 0 -> AsteroidDoc.riskScore a = Some r -> t <= r)
           /\ ~ (AsteroidDoc.riskScore a = Some 40
                 /\ UserDoc.riskThreshold (UserDoc.alertSettings u) = Some 60)) created.
Proof.
  intros io daysAhead w.
  destruct (sweep_grows io daysAhead w) as (_ & _ & created & Hc & F).
  exists created; split; [exact Hc |].
  eapply Forall_impl; [| exact F].
  intros al (u & a & Hu & Ha & Hal & Hm).
  exists u, a.
  pose proof (proj1 (matches_spec a (UserDoc.alertSettings u)) Hm) as (Hd & Hl & Hr).
  repeat (split; [assumption |]).
  intros [Hs Ht].
  specialize (Hr 60 40 Ht ltac:(lra) Hs); lra.
Qed.

(** The watcher of the specification's example: threshold 60, object at 40. *)
Example watcher_below_threshold_gets_no_alert :
  checkAndDispatchAlerts true 1
    (Samples.world [Samples.object_40] [] [Samples.watcher] 0)
  = (Ok {| alertsSent := 0; error := None |},
     {| asteroids := [Samples.object_40]; alerts := []; users := [Samples.watcher];
        clock := 2; ops := 2; oracle := Samples.steady; nasa := Samples.feed_down;
        emitted := [] |}).
Proof.
  unfold checkAndDispatchAlerts, Samples.world, Samples.object_40, Samples.watcher.
  js_run.
  reflexivity.
Qed.

(** The same example, from the theorem: an alert could only be one for the
    watcher about the object, which the theorem excludes. *)
Lemma sweep_alerts_pass_the_filter_witness :
  alerts (snd (checkAndDispatchAlerts true 1
     (Samples.world [Samples.object_40] [] [Samples.watcher] 0))) = [].
Proof.
  destruct (sweep_alerts_pass_the_filter true 1
              (Samples.world [Samples.object_40] [] [Samples.watcher] 0))
    as (created & Hc & F).
  rewrite Hc; simpl.
  destruct created as [| al rest]; [reflexivity |].
  exfalso.
  inversion F as [| ? ? (u & a & Hu & Ha & _ & _ & _ & _ & _ & Hn) _]; subst.
  destruct Hu as [<- | []]; destruct Ha as [<- | []].
  apply Hn; split; reflexivity.
Defined.

(** C3 as stated fails: with the distance limit set to 0 the sweep alerts a
    user about an object at 4 lunar distances. *)
Lemma sweep_alerts_beyond_the_stated_filter :
  In (Alert.closeApproachAlert Samples.unlimited Samples.object_82 4)
     (alerts (snd (checkAndDispatchAlerts true 1
        (Samples.world [Samples.object_82] [] [Samples.unlimited] 0))))
  /\ ~ personal_filter Samples.object_82 (UserDoc.alertSettings Samples.unlimited).
Proof.
  split.
  - unfold checkAndDispatchAlerts, Samples.world, Samples.object_82, Samples.unlimited.
    js_run.
    left; reflexivity.
  - intros (_ & Hl & _).
    simpl in Hl.
    apply Rleb_true in Hl; lra.
Qed.


End PersonalFilterInTheSweep.

(** ** Invariants of the world that the pipeline keeps *)

Section Preservation.

Import Effect Hoare.

Variable Inv : World -> Prop.
Hypothesis Inv_tick : forall w, Inv w -> Inv (tick w).
Hypothesis Inv_event : forall e w, Inv w -> Inv (push_event e w).
Hypothesis Inv_asteroids : forall l w, Inv w -> Inv (set_asteroids l w).
Hypothesis Inv_create :
  forall u a io, preserves Inv (AlertDispatcher.createAlertForUser u a io).

Lemma preserves_ret {A} (a : A) : preserves Inv (ret a).
Proof. intros w H; exact H. Qed.

Lemma preserves_throw {A} e : preserves Inv (@throw A e).
Proof. intros w H; exact H. Qed.

Lemma preserves_now : preserves Inv Date_now.
Proof. intros w H; exact H. Qed.

Lemma preserves_emit e : preserves Inv (emit e).
Proof. intros w H; apply Inv_event, H. Qed.

Lemma preserves_bind {A B} (m : M A) (k : A -> M B) :
  preserves Inv m -> (forall a, preserves Inv (k a)) -> preserves Inv (bind m k).
Proof.
  intros Hm Hk w H.
  specialize (Hm w H).
  unfold bind.
  destruct (m w) as [[a | e] w']; simpl in *; [apply Hk, Hm | exact Hm].
Qed.

Lemma preserves_try_catch {A} (m : M A) (h : Error -> M A) :
  preserves Inv m -> (forall e, preserves Inv (h e)) -> preserves Inv (try_catch m h).
Proof.
  intros Hm Hh w H.
  specialize (Hm w H).
  unfold try_catch.
  destruct (m w) as [[a | e] w']; simpl in *; [exact Hm | apply Hh, Hm].
Qed.

Lemma preserves_for_of {A S} (l : list A) (body : S -> A -> M S) :
  (forall s x, preserves Inv (body s x)) -> forall s, preserves Inv (for_of l body s).
Proof.
  intros Hbody.
  induction l as [| x rest IH]; intros s; simpl.
  - apply preserves_ret.
  - apply preserves_bind; [apply Hbody | exact IH].
Qed.

Lemma preserves_await {A} (call : World -> Result A * World) :
  (forall w, Inv w -> Inv (snd (call w))) -> preserves Inv (await_store call).
Proof.
  intros Hcall w H.
  unfold await_store.
  destruct (fails (oracle w (ops w))); simpl; [apply Inv_tick, H |].
  specialize (Hcall w H).
  destruct (call w) as [r w']; simpl in *.
  apply Inv_tick, Hcall.
Qed.

Lemma preserves_upsert neo score category :
  preserves Inv (Asteroid.upsertFromNASA neo score category).
Proof.
  unfold Asteroid.upsertFromNASA.
  apply preserves_bind; [apply preserves_now |].
  intros now.
  destruct (Asteroid.asteroidData neo score category now) as [u [d |]];
    apply preserves_await; intros w H; [| exact H].
  destruct ((0 <=? score)%Z && (score <=? 100)%Z); [| exact H].
  destruct (Asteroid.findOneAndUpdate u (asteroids w)) as [l r]; simpl.
  apply Inv_asteroids, H.
Qed.

Lemma preserves_find f : preserves Inv (User.find f).
Proof. apply preserves_await; intros w H; exact H. Qed.

Lemma preserves_usersToAlert a : preserves Inv (AlertDispatcher.usersToAlert a).
Proof.
  unfold AlertDispatcher.usersToAlert, AlertDispatcher.watchingUsers,
    AlertDispatcher.thresholdUsers.
  apply preserves_bind; [apply preserves_find |].
  intros watching.
  apply preserves_bind; [| intros; apply preserves_ret].
  destruct (Js.ge _ _); [apply preserves_find | apply preserves_ret].
Qed.

Lemma preserves_sweep io daysAhead :
  preserves Inv (AlertDispatcher.checkAndDispatchAlerts io daysAhead).
Proof.
  unfold AlertDispatcher.checkAndDispatchAlerts.
  apply preserves_try_catch; [| intros; apply preserves_ret].
  apply preserves_bind; [apply preserves_now |].
  intros now.
  apply preserves_bind; [apply preserves_await; intros w H; exact H |].
  intros upcoming.
  destruct (Nat.eqb _ 0); [apply preserves_ret |].
  apply preserves_bind; [| intros; apply preserves_ret].
  apply preserves_for_of.
  intros n a.
  apply preserves_bind; [apply preserves_usersToAlert |].
  intros users.
  apply preserves_for_of.
  intros n' u.
  destruct (AlertDispatcher.matchesUserThresholds _ _); [| apply preserves_ret].
  apply preserves_bind; [apply Inv_create |].
  intros [al |]; apply preserves_ret.
Qed.

Lemma preserves_broadcast a io :
  preserves Inv (AlertDispatcher.broadcastNewHazardousAsteroid a io).
Proof.
  unfold AlertDispatcher.broadcastNewHazardousAsteroid.
  destruct (negb io); [apply preserves_ret |].
  apply preserves_bind; [apply preserves_now | intros; apply preserves_emit].
Qed.

Lemma preserves_processOne io stats neo : preserves Inv (Scheduler.processOne io stats neo).
Proof.
  unfold Scheduler.processOne.
  apply preserves_try_catch; [| intros; apply preserves_ret].
  apply preserves_bind; [apply preserves_upsert |].
  intros asteroid.
  apply preserves_bind; [| intros; apply preserves_ret].
  destruct (_ && io); [apply preserves_broadcast | apply preserves_ret].
Qed.

Lemma preserves_process io neoData :
  preserves Inv (Scheduler.processAndStoreAsteroids io neoData).
Proof. apply preserves_for_of; intros; apply preserves_processOne. Qed.

Lemma preserves_fetchNeoFeed startDate endDate :
  preserves Inv (NasaService.fetchNeoFeed startDate endDate).
Proof.
  unfold NasaService.fetchNeoFeed.
  apply preserves_try_catch; [| intros; apply preserves_ret].
  apply preserves_bind; [| intros; apply preserves_ret].
  intros w H; unfold NasaService.request.
  destruct (nasa w _ _); exact H.
Qed.

Lemma preserves_fetchTodayNeos : preserves Inv NasaService.fetchTodayNeos.
Proof.
  unfold NasaService.fetchTodayNeos.
  apply preserves_bind; [apply preserves_now |].
  intros today.
  apply preserves_bind; [apply preserves_fetchNeoFeed |].
  intros result.
  destruct (negb _); [apply preserves_ret |].
  destruct (NasaService.near_earth_objects result);
    [apply preserves_ret | apply preserves_throw].
Qed.

Lemma preserves_fetchWeekNeos : preserves Inv NasaService.fetchWeekNeos.
Proof.
  unfold NasaService.fetchWeekNeos.
  apply preserves_bind; [apply preserves_now |].
  intros today.
  apply preserves_bind; [apply preserves_fetchNeoFeed |].
  intros result.
  destruct (negb _); [apply preserves_ret |].
  destruct (NasaService.near_earth_objects result);
    [apply preserves_ret | apply preserves_throw].
Qed.

(** What follows the fetch in either pipeline. *)
Lemma preserves_after_fetch io neos daysAhead (update : Stats.t -> Z -> Io.Payload) :
  preserves Inv
    (if Nat.eqb (List.length neos) 0 then ret tt
     else
       bind (Scheduler.processAndStoreAsteroids io neos) (fun stats =>
       bind (if io
             then bind Date_now (fun timestamp =>
                    emit {| Io.room := None; Io.payload := update stats timestamp |})
             else ret tt) (fun _ =>
       bind (AlertDispatcher.checkAndDispatchAlerts io daysAhead) (fun _ => ret tt)))).
Proof.
  destruct (Nat.eqb _ 0); [apply preserves_ret |].
  apply preserves_bind; [apply preserves_process |].
  intros stats.
  apply preserves_bind.
  - destruct io; [| apply preserves_ret].
    apply preserves_bind; [apply preserves_now | intros; apply preserves_emit].
  - intros _.
    apply preserves_bind; [apply preserves_sweep | intros; apply preserves_ret].
Qed.

Lemma preserves_runDailyFetch io : preserves Inv (Scheduler.runDailyFetch io).
Proof.
  unfold Scheduler.runDailyFetch.
  apply preserves_try_catch; [| intros; apply preserves_ret].
  apply preserves_bind; [apply preserves_fetchTodayNeos |].
  intros neos; apply (preserves_after_fetch io neos 1 Io.DAILY_UPDATE).
Qed.

Lemma preserves_runWeeklyFetch io : preserves Inv (Scheduler.runWeeklyFetch io).
Proof.
  unfold Scheduler.runWeeklyFetch.
  apply preserves_try_catch; [| intros; apply preserves_ret].
  apply preserves_bind; [apply preserves_fetchWeekNeos |].
  intros neos; apply (preserves_after_fetch io neos 7 Io.WEEKLY_UPDATE).
Qed.

Lemma preserves_triggerManualFetch type io :
  preserves Inv (Scheduler.triggerManualFetch type io).
Proof.
  destruct type; [apply preserves_runDailyFetch | apply preserves_runWeeklyFetch].
Qed.

End Preservation.

(** ** The dedup guard *)

Section DedupFacts.

Import Effect Hoare Dedup AlertDispatcher.
Local Open Scope Z_scope.

Lemma contract_snoc l x :
  contract l -> Forall (fun y => apart y x) l -> contract (l ++ [x]).
Proof.
  unfold contract.
  induction 1 as [| y l Hy Hl IH]; intros F; simpl.
  - constructor; constructor.
  - inversion F as [| ? ? Hyx F']; subst.
    constructor.
    + apply Forall_app; split; [exact Hy | constructor; [exact Hyx | constructor]].
    + apply IH, F'.
Qed.

Lemma apart_mark_read sel x y : apart x y -> apart (mark_read sel x) (mark_read sel y).
Proof. intros H; exact H. Qed.

Lemma contract_outside keep sel l :
  contract l -> contract (map (mark_read sel) (filter keep l)).
Proof.
  unfold contract.
  induction 1 as [| y l Hy Hl IH]; simpl.
  - constructor.
  - destruct (keep y); simpl; [| exact IH].
    constructor; [| exact IH].
    apply Forall_map.
    apply Forall_forall; intros z Hz.
    apply filter_In in Hz as [Hz _].
    rewrite Forall_forall in Hy.
    apply apart_mark_read, Hy, Hz.
Qed.

(** What the guard knows when it finds nothing. *)
Lemma nothing_recent userId asteroidId since l :
  find (Alert.recent userId asteroidId since) l = None ->
  forall y, In y l ->
    AlertDoc.userId y = userId -> AlertDoc.asteroidId y = asteroidId ->
    AlertDoc.createdAt y < since.
Proof.
  intros Hfind y Hin Hu Ha.
  pose proof (find_none _ _ Hfind y Hin) as H.
  unfold Alert.recent in H.
  rewrite Hu, Ha, Nat.eqb_refl, String.eqb_refl in H; simpl in H.
  apply Z.leb_gt in H; exact H.
Qed.

(** And when something recent is there. *)
Lemma something_recent userId asteroidId since l x :
  In x l ->
  AlertDoc.userId x = userId -> AlertDoc.asteroidId x = asteroidId ->
  since <= AlertDoc.createdAt x ->
  exists y, find (Alert.recent userId asteroidId since) l = Some y.
Proof.
  intros Hin Hu Ha Ht.
  destruct (find (Alert.recent userId asteroidId since) l) as [y |] eqn:E; [eauto |].
  pose proof (nothing_recent _ _ _ _ E x Hin Hu Ha); lia.
Qed.

Lemma elapsed_nonneg w : clock w <= clock (tick w).
Proof. simpl; lia. Qed.

Lemma create_keeps_contract u a io :
  preserves (fun w => contract (alerts w)) (createAlertForUser u a io).
Proof.
  intros w H.
  unfold createAlertForUser, Alert.findOne, Alert.createCloseApproachAlert,
    try_catch, bind, Date_now, await_store, emit, ret.
  destruct (fails (oracle w (ops w))); [exact H |].
  cbn [fst snd].
  destruct (find _ (alerts w)) as [existing |] eqn:E; [exact H |].
  destruct (fails (oracle (tick w) (ops (tick w)))); [exact H |].
  assert (Hc : contract
            (alerts w ++ [Alert.closeApproachAlert u a (clock (tick w))])).
  { apply contract_snoc; [exact H |].
    apply Forall_forall; intros y Hy (_ & _ & Hu & Ha).
    pose proof (nothing_recent _ _ _ _ E y Hy Hu Ha) as Hlt.
    pose proof (elapsed_nonneg w).
    simpl AlertDoc.createdAt.
    unfold Js.DAY_MS in *; lia. }
  destruct io; exact Hc.
Qed.

Lemma reachable_contract w : reachable w -> contract (alerts w).
Proof.
  induction 1 as [w H | type io w _ IH | io daysAhead w _ IH | w w' _ IH Hout].
  - rewrite H; constructor.
  - revert w IH.
    apply (preserves_triggerManualFetch (fun w => contract (alerts w)));
      auto using create_keeps_contract.
  - revert w IH.
    apply (preserves_sweep (fun w => contract (alerts w)));
      auto using create_keeps_contract.
  - destruct Hout as (_ & keep & sel & ->).
    apply contract_outside, IH.
Qed.

Lemma create_keeps_type u a io :
  preserves (fun w => Forall (fun x => AlertDoc.type x = AlertDoc.close_approach) (alerts w))
    (createAlertForUser u a io).
Proof.
  intros w H.
  destruct (createAlertForUser_grows
              (fun x => AlertDoc.type x = AlertDoc.close_approach) u a io w w)
    as (_ & _ & created & -> & F).
  - intros t; reflexivity.
  - apply grows_refl.
  - apply Forall_app; split; assumption.
Qed.

Lemma reachable_close_approach w :
  reachable w -> Forall (fun x => AlertDoc.type x = AlertDoc.close_approach) (alerts w).
Proof.
  induction 1 as [w H | type io w _ IH | io daysAhead w _ IH | w w' _ IH Hout].
  - rewrite H; constructor.
  - revert w IH.
    apply (preserves_triggerManualFetch
             (fun w => Forall (fun x => AlertDoc.type x = AlertDoc.close_approach) (alerts w)));
      auto using create_keeps_type.
  - revert w IH.
    apply (preserves_sweep
             (fun w => Forall (fun x => AlertDoc.type x = AlertDoc.close_approach) (alerts w)));
      auto using create_keeps_type.
  - destruct Hout as (_ & keep & sel & ->).
    apply Forall_map, Forall_forall.
    intros x Hx; apply filter_In in Hx as [Hx _].
    rewrite Forall_forall in IH; apply (IH x Hx).
Qed.

Lemma guard_skips u a io w x :
  In x (alerts w) ->
  AlertDoc.userId x = UserDoc._id u ->
  AlertDoc.asteroidId x = AsteroidDoc.neo_reference_id a ->
  clock w - Js.DAY_MS <= AlertDoc.createdAt x ->
  fst (createAlertForUser u a io w) = Ok None
  /\ alerts (snd (createAlertForUser u a io w)) = alerts w
  /\ emitted (snd (createAlertForUser u a io w)) = emitted w.
Proof.
  intros Hin Hu Ha Ht.
  destruct (something_recent _ _ _ _ _ Hin Hu Ha Ht) as [y Hy].
  unfold createAlertForUser, try_catch, bind, Date_now, Alert.findOne, await_store, ret.
  destruct (fails (oracle w (ops w))); [repeat split |].
  cbn [fst snd].
  rewrite Hy; repeat split.
Qed.

Lemma guard_lets_through u a io w :
  (forall x, In x (alerts w) ->
     AlertDoc.userId x = UserDoc._id u ->
     AlertDoc.asteroidId x = AsteroidDoc.neo_reference_id a ->
     AlertDoc.createdAt x < clock w - Js.DAY_MS) ->
  fails (oracle w (ops w)) = false ->
  fails (oracle w (S (ops w))) = false ->
  fst (createAlertForUser u a io w)
  = Ok (Some (Alert.closeApproachAlert u a (clock (tick w))))
  /\ alerts (snd (createAlertForUser u a io w))
     = alerts w ++ [Alert.closeApproachAlert u a (clock (tick w))].
Proof.
  intros Hold H1 H2.
  assert (E : find (Alert.recent (UserDoc._id u) (AsteroidDoc.neo_reference_id a)
                      (clock w - Js.DAY_MS)) (alerts w) = None).
  { destruct (find _ (alerts w)) as [y |] eqn:E; [| reflexivity].
    apply find_some in E as [Hin Hr].
    unfold Alert.recent in Hr.
    apply andb_true_iff in Hr as [Hr Ht].
    apply andb_true_iff in Hr as [Hu Ha].
    apply Nat.eqb_eq in Hu; apply String.eqb_eq in Ha; apply Z.leb_le in Ht.
    specialize (Hold y Hin Hu Ha); lia. }
  unfold createAlertForUser, Alert.findOne, Alert.createCloseApproachAlert,
    try_catch, bind, Date_now, await_store, emit, ret.
  rewrite H1; cbn [fst snd]; rewrite E.
  change (fails (oracle (tick w) (ops (tick w)))) with (fails (oracle w (S (ops w)))).
  rewrite H2.
  destruct io; split; reflexivity.
Qed.

End DedupFacts.

Section DedupClaims.

Import Effect Hoare Dedup AlertDispatcher.
Local Open Scope Z_scope.

(** C2, as the code has it.  [createAlertForUser] creates nothing and sends
    nothing when the user already has an alert about the object from the
    last 24 hours.  When the scheduler's jobs run one at a time, every alert
    is a close-approach alert and no two of them to the same user about the
    same object are ever less than 24 hours apart.  And when every alert to
    the user about the object is older than 24 hours and the store answers,
    exactly one alert is created. *)
Theorem dedup_guard_one_run_at_a_time :
  (forall u a io w x,
     In x (alerts w) ->
     AlertDoc.userId x = UserDoc._id u ->
     AlertDoc.asteroidId x = AsteroidDoc.neo_reference_id a ->
     clock w - Js.DAY_MS <= AlertDoc.createdAt x ->
     fst (createAlertForUser u a io w) = Ok None
     /\ alerts (snd (createAlertForUser u a io w)) = alerts w
     /\ emitted (snd (createAlertForUser u a io w)) = emitted w)
  /\ (forall w, reachable w ->
        contract (alerts w)
        /\ Forall (fun x => AlertDoc.type x = AlertDoc.close_approach) (alerts w))
  /\ (forall u a io w,
        (forall x, In x (alerts w) ->
           AlertDoc.userId x = UserDoc._id u ->
           AlertDoc.asteroidId x = AsteroidDoc.neo_reference_id a ->
           AlertDoc.createdAt x < clock w - Js.DAY_MS) ->
        fails (oracle w (ops w)) = false ->
        fails (oracle w (S (ops w))) = false ->
        fst (createAlertForUser u a io w)
        = Ok (Some (Alert.closeApproachAlert u a (clock (tick w))))
        /\ alerts (snd (createAlertForUser u a io w))
           = alerts w ++ [Alert.closeApproachAlert u a (clock (tick w))]).
Proof.
  split; [exact guard_skips |].
  split; [| exact guard_lets_through].
  intros w H; split; [apply reachable_contract | apply reachable_close_approach]; exact H.
Qed.

(** An alert two hours old stops [createAlertForUser]; one of twenty-five
    hours does not; and a first sweep leaves alerts that meet the contract. *)
Lemma dedup_guard_one_run_at_a_time_witness :
  (let w := Samples.world [Samples.object_82] [Samples.earlier_alert]
              [Samples.matcher] (1000 + Samples.hours_2) in
   alerts (snd (createAlertForUser Samples.matcher Samples.object_82 true w)) = alerts w)
  /\ (let w := Samples.world [Samples.object_82] [Samples.earlier_alert]
                 [Samples.matcher] (1000 + Samples.hours_25) in
      alerts (snd (createAlertForUser Samples.matcher Samples.object_82 true w))
      = alerts w ++ [Alert.closeApproachAlert Samples.matcher Samples.object_82
                       (clock (tick w))])
  /\ contract (alerts (snd (checkAndDispatchAlerts true 1
        (Samples.world [Samples.object_82] [] [Samples.matcher] 0)))).
Proof.
  destruct dedup_guard_one_run_at_a_time as (Hskip & Hreach & Hpass).
  split; [| split].
  - apply (Hskip _ _ _ _ Samples.earlier_alert); try reflexivity.
    + left; reflexivity.
    + simpl; unfold Js.DAY_MS, Samples.hours_2; lia.
  - apply Hpass; try reflexivity.
    intros x [<- | []] _ _.
    simpl; unfold Js.DAY_MS, Samples.hours_25; lia.
  - apply Hreach, reach_sweep, reach_start; reflexivity.
Defined.

(** The specification's example at the level of the sweep: an alert two
    hours old stops the sweep from alerting again, one of twenty-five hours
    does not. *)
Example sweep_after_2_hours :
  alerts (snd (checkAndDispatchAlerts true 1
     (Samples.world [Samples.object_82] [Samples.earlier_alert] [Samples.matcher]
        (1000 + Samples.hours_2))))
  = [Samples.earlier_alert].
Proof.
  unfold checkAndDispatchAlerts, Samples.world, Samples.object_82, Samples.matcher.
  js_run.
  reflexivity.
Qed.

Example sweep_after_25_hours :
  alerts (snd (checkAndDispatchAlerts true 1
     (Samples.world
        [Samples.asteroid "3542519" (Some 300%R) (Some 4%R) (Some 82%R)
           (1000 + Samples.hours_25 + 3600000)]
        [Samples.earlier_alert] [Samples.matcher] (1000 + Samples.hours_25))))
  = [Samples.earlier_alert;
     Alert.closeApproachAlert Samples.matcher
       (Samples.asteroid "3542519" (Some 300%R) (Some 4%R) (Some 82%R)
          (1000 + Samples.hours_25 + 3600000))
       (1000 + Samples.hours_25 + 4)].
Proof.
  unfold checkAndDispatchAlerts, Samples.world, Samples.matcher.
  js_run.
  reflexivity.
Qed.

(** C2 as stated fails: two runs that overlap both pass the guard before
    either creates, and leave two alerts a millisecond apart. *)
Lemma overlapping_runs_break_the_contract :
  ~ (forall w flying, overlapping w flying -> contract (alerts w)).
Proof.
  intros H.
  pose (u := Samples.matcher).
  pose (a := Samples.object_82).
  pose (w0 := Samples.world [a] [] [u] 0).
  assert (H0 : overlapping w0 []) by (apply over_start; reflexivity).
  assert (H1 := over_check u a w0 [] H0 eq_refl).
  set (w1 := snd (Alert.findOne _ _ _ w0)) in H1.
  assert (H2 := over_check u a w1 [(u, a)] H1 eq_refl).
  set (w2 := snd (Alert.findOne _ _ _ w1)) in H2.
  assert (H3 := over_create u a w2 [] [(u, a)] H2).
  set (w3 := snd (Alert.createCloseApproachAlert u a w2)) in H3.
  assert (H4 := over_create u a w3 [] [] H3).
  apply H in H4.
  cbn in H4.
  inversion H4 as [| x l Hx _]; subst.
  inversion Hx as [| y l' Hxy _]; subst.
  assert (Hp : same_pair (Alert.closeApproachAlert u a 2) (Alert.closeApproachAlert u a 3))
    by (repeat split).
  specialize (Hxy Hp).
  cbn in Hxy; unfold Js.DAY_MS in Hxy; lia.
Qed.

End DedupClaims.

(** ** The upsert *)

Section UpsertFacts.

Import Effect Hoare Upsert.
Local Open Scope Z_scope.

Local Abbreviation id_of := AsteroidDoc.neo_reference_id.

Lemma apply_update_id u old : id_of (Asteroid.apply_update u old) = id_of u.
Proof. reflexivity. Qed.

(** The ids of the collection after the call: the same, or one more. *)
Lemma findOneAndUpdate_ids u l :
  map id_of (fst (Asteroid.findOneAndUpdate u l)) =
  if existsb (fun x => String.eqb (id_of x) (id_of u)) l
  then map id_of l
  else map id_of l ++ [id_of u].
Proof.
  induction l as [| x l IH]; simpl; [reflexivity |].
  destruct (String.eqb (id_of x) (id_of u)) eqn:E; simpl.
  - apply String.eqb_eq in E; rewrite E; reflexivity.
  - destruct (Asteroid.findOneAndUpdate u l) as [l' r]; simpl in *.
    rewrite IH.
    destruct (existsb _ l); reflexivity.
Qed.

Lemma findOneAndUpdate_result u l :
  In (snd (Asteroid.findOneAndUpdate u l)) (fst (Asteroid.findOneAndUpdate u l))
  /\ id_of (snd (Asteroid.findOneAndUpdate u l)) = id_of u
  /\ (snd (Asteroid.findOneAndUpdate u l) = u
      \/ exists old, snd (Asteroid.findOneAndUpdate u l) = Asteroid.apply_update u old).
Proof.
  induction l as [| x l IH]; simpl.
  - split; [left; reflexivity | split; [reflexivity | left; reflexivity]].
  - destruct (String.eqb (id_of x) (id_of u)); simpl.
    + split; [left; reflexivity | split; [reflexivity | right; eauto]].
    + destruct (Asteroid.findOneAndUpdate u l) as [l' r]; simpl in *.
      destruct IH as (Hin & Hid & Hr).
      split; [right; exact Hin | split; assumption].
Qed.

Lemma findOneAndUpdate_unique u l :
  unique l -> unique (fst (Asteroid.findOneAndUpdate u l)).
Proof.
  unfold unique; intros H.
  rewrite findOneAndUpdate_ids.
  destruct (existsb _ l) eqn:E; [exact H |].
  apply NoDup_app; [exact H | constructor; [intros [] | constructor] |].
  intros i Hi [<- | []].
  apply in_map_iff in Hi as (x & Hx & Hin).
  assert (T : existsb (fun x => String.eqb (id_of x) (id_of u)) l = true).
  { apply existsb_exists; exists x; split; [exact Hin |].
    apply String.eqb_eq; exact Hx. }
  congruence.
Qed.

(** On a collection that has a record [d] with the id, the call replaces
    [d] and touches nothing else. *)
Lemma findOneAndUpdate_replaces u d l :
  unique l -> In d l -> id_of d = id_of u ->
  Asteroid.findOneAndUpdate u l
  = (replaced (id_of u) (Asteroid.apply_update u d) l, Asteroid.apply_update u d).
Proof.
  unfold unique, replaced.
  induction l as [| x l IH]; intros Hu Hin Hid; [contradiction |].
  simpl in *.
  inversion Hu as [| ? ? Hx Hu']; subst.
  destruct (String.eqb (id_of x) (id_of u)) eqn:E.
  - apply String.eqb_eq in E.
    assert (x = d) as ->.
    { destruct Hin as [-> | Hin]; [reflexivity |].
      exfalso; apply Hx.
      rewrite E, <- Hid; apply in_map, Hin. }
    f_equal; f_equal.
    symmetry; rewrite <- (map_id l) at 2.
    apply map_ext_in; intros y Hy.
    destruct (String.eqb (id_of y) (id_of u)) eqn:E'; [| reflexivity].
    apply String.eqb_eq in E'.
    exfalso; apply Hx; rewrite Hid, <- E'; apply in_map, Hy.
  - destruct Hin as [-> | Hin]; [rewrite Hid, String.eqb_refl in E; discriminate |].
    rewrite (IH Hu' Hin Hid); reflexivity.
Qed.

Lemma count_unique id d l :
  unique l -> In d l -> id_of d = id -> count id l = 1%nat.
Proof.
  unfold unique, count.
  induction l as [| x l IH]; intros Hu Hin Hid; [contradiction |].
  simpl in *.
  inversion Hu as [| ? ? Hx Hu']; subst.
  destruct (String.eqb (id_of x) (id_of d)) eqn:E.
  - simpl; f_equal.
    apply String.eqb_eq in E.
    destruct (filter _ l) as [| y l'] eqn:F; [reflexivity |].
    assert (Hy : In y (filter (fun d0 => String.eqb (id_of d0) (id_of d)) l))
      by (rewrite F; left; reflexivity).
    apply filter_In in Hy as [Hy Hy'].
    apply String.eqb_eq in Hy'.
    exfalso; apply Hx; rewrite E, <- Hy'; apply in_map, Hy.
  - destruct Hin as [-> | Hin]; [rewrite String.eqb_refl in E; discriminate |].
    apply IH; auto.
Qed.

Lemma keep_keep {A} (new old : option A) :
  Asteroid.keep new (Asteroid.keep new old) = Asteroid.keep new old.
Proof. destruct new; reflexivity. Qed.

Lemma keep_same {A} (new : option A) : Asteroid.keep new new = new.
Proof. destruct new; reflexivity. Qed.

(** The update document depends on the instant only through its times, and
    the update of a stored document does not read its [createdAt]. *)
Lemma asteroidData_later neo score category t t' old :
  Asteroid.apply_update (fst (Asteroid.asteroidData neo score category t')) old
  = Asteroid.apply_update
      (refreshed t' (fst (Asteroid.asteroidData neo score category t))) old.
Proof. reflexivity. Qed.

Lemma asteroidData_date neo score category t t' :
  snd (Asteroid.asteroidData neo score category t')
  = snd (Asteroid.asteroidData neo score category t).
Proof. reflexivity. Qed.

Lemma asteroidData_id neo score category t t' :
  id_of (fst (Asteroid.asteroidData neo score category t'))
  = id_of (fst (Asteroid.asteroidData neo score category t)).
Proof. reflexivity. Qed.

Lemma update_again u old t' :
  Asteroid.apply_update (refreshed t' u) (Asteroid.apply_update u old)
  = refreshed t' (Asteroid.apply_update u old).
Proof.
  unfold Asteroid.apply_update, refreshed, with_times; simpl.
  rewrite !keep_keep; reflexivity.
Qed.

Lemma update_inserted u t' :
  Asteroid.apply_update (refreshed t' u) u = refreshed t' u.
Proof.
  unfold Asteroid.apply_update, refreshed, with_times; simpl.
  rewrite !keep_same; reflexivity.
Qed.

End UpsertFacts.

Section UpsertClaims.

Import Effect Hoare Upsert.
Local Open Scope Z_scope.

Local Abbreviation id_of := AsteroidDoc.neo_reference_id.

(** [upsertFromNASA] spelled out on a world. *)
Lemma upsert_unfold neo score category w :
  Asteroid.upsertFromNASA neo score category w =
  let u := fst (Asteroid.asteroidData neo score category (clock w)) in
  if fails (oracle w (ops w)) then (Throw StoreError, tick w)
  else
    match snd (Asteroid.asteroidData neo score category (clock w)) with
    | None => (Throw CastError, tick w)
    | Some _ =>
        if (0 <=? score) && (score <=? 100)
        then (Ok (snd (Asteroid.findOneAndUpdate u (asteroids w))),
              tick (set_asteroids (fst (Asteroid.findOneAndUpdate u (asteroids w))) w))
        else (Throw ValidationError, tick w)
    end.
Proof.
  unfold Asteroid.upsertFromNASA, bind, Date_now, await_store.
  destruct (Asteroid.asteroidData neo score category (clock w)) as [u date].
  cbn [fst snd].
  destruct (fails (oracle w (ops w))); [reflexivity |].
  destruct date as [d |]; [| reflexivity].
  destruct ((0 <=? score) && (score <=? 100)); [| reflexivity].
  destruct (Asteroid.findOneAndUpdate u (asteroids w)); reflexivity.
Qed.

(** What a call that succeeds has done. *)
Lemma upsert_ok neo score category w d :
  fst (Asteroid.upsertFromNASA neo score category w) = Ok d ->
  let u := fst (Asteroid.asteroidData neo score category (clock w)) in
  snd (Asteroid.asteroidData neo score category (clock w)) <> None
  /\ (0 <=? score) && (score <=? 100) = true
  /\ d = snd (Asteroid.findOneAndUpdate u (asteroids w))
  /\ asteroids (snd (Asteroid.upsertFromNASA neo score category w))
     = fst (Asteroid.findOneAndUpdate u (asteroids w)).
Proof.
  rewrite upsert_unfold; cbv zeta.
  destruct (fails (oracle w (ops w))); [discriminate |].
  destruct (snd (Asteroid.asteroidData neo score category (clock w))); [| discriminate].
  destruct ((0 <=? score) && (score <=? 100)); [| discriminate].
  simpl; intros H; injection H as <-.
  repeat split; discriminate.
Qed.

Lemma upsert_keeps_unique neo score category :
  preserves (fun w => unique (asteroids w)) (Asteroid.upsertFromNASA neo score category).
Proof.
  intros w H.
  rewrite upsert_unfold; cbv zeta.
  destruct (fails (oracle w (ops w))); [exact H |].
  destruct (snd (Asteroid.asteroidData neo score category (clock w))); [| exact H].
  destruct ((0 <=? score) && (score <=? 100)); [| exact H].
  apply findOneAndUpdate_unique, H.
Qed.

Lemma ingestion_keeps_unique io neoData :
  preserves (fun w => unique (asteroids w)) (Scheduler.processAndStoreAsteroids io neoData).
Proof.
  apply preserves_for_of; intros stats neo.
  unfold Scheduler.processOne.
  apply preserves_try_catch; [| intros; apply preserves_ret].
  apply preserves_bind; [apply upsert_keeps_unique |].
  intros asteroid.
  apply preserves_bind; [| intros; apply preserves_ret].
  destruct (_ && io); [| apply preserves_ret].
  apply preserves_broadcast; intros e w H; exact H.
Qed.

(** C7, as the code has it.  After a call that succeeded, a second call with
    the same raw record, score and category on the collection as the first
    left it succeeds when the store answers; it leaves exactly one record
    with the external id, the one the first call left but for [expiresAt],
    [lastFetchedAt] and the schema's [updatedAt], which are set from the
    clock of the second call, and it touches no other record.  [expiresAt]
    and [lastFetchedAt] advance as the clock has between the two calls.
    And however many batches are ingested, no two stored records share an
    external id. *)
Theorem upsert_twice :
  (forall neo score category w w2 d1,
     unique (asteroids w) ->
     fst (Asteroid.upsertFromNASA neo score category w) = Ok d1 ->
     asteroids w2 = asteroids (snd (Asteroid.upsertFromNASA neo score category w)) ->
     fails (oracle w2 (ops w2)) = false ->
     let d2 := refreshed (clock w2) d1 in
     let after := asteroids (snd (Asteroid.upsertFromNASA neo score category w2)) in
     fst (Asteroid.upsertFromNASA neo score category w2) = Ok d2
     /\ after = replaced (id_of d1) d2 (asteroids w2)
     /\ unique (asteroids w2) /\ count (id_of d1) (asteroids w2) = 1%nat
     /\ unique after /\ count (id_of d1) after = 1%nat
     /\ AsteroidDoc.expiresAt d1 = clock w + Js.DAY_MS
     /\ AsteroidDoc.lastFetchedAt d1 = clock w
     /\ AsteroidDoc.expiresAt d2 = clock w2 + Js.DAY_MS
     /\ AsteroidDoc.lastFetchedAt d2 = clock w2
     /\ (clock w < clock w2 ->
         AsteroidDoc.expiresAt d1 < AsteroidDoc.expiresAt d2
         /\ AsteroidDoc.lastFetchedAt d1 < AsteroidDoc.lastFetchedAt d2))
  /\ (forall io neoData w,
        unique (asteroids w) ->
        unique (asteroids (snd (Scheduler.processAndStoreAsteroids io neoData w)))).
Proof.
  split; [| intros io neoData w H; apply ingestion_keeps_unique, H].
  intros neo score category w w2 d1 Hu H1 Hw2 Hok d2 after.
  apply upsert_ok in H1 as (Hdate & Hrange & Hd1 & Hl1).
  set (u1 := fst (Asteroid.asteroidData neo score category (clock w))) in *.
  set (u2 := fst (Asteroid.asteroidData neo score category (clock w2))).
  destruct (findOneAndUpdate_result u1 (asteroids w)) as (Hin & Hid & Hshape).
  rewrite <- Hd1, <- Hl1, <- Hw2 in Hin.
  rewrite <- Hd1 in Hid, Hshape.
  assert (Hu2 : unique (asteroids w2)).
  { rewrite Hw2, Hl1; apply findOneAndUpdate_unique, Hu. }
  assert (Hid2 : id_of d1 = id_of u2) by (rewrite Hid; reflexivity).
  assert (Hd2 : Asteroid.apply_update u2 d1 = d2).
  { unfold u2, d2; rewrite (asteroidData_later _ _ _ (clock w)); fold u1.
    destruct Hshape as [-> | (old & ->)];
      [apply update_inserted | apply update_again]. }
  assert (Hcall : Asteroid.findOneAndUpdate u2 (asteroids w2)
                  = (replaced (id_of d1) d2 (asteroids w2), d2)).
  { rewrite (findOneAndUpdate_replaces u2 d1) by assumption.
    rewrite Hd2, Hid2; reflexivity. }
  assert (Hrun : Asteroid.upsertFromNASA neo score category w2
                 = (Ok d2, tick (set_asteroids (replaced (id_of d1) d2 (asteroids w2)) w2))).
  { rewrite upsert_unfold; cbv zeta.
    rewrite Hok, (asteroidData_date _ _ _ (clock w)).
    destruct (snd (Asteroid.asteroidData neo score category (clock w)));
      [| contradiction Hdate; reflexivity].
    fold u2; rewrite Hrange, Hcall; reflexivity. }
  assert (Hafter : after = replaced (id_of d1) d2 (asteroids w2))
    by (unfold after; rewrite Hrun; reflexivity).
  assert (Hin2 : In d2 after).
  { rewrite Hafter; unfold replaced.
    apply in_map_iff; exists d1; split; [| exact Hin].
    rewrite String.eqb_refl; reflexivity. }
  assert (Hu3 : unique after).
  { unfold after; rewrite upsert_unfold; cbv zeta.
    rewrite Hok, (asteroidData_date _ _ _ (clock w)).
    destruct (snd (Asteroid.asteroidData neo score category (clock w)));
      [| contradiction Hdate; reflexivity].
    rewrite Hrange; apply findOneAndUpdate_unique, Hu2. }
  assert (Ht1 : AsteroidDoc.expiresAt d1 = clock w + Js.DAY_MS
                /\ AsteroidDoc.lastFetchedAt d1 = clock w).
  { destruct Hshape as [-> | (old & ->)]; split; reflexivity. }
  destruct Ht1 as [He1 Hf1].
  split; [rewrite Hrun; reflexivity |].
  split; [exact Hafter |].
  split; [exact Hu2 |].
  split; [apply (count_unique _ d1); auto |].
  split; [exact Hu3 |].
  split; [apply (count_unique _ d2); auto |].
  split; [exact He1 |].
  split; [exact Hf1 |].
  split; [reflexivity |].
  split; [reflexivity |].
  intros Hlt; rewrite He1, Hf1; simpl; lia.
Qed.

End UpsertClaims.

Section UpsertExamples.

Import Effect Hoare Upsert.
Local Open Scope Z_scope.

(** The sample record upserted twice into an empty collection. *)
Lemma upsert_twice_witness :
  let w := Samples.world [] [] [] 0 in
  let w1 := snd (Asteroid.upsertFromNASA Samples.feed_record 30 RiskEngine.low w) in
  let d1 := fst (Asteroid.asteroidData Samples.feed_record 30 RiskEngine.low 0) in
  fst (Asteroid.upsertFromNASA Samples.feed_record 30 RiskEngine.low w1)
  = Ok (refreshed 1 d1)
  /\ count "3542519"
       (asteroids (snd (Asteroid.upsertFromNASA Samples.feed_record 30 RiskEngine.low w1)))
     = 1%nat
  /\ AsteroidDoc.expiresAt d1 < AsteroidDoc.expiresAt (refreshed 1 d1).
Proof.
  intros w w1 d1.
  assert (Hu : unique (asteroids w)) by constructor.
  assert (H1 : fst (Asteroid.upsertFromNASA Samples.feed_record 30 RiskEngine.low w)
               = Ok d1) by reflexivity.
  assert (Hl : asteroids w1
               = asteroids (snd (Asteroid.upsertFromNASA Samples.feed_record 30
                                   RiskEngine.low w))) by reflexivity.
  assert (Hok : fails (oracle w1 (ops w1)) = false) by reflexivity.
  destruct upsert_twice as [Htwice _].
  destruct (Htwice Samples.feed_record 30 RiskEngine.low w w1 d1 Hu H1 Hl Hok)
    as (Hres & _ & _ & _ & _ & Hcount & _ & _ & _ & _ & Hadv).
  split; [exact Hres |].
  split; [exact Hcount |].
  apply Hadv; simpl; lia.
Defined.

(** C7 as stated fails: the second call also moves [updatedAt]. *)
Lemma second_upsert_moves_updatedAt :
  exists d1 d2,
    fst (Asteroid.upsertFromNASA Samples.feed_record 30 RiskEngine.low
           (Samples.world [] [] [] 0)) = Ok d1
    /\ fst (Asteroid.upsertFromNASA Samples.feed_record 30 RiskEngine.low
              (snd (Asteroid.upsertFromNASA Samples.feed_record 30 RiskEngine.low
                      (Samples.world [] [] [] 0)))) = Ok d2
    /\ ~ same_but_ttl d1 d2.
Proof.
  eexists; eexists.
  split; [reflexivity |].
  split; [reflexivity |].
  intros H.
  apply (f_equal AsteroidDoc.updatedAt) in H.
  discriminate H.
Qed.

End UpsertExamples.

(** ** The feed client *)

Section FeedClaims.

Import Effect Hoare Batch NasaService.
Local Open Scope Z_scope.

Lemma fetchNeoFeed_failed startDate endDate w :
  failed (nasa w (formatDate startDate) (formatDate endDate)) ->
  fetchNeoFeed startDate (Some endDate) w
  = (Ok {| success := false;
           error := Some (failure_of (nasa w (formatDate startDate) (formatDate endDate)));
           element_count := None;
           near_earth_objects := Some [] |}, w).
Proof.
  unfold fetchNeoFeed, try_catch, bind, request, ret.
  destruct (nasa w (formatDate startDate) (formatDate endDate));
    simpl; intros H; [reflexivity | reflexivity | reflexivity | contradiction].
Qed.

Lemma fetchNeoFeed_total startDate endDate w :
  exists result, fetchNeoFeed startDate endDate w = (Ok result, w).
Proof.
  unfold fetchNeoFeed, try_catch, bind, request, ret.
  destruct (nasa w _ _); eexists; reflexivity.
Qed.

Lemma fetchTodayNeos_failed w :
  failed (nasa w (formatDate (clock w)) (formatDate (clock w))) ->
  fetchTodayNeos w = (Ok [], w).
Proof.
  intros H.
  unfold fetchTodayNeos, bind, Date_now.
  rewrite fetchNeoFeed_failed by exact H.
  reflexivity.
Qed.

Lemma fetchWeekNeos_failed w :
  failed (nasa w (formatDate (clock w)) (formatDate (clock w + 6 * Js.DAY_MS))) ->
  fetchWeekNeos w = (Ok [], w).
Proof.
  intros H.
  unfold fetchWeekNeos, bind, Date_now.
  rewrite fetchNeoFeed_failed by exact H.
  reflexivity.
Qed.

Lemma fetchTodayNeos_nothing w data m :
  nasa w (formatDate (clock w)) (formatDate (clock w)) = Feed.Body data ->
  Feed.near_earth_objects data = Some m ->
  lookup (formatDate (clock w)) m = [] ->
  fetchTodayNeos w = (Ok [], w).
Proof.
  intros Hb Hm Hl.
  unfold fetchTodayNeos, fetchNeoFeed, try_catch, bind, Date_now, request, ret.
  rewrite Hb; simpl; rewrite Hm, Hl; reflexivity.
Qed.

Lemma runDailyFetch_failed io w :
  failed (nasa w (formatDate (clock w)) (formatDate (clock w))) ->
  Scheduler.runDailyFetch io w = (Ok tt, w).
Proof.
  intros H.
  unfold Scheduler.runDailyFetch, try_catch, bind.
  rewrite fetchTodayNeos_failed by exact H.
  reflexivity.
Qed.

Lemma runWeeklyFetch_failed io w :
  failed (nasa w (formatDate (clock w)) (formatDate (clock w + 6 * Js.DAY_MS))) ->
  Scheduler.runWeeklyFetch io w = (Ok tt, w).
Proof.
  intros H.
  unfold Scheduler.runWeeklyFetch, try_catch, bind.
  rewrite fetchWeekNeos_failed by exact H.
  reflexivity.
Qed.

Lemma pipeline_never_throws type io w :
  fst (Scheduler.triggerManualFetch type io w) = Ok tt.
Proof.
  destruct type; simpl;
    unfold Scheduler.runDailyFetch, Scheduler.runWeeklyFetch, try_catch;
    match goal with |- context [bind ?m ?k w] => destruct (bind m k w) as [[[] | e] w'] end;
    reflexivity.
Qed.

(** C8.  A request to the feed that fails, whether the connection, the
    status or the body is at fault, is caught in [fetchNeoFeed], which
    resolves to a result with no object; [fetchTodayNeos] and
    [fetchWeekNeos] then resolve to the empty list, as they do when the feed
    has nothing for the day, and the daily and weekly runs end at once,
    leaving the world as it was.  No run ever ends in an exception. *)
Theorem feed_failure_is_an_empty_feed :
  (forall startDate endDate w,
     exists result, fetchNeoFeed startDate endDate w = (Ok result, w))
  /\ (forall startDate endDate w,
        failed (nasa w (formatDate startDate) (formatDate endDate)) ->
        exists error,
          fetchNeoFeed startDate (Some endDate) w
          = (Ok {| success := false; error := Some error; element_count := None;
                   near_earth_objects := Some [] |}, w))
  /\ (forall w,
        failed (nasa w (formatDate (clock w)) (formatDate (clock w))) ->
        fetchTodayNeos w = (Ok [], w)
        /\ fst (fetchTodayNeos w) = fst (fetchTodayNeos (with_feed nothing_available w))
        /\ forall io, Scheduler.runDailyFetch io w = (Ok tt, w))
  /\ (forall w,
        failed (nasa w (formatDate (clock w)) (formatDate (clock w + 6 * Js.DAY_MS))) ->
        fetchWeekNeos w = (Ok [], w)
        /\ forall io, Scheduler.runWeeklyFetch io w = (Ok tt, w))
  /\ (forall type io w, fst (Scheduler.triggerManualFetch type io w) = Ok tt).
Proof.
  split; [exact fetchNeoFeed_total |].
  split; [intros; eexists; apply fetchNeoFeed_failed; assumption |].
  split; [| split; [| exact pipeline_never_throws]].
  - intros w H.
    split; [apply fetchTodayNeos_failed, H |].
    split; [| intros; apply runDailyFetch_failed, H].
    rewrite fetchTodayNeos_failed by exact H.
    reflexivity.
  - intros w H.
    split; [apply fetchWeekNeos_failed, H |].
    intros; apply runWeeklyFetch_failed, H.
Qed.

(** With the feed answering 503, the day's fetch gives no record and the
    weekly run ends at once. *)
Lemma feed_failure_is_an_empty_feed_witness :
  fetchTodayNeos (Samples.world [] [] [] 0) = (Ok [], Samples.world [] [] [] 0)
  /\ Scheduler.runWeeklyFetch true (Samples.world [] [] [] 0)
     = (Ok tt, Samples.world [] [] [] 0).
Proof.
  destruct feed_failure_is_an_empty_feed as (_ & _ & Hday & Hweek & _).
  split.
  - apply Hday; exact I.
  - apply Hweek; exact I.
Defined.

End FeedClaims.

(** ** The batch *)

Section BatchFacts.

Import Effect Hoare Batch Scheduler.

Local Abbreviation ids w := (map AsteroidDoc.neo_reference_id (asteroids w)).

Local Arguments Asteroid.asteroidData : simpl never.

Lemma findOneAndUpdate_keeps_ids u l :
  incl (map AsteroidDoc.neo_reference_id l)
       (map AsteroidDoc.neo_reference_id (fst (Asteroid.findOneAndUpdate u l))).
Proof.
  rewrite findOneAndUpdate_ids.
  destruct (existsb _ l); [apply incl_refl | apply incl_appl, incl_refl].
Qed.

Lemma findOneAndUpdate_has_id u l :
  In (AsteroidDoc.neo_reference_id u)
     (map AsteroidDoc.neo_reference_id (fst (Asteroid.findOneAndUpdate u l))).
Proof.
  destruct (findOneAndUpdate_result u l) as (Hin & Hid & _).
  rewrite <- Hid; apply in_map, Hin.
Qed.

(** One turn of the loop: it ends without an exception, after exactly one
    store call, and either counts an error and leaves the collection alone,
    or counts the record as processed and has it stored. *)
Lemma processOne_spec io s neo w :
  exists s' w',
    processOne io s neo w = (Ok s', w')
    /\ ops w' = S (ops w)
    /\ oracle w' = oracle w
    /\ Stats.total s' = Stats.total s
    /\ incl (ids w) (ids w')
    /\ if raises (oracle w) (ops w) neo
       then Stats.errors s' = S (Stats.errors s)
            /\ Stats.processed s' = Stats.processed s
       else Stats.errors s' = Stats.errors s
            /\ Stats.processed s' = S (Stats.processed s)
            /\ In (id_of neo) (ids w').
Proof.
  unfold processOne, try_catch, bind, raises.
  rewrite upsert_unfold; cbv zeta.
  set (risk := RiskEngine.calculateRiskScore (RiskEngine.of_feed neo)).
  pose proof (score_range (RiskEngine.of_feed neo)) as Hr; fold risk in Hr.
  change (snd (Asteroid.asteroidData neo (RiskEngine.score risk)
                 (RiskEngine.category risk) (clock w)))
    with (snd (Asteroid.asteroidData neo 0 RiskEngine.minimal 0)).
  destruct (fails (oracle w (ops w))); cbn [orb].
  { do 2 eexists; repeat split; apply incl_refl. }
  destruct (snd (Asteroid.asteroidData neo 0 RiskEngine.minimal 0)) as [date |].
  2: { do 2 eexists; repeat split; apply incl_refl. }
  replace ((0 <=? RiskEngine.score risk)%Z && (RiskEngine.score risk <=? 100)%Z)
    with true by (symmetry; apply andb_true_iff; split; apply Z.leb_le; lia).
  set (u := fst (Asteroid.asteroidData neo _ _ _)).
  assert (Hid : AsteroidDoc.neo_reference_id u = id_of neo) by reflexivity.
  unfold AlertDispatcher.broadcastNewHazardousAsteroid.
  destruct (match RiskEngine.category risk with RiskEngine.high => true | _ => false end);
    destruct io; simpl;
    do 2 eexists;
    (split; [reflexivity |]);
    repeat (split; [reflexivity |]);
    (split; [apply findOneAndUpdate_keeps_ids |]);
    repeat (split; [reflexivity |]);
    rewrite <- Hid; apply findOneAndUpdate_has_id.
Qed.

Lemma batch_spec io l :
  forall s w,
  exists s' w',
    for_of l (processOne io) s w = (Ok s', w')
    /\ ops w' = ops w + List.length l
    /\ oracle w' = oracle w
    /\ Stats.total s' = Stats.total s
    /\ Stats.errors s' = Stats.errors s + failures (oracle w) (ops w) l
    /\ Stats.processed s' + Stats.errors s'
       = Stats.processed s + Stats.errors s + List.length l
    /\ incl (ids w) (ids w')
    /\ forall i neo, nth_error l i = Some neo ->
         raises (oracle w) (ops w + i) neo = false ->
         In (id_of neo) (ids w').
Proof.
  induction l as [| neo rest IH]; intros s w.
  - exists s, w; simpl.
    repeat split; try lia; [apply incl_refl |].
    intros [| i] neo H; discriminate H.
  - destruct (processOne_spec io s neo w)
      as (s1 & w1 & Hrun & Hops & Horacle & Htotal & Hids & Hcase).
    destruct (IH s1 w1)
      as (s' & w' & Hrun' & Hops' & Horacle' & Htotal' & Herr' & Hsum' & Hids' & Hdocs').
    exists s', w'.
    simpl for_of; unfold bind; rewrite Hrun, Hrun'.
    rewrite Horacle, Hops in *.
    split; [reflexivity |].
    split; [simpl; lia |].
    split; [congruence |].
    split; [congruence |].
    simpl failures.
    destruct (raises (oracle w) (ops w) neo) eqn:E.
    + destruct Hcase as (He & Hp).
      split; [lia |].
      split; [simpl; lia |].
      split; [eapply incl_tran; eassumption |].
      intros [| i] neo' Hnth Hr; simpl in Hnth.
      * injection Hnth as <-; rewrite Nat.add_0_r in Hr; congruence.
      * apply (Hdocs' i); [exact Hnth |].
        rewrite <- Hr; f_equal; lia.
    + destruct Hcase as (He & Hp & Hin).
      split; [lia |].
      split; [simpl; lia |].
      split; [eapply incl_tran; eassumption |].
      intros [| i] neo' Hnth Hr; simpl in Hnth.
      * injection Hnth as <-; apply Hids', Hin.
      * apply (Hdocs' i); [exact Hnth |].
        rewrite <- Hr; f_equal; lia.
Qed.

(** C9.  Whatever the records and whatever the store does, the batch ends
    with its stats and no exception.  Each record makes its store call; the
    records that raise, because the store does or because the record does
    not validate, are counted in [errors] and the others in [processed];
    and every record that does not raise is stored, wherever in the batch
    the failures fall. *)
Theorem batch_survives_failures :
  forall io neoData w,
    let result := processAndStoreAsteroids io neoData w in
    exists stats,
      fst result = Ok stats
      /\ Stats.total stats = List.length neoData
      /\ Stats.errors stats = failures (oracle w) (ops w) neoData
      /\ Stats.processed stats + Stats.errors stats = List.length neoData
      /\ ops (snd result) = ops w + List.length neoData
      /\ forall i neo, nth_error neoData i = Some neo ->
           raises (oracle w) (ops w + i) neo = false ->
           exists d, In d (asteroids (snd result))
                     /\ AsteroidDoc.neo_reference_id d = id_of neo.
Proof.
  intros io neoData w result.
  unfold result, processAndStoreAsteroids.
  destruct (batch_spec io neoData
              {| Stats.total := List.length neoData; Stats.processed := 0;
                 Stats.hazardous := 0; Stats.highRisk := 0; Stats.errors := 0 |} w)
    as (s' & w' & Hrun & Hops & _ & Htotal & Herr & Hsum & _ & Hdocs).
  rewrite Hrun; simpl fst; simpl snd.
  exists s'.
  split; [reflexivity |].
  split; [exact Htotal |].
  split; [exact Herr |].
  split; [exact Hsum |].
  split; [exact Hops |].
  intros i neo Hnth Hr.
  specialize (Hdocs i neo Hnth Hr).
  apply in_map_iff in Hdocs as (d & Hid & Hin).
  exists d; split; assumption.
Qed.

End BatchFacts.

Section BatchExample.

Import Effect Batch Scheduler.

(** A batch whose second record has no close approach, hence no date. *)
Lemma batch_survives_failures_witness :
  let batch := [Samples.neo "2000433" [Samples.approach 3600000];
                Samples.neo "3542519" [];
                Samples.neo "54016476" [Samples.approach 7200000]] in
  let result := processAndStoreAsteroids true batch (Samples.world [] [] [] 0) in
  (exists stats,
     fst result = Ok stats
     /\ Stats.total stats = 3
     /\ Stats.processed stats = 2
     /\ Stats.errors stats = 1)
  /\ (exists d, In d (asteroids (snd result))
                /\ AsteroidDoc.neo_reference_id d = "54016476"%string).
Proof.
  intros batch result.
  destruct (batch_survives_failures true batch (Samples.world [] [] [] 0))
    as (stats & Hres & Htotal & Herr & Hsum & _ & Hdocs).
  fold result in Hres, Hdocs.
  split.
  - exists stats.
    change (failures _ _ batch) with 1 in Herr.
    change (List.length batch) with 3 in Htotal, Hsum.
    repeat split; [exact Hres | exact Htotal | lia | exact Herr].
  - apply (Hdocs 2 (Samples.neo "54016476" [Samples.approach 7200000]));
      reflexivity.
Defined.

End BatchExample.

(** * Further properties of the code *)

(** ** The sub-scores and the score *)

Section SubScores.

Import RiskEngine RiskShapes.
Local Open Scope R_scope.

Lemma Math_round_bound x : IZR (Js.Math_round x) - / 2 <= x < IZR (Js.Math_round x) + / 2.
Proof.
  unfold Js.Math_round.
  pose proof (Zfloor_bound (x + / 2)); lra.
Qed.

Lemma Math_round_mono x y : x <= y -> (Js.Math_round x <= Js.Math_round y)%Z.
Proof. intros H; unfold Js.Math_round; apply Zfloor_le; lra. Qed.

Lemma Math_round_int (z : Z) : Js.Math_round (IZR z) = z.
Proof. apply Math_round_eq; lra. Qed.

Lemma clamp_bounds x : 0 <= Rmin 100 (Rmax 0 x) <= 100.
Proof.
  split.
  - apply Rmin_glb; [lra | apply Rmax_l].
  - apply Rmin_l.
Qed.

Lemma diameter_bounds x : 0 <= calculateDiameterScore x <= 100.
Proof.
  unfold calculateDiameterScore.
  destruct (Js.falsy x || Js.le x (Some 0)); [lra | apply clamp_bounds].
Qed.

Lemma distance_bounds x : 0 <= calculateDistanceScore x <= 100.
Proof.
  unfold calculateDistanceScore.
  destruct (Js.falsy x || Js.le x (Some 0)); [lra |].
  destruct (Js.le x (Some MIN_SAFE_DISTANCE)); [lra |].
  destruct (Js.ge x (Some MAX_CONCERNING_DISTANCE)); [lra | apply clamp_bounds].
Qed.

Lemma velocity_bounds x : 0 <= calculateVelocityScore x <= 100.
Proof.
  unfold calculateVelocityScore.
  destruct (Js.falsy x || Js.le x (Some 0)); [lra | apply clamp_bounds].
Qed.

Lemma velocity_missing : calculateVelocityScore None = 0.
Proof. reflexivity. Qed.

Lemma velocity_nonpositive v : v <= 0 -> calculateVelocityScore (Some v) = 0.
Proof.
  intros H; unfold calculateVelocityScore; simpl.
  rewrite (proj2 (Rleb_true v 0)) by lra.
  rewrite orb_true_r; reflexivity.
Qed.

Lemma velocity_positive v :
  0 < v -> calculateVelocityScore (Some v) = Rmin 100 (Rmax 0 (v / 30 * 100)).
Proof.
  intros H; unfold calculateVelocityScore, MAX_VELOCITY; simpl.
  js_cases; reflexivity.
Qed.

Lemma velocity_linear v : 0 < v <= 30 -> calculateVelocityScore (Some v) = v / 30 * 100.
Proof. intros H; rewrite velocity_positive by lra; apply clamp_id; lra. Qed.

Lemma velocity_fast v : 30 <= v -> calculateVelocityScore (Some v) = 100.
Proof.
  intros H; rewrite velocity_positive by lra.
  rewrite (Rmax_right 0) by lra.
  apply Rmin_left; lra.
Qed.

Lemma velocity_monotone v1 v2 :
  v1 <= v2 -> calculateVelocityScore (Some v1) <= calculateVelocityScore (Some v2).
Proof.
  intros H.
  destruct (Rle_dec v1 0) as [H1 | H1].
  - rewrite (velocity_nonpositive v1) by exact H1; apply velocity_bounds.
  - rewrite !velocity_positive by lra.
    apply clamp_le; lra.
Qed.

(** X1.  The velocity sub-score is 0 for a missing or non-positive velocity,
    [v / 30 * 100] up to 30 km/s and 100 from there on, and it never
    decreases as the velocity grows, over all the reals. *)
Theorem velocity_score_cases :
  calculateVelocityScore None = 0
  /\ (forall v, v <= 0 -> calculateVelocityScore (Some v) = 0)
  /\ (forall v, 0 < v <= 30 -> calculateVelocityScore (Some v) = v / 30 * 100)
  /\ (forall v, 30 <= v -> calculateVelocityScore (Some v) = 100)
  /\ (forall v1 v2, v1 <= v2 ->
        calculateVelocityScore (Some v1) <= calculateVelocityScore (Some v2)).
Proof.
  split; [exact velocity_missing |].
  split; [exact velocity_nonpositive |].
  split; [exact velocity_linear |].
  split; [exact velocity_fast | exact velocity_monotone].
Qed.

(** At 15 km/s the sub-score is 50, at 45 km/s it is 100. *)
Lemma velocity_score_cases_witness :
  calculateVelocityScore (Some 15) = 15 / 30 * 100
  /\ calculateVelocityScore (Some 45) = 100
  /\ calculateVelocityScore (Some 15) <= calculateVelocityScore (Some 45).
Proof.
  destruct velocity_score_cases as (_ & _ & Hlin & Hfast & Hmono).
  split; [apply Hlin; lra |].
  split; [apply Hfast; lra | apply Hmono; lra].
Defined.

(** X2.  Each of the three sub-scores lies between 0 and 100, whatever the
    input, missing or not. *)
Theorem sub_scores_within_0_100 :
  forall x,
    0 <= calculateDiameterScore x <= 100
    /\ 0 <= calculateDistanceScore x <= 100
    /\ 0 <= calculateVelocityScore x <= 100.
Proof.
  intros x.
  split; [apply diameter_bounds |].
  split; [apply distance_bounds | apply velocity_bounds].
Qed.

End SubScores.

Section ScoreOrder.

Import RiskEngine RiskShapes.
Local Open Scope R_scope.

Lemma diameter_monotone_all d1 d2 :
  d1 <= d2 -> calculateDiameterScore (Some d1) <= calculateDiameterScore (Some d2).
Proof.
  intros H.
  destruct (Rle_dec d1 0) as [H1 | H1].
  - rewrite (diameter_nonpositive d1) by exact H1; apply diameter_bounds.
  - apply diameter_monotone; lra.
Qed.

Lemma distance_antitone l1 l2 :
  l1 <= l2 -> calculateDistanceScore (Some l2) <= calculateDistanceScore (Some l1).
Proof.
  intros H.
  destruct (Rle_dec l1 1) as [H1 | H1].
  - replace (calculateDistanceScore (Some l1)) with 100; [apply distance_bounds |].
    destruct (Rle_dec l1 0); [rewrite distance_nonpositive | rewrite distance_close];
      lra.
  - destruct (Rle_dec 50 l2) as [H2 | H2].
    + rewrite (distance_far l2) by exact H2; apply distance_bounds.
    + rewrite !distance_linear by lra; lra.
Qed.

Lemma stored_score h d l v :
  score (calculateRiskScore (stored_object h d l v))
  = Z.min 100 (Z.max 1 (Js.Math_round
      (weighted (if h then 100 else 0) (calculateDiameterScore (Some d))
         (calculateDistanceScore (Some l)) (calculateVelocityScore (Some v))))).
Proof.
  unfold calculateRiskScore, stored_object, hazard_flag, meters_of; simpl.
  destruct (Js.Reqb d 0), (Js.Reqb l 0), (Js.Reqb v 0); reflexivity.
Qed.

(** The clamp and the rounding keep the order of the weighted sums. *)
Lemma final_score_mono x y :
  x <= y ->
  (Z.min 100 (Z.max 1 (Js.Math_round x)) <= Z.min 100 (Z.max 1 (Js.Math_round y)))%Z.
Proof. intros H; apply Math_round_mono in H; lia. Qed.

Lemma category_monotone s1 s2 :
  (s1 <= s2)%Z -> (rank (getRiskCategory s1) <= rank (getRiskCategory s2))%nat.
Proof.
  intros H; unfold getRiskCategory.
  destruct (76 <=? s1)%Z eqn:A1, (76 <=? s2)%Z eqn:A2,
           (51 <=? s1)%Z eqn:B1, (51 <=? s2)%Z eqn:B2,
           (26 <=? s1)%Z eqn:C1, (26 <=? s2)%Z eqn:C2;
    simpl; try lia;
    rewrite ?Z.leb_le, ?Z.leb_gt in *; lia.
Qed.

(** X3.  Between two stored-shape objects that differ in one input only, the
    larger, the faster, the closer and the hazardous one never scores lower,
    over all the reals; and a score that is not lower never gives a lower
    category. *)
Theorem score_follows_the_inputs :
  (forall h d1 d2 l v, d1 <= d2 ->
     (score (calculateRiskScore (stored_object h d1 l v))
      <= score (calculateRiskScore (stored_object h d2 l v)))%Z)
  /\ (forall h d l v1 v2, v1 <= v2 ->
        (score (calculateRiskScore (stored_object h d l v1))
         <= score (calculateRiskScore (stored_object h d l v2)))%Z)
  /\ (forall h d l1 l2 v, l1 <= l2 ->
        (score (calculateRiskScore (stored_object h d l2 v))
         <= score (calculateRiskScore (stored_object h d l1 v)))%Z)
  /\ (forall d l v,
        (score (calculateRiskScore (stored_object false d l v))
         <= score (calculateRiskScore (stored_object true d l v)))%Z)
  /\ (forall s1 s2, (s1 <= s2)%Z ->
        (rank (getRiskCategory s1) <= rank (getRiskCategory s2))%nat).
Proof.
  split; [| split; [| split; [| split; [| exact category_monotone]]]].
  - intros h d1 d2 l v H; rewrite !stored_score.
    apply final_score_mono; unfold weighted.
    pose proof (diameter_monotone_all d1 d2 H); lra.
  - intros h d l v1 v2 H; rewrite !stored_score.
    apply final_score_mono; unfold weighted.
    pose proof (velocity_monotone v1 v2 H); lra.
  - intros h d l1 l2 v H; rewrite !stored_score.
    apply final_score_mono; unfold weighted.
    pose proof (distance_antitone l1 l2 H); lra.
  - intros d l v; rewrite !stored_score.
    apply final_score_mono; unfold weighted; lra.
Qed.

(** A 300 m object scores at least what a 40 m one does, and one at 3 lunar
    distances at least what one at 20 does. *)
Lemma score_follows_the_inputs_witness :
  (score (calculateRiskScore (stored_object true 40 3 12))
   <= score (calculateRiskScore (stored_object true 300 3 12)))%Z
  /\ (score (calculateRiskScore (stored_object true 300 20 12))
      <= score (calculateRiskScore (stored_object true 300 3 12)))%Z.
Proof.
  destruct score_follows_the_inputs as (Hd & _ & Hl & _).
  split; [apply Hd; lra | apply Hl; lra].
Defined.

Lemma weighted_bounds a :
  let r := calculateRiskScore a in
  (if isHazardous (factors r) then 40 else 0)
  <= weighted (if hazard_flag a then 100 else 0)
       (calculateDiameterScore (Some (diameterMeters (factors r))))
       (calculateDistanceScore (Some (lunarDistance (factors r))))
       (calculateVelocityScore (Some (velocityKmS (factors r))))
  <= (if isHazardous (factors r) then 100 else 60).
Proof.
  intros r; unfold weighted.
  pose proof (diameter_bounds (Some (diameterMeters (factors r)))).
  pose proof (distance_bounds (Some (lunarDistance (factors r)))).
  pose proof (velocity_bounds (Some (velocityKmS (factors r)))).
  change (isHazardous (factors r)) with (hazard_flag a).
  destruct (hazard_flag a); lra.
Qed.

Lemma score_unfold a :
  let r := calculateRiskScore a in
  score r
  = Z.min 100 (Z.max 1 (Js.Math_round
      (weighted (if hazard_flag a then 100 else 0)
         (calculateDiameterScore (Some (diameterMeters (factors r))))
         (calculateDistanceScore (Some (lunarDistance (factors r))))
         (calculateVelocityScore (Some (velocityKmS (factors r))))))).
Proof.
  intros r; unfold r, calculateRiskScore; simpl.
  rewrite diameter_or0, distance_or0, velocity_or0; reflexivity.
Qed.

Lemma hazardous_score a :
  isHazardous (factors (calculateRiskScore a)) = true ->
  (40 <= score (calculateRiskScore a))%Z.
Proof.
  intros H.
  pose proof (weighted_bounds a) as Hw; cbv zeta in Hw; rewrite H in Hw.
  rewrite score_unfold.
  destruct Hw as [Hw _]; apply Math_round_mono in Hw.
  rewrite (Math_round_int 40) in Hw; lia.
Qed.

Lemma harmless_score a :
  isHazardous (factors (calculateRiskScore a)) = false ->
  (score (calculateRiskScore a) <= 60)%Z.
Proof.
  intros H.
  pose proof (weighted_bounds a) as Hw; cbv zeta in Hw; rewrite H in Hw.
  rewrite score_unfold.
  destruct Hw as [_ Hw]; apply Math_round_mono in Hw.
  rewrite (Math_round_int 60) in Hw; lia.
Qed.

(** X4.  An object flagged hazardous scores 40 or more and is never in the
    category minimal; an object not flagged scores 60 or less and is never
    in the category high. *)
Theorem hazard_flag_bounds_the_score :
  forall a,
    (isHazardous (factors (calculateRiskScore a)) = true ->
       (40 <= score (calculateRiskScore a))%Z
       /\ category (calculateRiskScore a) <> minimal)
    /\ (isHazardous (factors (calculateRiskScore a)) = false ->
          (score (calculateRiskScore a) <= 60)%Z
          /\ category (calculateRiskScore a) <> high).
Proof.
  intros a; split; intros H.
  - pose proof (hazardous_score a H) as Hs.
    split; [exact Hs |].
    change (category (calculateRiskScore a))
      with (getRiskCategory (score (calculateRiskScore a))).
    unfold getRiskCategory.
    destruct (76 <=? _)%Z; [discriminate |].
    destruct (51 <=? _)%Z; [discriminate |].
    destruct (26 <=? _)%Z eqn:E; [discriminate |].
    apply Z.leb_gt in E; lia.
  - pose proof (harmless_score a H) as Hs.
    split; [exact Hs |].
    change (category (calculateRiskScore a))
      with (getRiskCategory (score (calculateRiskScore a))).
    unfold getRiskCategory.
    destruct (76 <=? _)%Z eqn:E; [apply Z.leb_le in E; lia |].
    repeat match goal with
      | |- context [(?x <=? ?y)%Z] => destruct (x <=? y)%Z
      end; discriminate.
Qed.

(** A hazardous object of which nothing else is known, and the object of
    which nothing is known. *)
Lemma hazard_flag_bounds_the_score_witness :
  (40 <= score (calculateRiskScore
                  (stored_object true 0 60 0)))%Z
  /\ category (calculateRiskScore RiskCases.unknown_object) <> high.
Proof.
  split.
  - apply (hazard_flag_bounds_the_score (stored_object true 0 60 0)); reflexivity.
  - apply (hazard_flag_bounds_the_score RiskCases.unknown_object); reflexivity.
Defined.

End ScoreOrder.

Section BreakdownFacts.

Import RiskEngine RiskShapes.
Local Open Scope R_scope.

(** Rounding four parts one by one, the first being whole, misses the
    rounded sum by one at most. *)
Lemma rounded_parts (k : Z) x2 x3 x4 :
  0 <= x2 -> 0 <= x3 -> 0 <= x4 -> (0 <= k)%Z -> IZR k + x2 + x3 + x4 <= 100 ->
  let parts := (Js.Math_round (IZR k) + Js.Math_round x2 + Js.Math_round x3
                + Js.Math_round x4)%Z in
  let total := Js.Math_round (IZR k + x2 + x3 + x4) in
  (-1 <= parts - Z.min 100 (Z.max 1 total) <= 1)%Z.
Proof.
  intros H2 H3 H4 Hk Hsum parts total.
  unfold parts, total; rewrite Math_round_int.
  pose proof (Math_round_bound x2) as B2.
  pose proof (Math_round_bound x3) as B3.
  pose proof (Math_round_bound x4) as B4.
  pose proof (Math_round_bound (IZR k + x2 + x3 + x4)) as BT.
  set (r2 := Js.Math_round x2) in *.
  set (r3 := Js.Math_round x3) in *.
  set (r4 := Js.Math_round x4) in *.
  set (t := Js.Math_round (IZR k + x2 + x3 + x4)) in *.
  assert (P2 : (0 <= r2)%Z) by (apply le_IZR, Rnot_lt_le; intros C;
    assert (IZR r2 <= -1) by (apply IZR_le; apply lt_IZR in C; lia); lra).
  assert (P3 : (0 <= r3)%Z) by (apply le_IZR, Rnot_lt_le; intros C;
    assert (IZR r3 <= -1) by (apply IZR_le; apply lt_IZR in C; lia); lra).
  assert (P4 : (0 <= r4)%Z) by (apply le_IZR, Rnot_lt_le; intros C;
    assert (IZR r4 <= -1) by (apply IZR_le; apply lt_IZR in C; lia); lra).
  assert (Ht0 : (0 <= t)%Z) by (apply le_IZR, Rnot_lt_le; intros C;
    assert (IZR t <= -1) by (apply IZR_le; apply lt_IZR in C; lia);
    assert (0 <= IZR k) by (apply IZR_le; exact Hk); lra).
  assert (Ht100 : (t <= 100)%Z).
  { apply Z.lt_succ_r, lt_IZR; simpl; lra. }
  assert (Hup : (k + r2 + r3 + r4 - t < 2)%Z).
  { apply lt_IZR; rewrite minus_IZR, !plus_IZR; lra. }
  assert (Hlo : (-2 < k + r2 + r3 + r4 - t)%Z).
  { apply lt_IZR; rewrite minus_IZR, !plus_IZR; lra. }
  lia.
Qed.

(** X5.  The four parts of the breakdown, each rounded on its own, add up to
    the score or miss it by one. *)
Theorem breakdown_adds_up_within_1 :
  forall a,
    (-1 <= breakdown_sum (breakdown (calculateRiskScore a))
           - score (calculateRiskScore a) <= 1)%Z.
Proof.
  intros a.
  unfold calculateRiskScore, breakdown_sum, weighted; simpl.
  match goal with
  | |- context [Js.Math_round (calculateDiameterScore ?d * 0.25)] =>
      pose proof (diameter_bounds d); set (x := calculateDiameterScore d) in *
  end.
  match goal with
  | |- context [Js.Math_round (calculateDistanceScore ?d * 0.25)] =>
      pose proof (distance_bounds d); set (y := calculateDistanceScore d) in *
  end.
  match goal with
  | |- context [Js.Math_round (calculateVelocityScore ?d * 0.10)] =>
      pose proof (velocity_bounds d); set (z := calculateVelocityScore d) in *
  end.
  destruct (hazard_flag a).
  - replace (100 * 0.40) with (IZR 40) by lra.
    apply (rounded_parts 40 (x * 0.25) (y * 0.25) (z * 0.10)); lra || lia.
  - replace (0 * 0.40) with (IZR 0) by lra.
    apply (rounded_parts 0 (x * 0.25) (y * 0.25) (z * 0.10)); lra || lia.
Qed.

End BreakdownFacts.

(** ** The two shapes of the input of the score *)

Section TwoShapes.

Import Effect RiskEngine RiskShapes Ingest.
Local Open Scope Z_scope.

Local Arguments Asteroid.asteroidData : simpl never.

Lemma findOneAndUpdate_inserts u l :
  (forall x, In x l -> AsteroidDoc.neo_reference_id x <> AsteroidDoc.neo_reference_id u) ->
  Asteroid.findOneAndUpdate u l = (l ++ [u], u).
Proof.
  induction l as [| x l IH]; intros H; simpl; [reflexivity |].
  destruct (String.eqb _ _) eqn:E.
  - apply String.eqb_eq in E; exfalso; apply (H x); [left; reflexivity | exact E].
  - rewrite IH; [reflexivity |].
    intros y Hy; apply H; right; exact Hy.
Qed.

(** The score reads four things of a stored document. *)
Lemma of_doc_ext d d' :
  AsteroidDoc.isPotentiallyHazardous d = AsteroidDoc.isPotentiallyHazardous d' ->
  AsteroidDoc.estimatedDiameterMax d = AsteroidDoc.estimatedDiameterMax d' ->
  AsteroidDoc.missDistanceLunar d = AsteroidDoc.missDistanceLunar d' ->
  AsteroidDoc.relativeVelocityKmS d = AsteroidDoc.relativeVelocityKmS d' ->
  of_doc d = of_doc d'.
Proof. unfold of_doc; intros -> -> -> ->; reflexivity. Qed.

(** The update document of a record with a close approach scores as the
    record. *)
Lemma update_document_scores_the_same neo score category now c rest :
  Nasa.close_approach_data neo = c :: rest ->
  calculateRiskScore (of_doc (fst (Asteroid.asteroidData neo score category now)))
  = calculateRiskScore (of_feed neo).
Proof.
  intros Hc.
  unfold calculateRiskScore, of_doc, of_feed, hazard_flag, meters_of,
    Asteroid.asteroidData, Asteroid.miss, Asteroid.speed, lunar_of, kps_of.
  cbn [fst is_potentially_hazardous_asteroid isPotentiallyHazardous
       estimatedDiameterMax estimated_diameter missDistanceLunar close_approach_data
       relativeVelocityKmS AsteroidDoc.isPotentiallyHazardous
       AsteroidDoc.estimatedDiameterMax AsteroidDoc.missDistanceLunar
       AsteroidDoc.relativeVelocityKmS].
  rewrite Hc.
  cbn [Js.falsy].
  destruct (Nasa.is_potentially_hazardous_asteroid neo) as [b |];
    destruct (Nasa.estimated_diameter neo) as [[[m |]] |];
    cbn [Nasa.meters Nasa.estimated_diameter_max Asteroid.no_meters];
    repeat match goal with
      | |- context [Js.falsy ?x] => destruct (Js.falsy x)
      | |- context [Js.Reqb ?x ?y] => destruct (Js.Reqb x y)
      end;
    reflexivity.
Qed.

Lemma upsert_has_approach neo score category w d :
  fst (Asteroid.upsertFromNASA neo score category w) = Ok d ->
  exists c rest, Nasa.close_approach_data neo = c :: rest.
Proof.
  intros H; apply upsert_ok in H as (Hdate & _).
  destruct (Nasa.close_approach_data neo) as [| c rest] eqn:E; [| eauto].
  exfalso; apply Hdate.
  unfold Asteroid.asteroidData; rewrite E; reflexivity.
Qed.

(** X6.  The two shapes agree: when a raw record is stored with the score
    computed from it, scoring the stored document again gives the same
    result in full, provided the feed gave a diameter or the record is new
    to the collection (an update without a diameter keeps the old one). *)
Theorem stored_record_scores_the_same neo w d :
  fst (Asteroid.upsertFromNASA neo
         (score (calculateRiskScore (of_feed neo)))
         (category (calculateRiskScore (of_feed neo))) w) = Ok d ->
  feed_diameter neo <> None \/ fresh neo (asteroids w) ->
  calculateRiskScore (of_doc d) = calculateRiskScore (of_feed neo).
Proof.
  intros Hok Hd.
  destruct (upsert_has_approach _ _ _ _ _ Hok) as (c & rest & Hc).
  pose proof Hok as Hok'.
  apply upsert_ok in Hok' as (_ & _ & Hres & _).
  set (s := score (calculateRiskScore (of_feed neo))) in *.
  set (k := category (calculateRiskScore (of_feed neo))) in *.
  set (u := fst (Asteroid.asteroidData neo s k (clock w))) in *.
  rewrite <- (update_document_scores_the_same neo s k (clock w) c rest Hc); fold u.
  f_equal.
  destruct (findOneAndUpdate_result u (asteroids w)) as (_ & _ & [Hu | (old & Hu)]);
    rewrite <- Hres in Hu; [rewrite Hu; reflexivity |].
  destruct Hd as [Hd | Hd].
  - rewrite Hu; apply of_doc_ext; try reflexivity.
    change (Asteroid.keep (feed_diameter neo) (AsteroidDoc.estimatedDiameterMax old)
            = feed_diameter neo).
    destruct (feed_diameter neo); [reflexivity | contradiction Hd; reflexivity].
  - rewrite Hres, findOneAndUpdate_inserts; [reflexivity |].
    exact Hd.
Qed.

End TwoShapes.

Section TwoShapesExample.

Import Effect RiskEngine RiskShapes Ingest.
Local Open Scope Z_scope.

Local Arguments Asteroid.asteroidData : simpl never.

(** The sample record, stored into an empty collection. *)
Lemma stored_record_scores_the_same_witness :
  calculateRiskScore
    (of_doc (fst (Asteroid.asteroidData Samples.feed_record
                    (score (calculateRiskScore (of_feed Samples.feed_record)))
                    (category (calculateRiskScore (of_feed Samples.feed_record))) 0)))
  = calculateRiskScore (of_feed Samples.feed_record).
Proof.
  apply (stored_record_scores_the_same Samples.feed_record (Samples.world [] [] [] 0)).
  - rewrite upsert_unfold; cbv zeta.
    pose proof (score_range (of_feed Samples.feed_record)) as Hr.
    replace ((0 <=? score (calculateRiskScore (of_feed Samples.feed_record)))
             && (score (calculateRiskScore (of_feed Samples.feed_record)) <=? 100))
      with true by (symmetry; apply andb_true_iff; split; apply Z.leb_le; lia).
    reflexivity.
  - right; intros x [].
Defined.

End TwoShapesExample.

(** ** Severity and category *)

Section Severity.

Import RiskEngine.
Local Open Scope Z_scope.

Lemma severity_of_score z :
  Alert.severity_of (Some (IZR z))
  = if 75 <=? z then AlertDoc.danger
    else if 50 <=? z then AlertDoc.warning
    else AlertDoc.info.
Proof.
  unfold Alert.severity_of, Js.ge, Js.le.
  destruct (75 <=? z) eqn:E75.
  - apply Z.leb_le, IZR_le in E75.
    rewrite (proj2 (Rleb_true 75 (IZR z))) by exact E75; reflexivity.
  - apply Z.leb_gt, IZR_lt in E75.
    rewrite (proj2 (Rleb_false 75 (IZR z))) by exact E75.
    destruct (50 <=? z) eqn:E50.
    + apply Z.leb_le, IZR_le in E50.
      rewrite (proj2 (Rleb_true 50 (IZR z))) by exact E50; reflexivity.
    + apply Z.leb_gt, IZR_lt in E50.
      rewrite (proj2 (Rleb_false 50 (IZR z))) by exact E50; reflexivity.
Qed.

(** X7.  The severity of a close-approach alert against the category of the
    object, for an object that carries an integer score and the category of
    that score: a high object always gives a danger alert; a danger alert
    comes from a high object except at the score 75, which is danger and
    moderate; and the alert is info exactly below 50.  An object without a
    score gives an info alert. *)
Theorem severity_against_category :
  (forall u a t z,
     AsteroidDoc.riskScore a = Some (IZR z) ->
     AsteroidDoc.riskCategory a = getRiskCategory z ->
     (AsteroidDoc.riskCategory a = high ->
        AlertDoc.severity (Alert.closeApproachAlert u a t) = AlertDoc.danger)
     /\ (AlertDoc.severity (Alert.closeApproachAlert u a t) = AlertDoc.danger ->
           AsteroidDoc.riskCategory a = high \/ z = 75)
     /\ (z = 75 ->
           AlertDoc.severity (Alert.closeApproachAlert u a t) = AlertDoc.danger
           /\ AsteroidDoc.riskCategory a = moderate)
     /\ (AlertDoc.severity (Alert.closeApproachAlert u a t) = AlertDoc.info <-> z < 50))
  /\ (forall u a t,
        AsteroidDoc.riskScore a = None ->
        AlertDoc.severity (Alert.closeApproachAlert u a t) = AlertDoc.info).
Proof.
  split.
  - intros u a t z Hs Hc.
    unfold Alert.closeApproachAlert; cbn [AlertDoc.severity].
    rewrite Hs, Hc, severity_of_score.
    unfold getRiskCategory.
    destruct (75 <=? z) eqn:E75, (50 <=? z) eqn:E50,
             (76 <=? z) eqn:E76, (51 <=? z) eqn:E51, (26 <=? z) eqn:E26;
      rewrite ?Z.leb_le, ?Z.leb_gt in *;
      (repeat split; intros; try discriminate; try reflexivity; try lia;
       try (left; reflexivity); try (right; lia)).
  - intros u a t Hs.
    unfold Alert.closeApproachAlert; cbn [AlertDoc.severity].
    rewrite Hs; reflexivity.
Qed.

(** The sample record stored with the score 75. *)
Lemma severity_against_category_witness :
  AlertDoc.severity (Alert.closeApproachAlert Samples.matcher (Ingest.scored 75) 0)
  = AlertDoc.danger
  /\ AsteroidDoc.riskCategory (Ingest.scored 75) = moderate.
Proof.
  destruct severity_against_category as [H _].
  apply (H Samples.matcher (Ingest.scored 75) 0 75); reflexivity.
Defined.

End Severity.

(** ** What the dispatcher delivers *)

Section CreateAlert.

Import Effect Hoare Delivery AlertDispatcher.
Local Open Scope Z_scope.

(** All that [createAlertForUser] can come to. *)
Lemma createAlertForUser_cases :
  forall u a io w,
    let r := fst (createAlertForUser u a io w) in
    let w' := snd (createAlertForUser u a io w) in
    users w' = users w
    /\ asteroids w' = asteroids w
    /\ ((r = Ok None /\ alerts w' = alerts w /\ emitted w' = emitted w)
        \/ (exists al t,
              r = Ok (Some al)
              /\ al = Alert.closeApproachAlert u a (AlertDoc.createdAt al)
              /\ alerts w' = alerts w ++ [al]
              /\ emitted w'
                 = emitted w
                   ++ (if io
                       then [{| Io.room := Some (UserDoc._id u);
                                Io.payload := Io.CLOSE_APPROACH_ALERT al a t |}]
                       else [])))
    /\ (fails (oracle w (ops w)) = true \/ fails (oracle w (S (ops w))) = true ->
        r = Ok None /\ alerts w' = alerts w /\ emitted w' = emitted w).
Proof.
  intros u a io w r w'; unfold r, w'; clear r w'.
  unfold createAlertForUser, Alert.findOne, Alert.createCloseApproachAlert,
    try_catch, bind, Date_now, await_store, emit, ret.
  destruct (fails (oracle w (ops w))) eqn:F1; cbn [fst snd].
  { repeat split; auto. }
  destruct (find _ (alerts w)) as [existing |]; cbn [fst snd].
  { repeat split; auto. }
  change (fails (oracle (tick w) (ops (tick w)))) with (fails (oracle w (S (ops w)))).
  destruct (fails (oracle w (S (ops w)))) eqn:F2; cbn [fst snd].
  { repeat split; auto. }
  destruct io; cbn [fst snd].
  - split; [reflexivity |]; split; [reflexivity |]; split.
    + right; eexists; eexists.
      split; [reflexivity |].
      split; [reflexivity |].
      split; reflexivity.
    + intros [H | H]; discriminate.
  - split; [reflexivity |]; split; [reflexivity |]; split.
    + right; eexists; exists 0.
      split; [reflexivity |].
      split; [reflexivity |].
      split; [reflexivity | simpl; rewrite app_nil_r; reflexivity].
    + intros [H | H]; discriminate.
Qed.

(** X8.  [createAlertForUser] never ends in an exception.  Either it
    returns null and leaves the alerts and the emitted events as they were,
    which is what happens whenever the store raises, at the check or at the
    create; or it returns the alert it has appended to the collection, and
    has emitted exactly one event for it, to the room of the user, when
    there is a socket, and none when there is not.  Users and asteroids
    are never touched. *)
Theorem createAlertForUser_outcomes :
  forall u a io w,
    let r := fst (createAlertForUser u a io w) in
    let w' := snd (createAlertForUser u a io w) in
    users w' = users w
    /\ asteroids w' = asteroids w
    /\ ((r = Ok None /\ alerts w' = alerts w /\ emitted w' = emitted w)
        \/ (exists al t,
              r = Ok (Some al)
              /\ al = Alert.closeApproachAlert u a (AlertDoc.createdAt al)
              /\ alerts w' = alerts w ++ [al]
              /\ emitted w'
                 = emitted w
                   ++ (if io
                       then [{| Io.room := Some (UserDoc._id u);
                                Io.payload := Io.CLOSE_APPROACH_ALERT al a t |}]
                       else [])))
    /\ (fails (oracle w (ops w)) = true \/ fails (oracle w (S (ops w))) = true ->
        r = Ok None /\ alerts w' = alerts w /\ emitted w' = emitted w).
Proof. exact createAlertForUser_cases. Qed.

End CreateAlert.

Section SweepDelivery.

Import Effect Hoare Delivery AlertDispatcher.
Local Open Scope Z_scope.

Variable P : AlertDoc.t -> Prop.
Variable io : bool.

Lemma sent_start w : sent P io 0 w w.
Proof.
  split; [reflexivity |]; split; [reflexivity |].
  exists [], []; rewrite !app_nil_r.
  repeat split; [constructor | destruct io; constructor].
Qed.

Lemma sent_tick n w0 w : sent P io n w0 w -> sent P io n w0 (tick w).
Proof. intros H; exact H. Qed.

Lemma delivered_snoc created events al e :
  delivered io created events ->
  (if io then notifies al e else True) ->
  delivered io (created ++ [al]) (events ++ (if io then [e] else [])).
Proof.
  unfold delivered; destruct io; intros H He.
  - apply Forall2_app; [exact H | constructor; [exact He | constructor]].
  - subst; reflexivity.
Qed.

(** One recipient: the count goes up by one exactly when an alert is
    created. *)
Lemma sent_createAlertForUser u a n w0 w :
  (forall t, P (Alert.closeApproachAlert u a t)) ->
  sent P io n w0 w ->
  post (createAlertForUser u a io) w
    (fun r w' =>
       match r with
       | Ok (Some _) => sent P io (S n) w0 w'
       | Ok None => sent P io n w0 w'
       | Throw _ => False
       end).
Proof.
  intros HP (Hu & Ha & created & events & Hc & He & HF & Hd & Hn).
  unfold post.
  destruct (createAlertForUser_cases u a io w) as (Hu' & Ha' & Hcase & _).
  cbv zeta in Hcase.
  destruct Hcase as [(Hr & Hal & Hem) | (al & t & Hr & Hal & Halerts & Hem)];
    rewrite Hr.
  - split; [congruence |]; split; [congruence |].
    exists created, events; rewrite Hal, Hem; auto.
  - split; [congruence |]; split; [congruence |].
    exists (created ++ [al]),
      (events ++ (if io then [{| Io.room := Some (UserDoc._id u);
                                Io.payload := Io.CLOSE_APPROACH_ALERT al a t |}]
                  else [])).
    rewrite Halerts, Hem, Hc, He, !app_assoc.
    split; [reflexivity |]; split; [reflexivity |].
    split; [apply Forall_app; split; [exact HF |];
            constructor; [rewrite Hal; apply HP | constructor] |].
    split.
    + apply delivered_snoc; [exact Hd |].
      destruct io; [| exact I].
      split; [rewrite Hal; reflexivity |].
      exists a, t; split; [reflexivity | rewrite Hal; reflexivity].
    + rewrite length_app, Hn; simpl; lia.
Qed.

End SweepDelivery.

Section SweepOutcome.

Import Effect Hoare Delivery AlertDispatcher.
Local Open Scope Z_scope.

Lemma usersToAlert_sent P io a n w0 w :
  sent P io n w0 w ->
  post (usersToAlert a) w
    (on_ok (fun l w' => sent P io n w0 w'
                        /\ forall u, In u l -> In u (users w0) /\ candidate a u)
           (fun (_ : Result (list UserDoc.t)) w' => sent P io n w0 w')).
Proof.
  intros Hs.
  assert (Hu : users w = users w0) by apply Hs.
  assert (Hwatch : forall u,
            In u (filter (User.watching (AsteroidDoc.neo_reference_id a)) (users (tick w))) ->
            In u (users w0) /\ candidate a u).
  { intros u Hin; apply filter_In in Hin as [Hin Hw].
    apply watching_spec in Hw as [Hw He].
    split; [rewrite <- Hu; exact Hin | split; [exact He | left; exact Hw]]. }
  unfold usersToAlert, watchingUsers, thresholdUsers, User.find.
  apply post_bind, post_read; cbn [on_ok on_throw].
  - intros _; exact Hs.
  - intros _.
    apply post_bind.
    destruct (Js.ge (AsteroidDoc.riskScore a) (Some 50%R)) eqn:E.
    + apply post_read; cbn [on_ok on_throw].
      * intros _; exact Hs.
      * intros _; split; [exact Hs |].
        intros u Hin.
        apply in_app_or in Hin as [Hin | Hin]; [apply Hwatch; exact Hin |].
        apply filter_In in Hin as [Hin Ht].
        unfold Js.ge in E; apply le_spec in E as (x & r & Hx & Hr & Hle).
        injection Hx as <-.
        rewrite Hr in Ht.
        apply threshold_match_spec in Ht as (He & (t & Ht & Htr) & Hnw).
        split; [rewrite <- Hu; exact Hin |].
        split; [exact He | right; split; [exact Hnw |]].
        exists r, t; auto.
    + cbn [on_ok on_throw]; split; [exact Hs |].
      intros u Hin.
      apply in_app_or in Hin as [Hin | Hin]; [| contradiction].
      apply Hwatch; exact Hin.
Qed.

(** The sweep as a whole: what it has created and sent when it returns, and
    what it reports. *)
Lemma sweep_sent io daysAhead w :
  post (checkAndDispatchAlerts io daysAhead) w
    (fun r w' =>
       exists n d,
         sent (recipient w (clock w) (clock w + daysAhead * Js.DAY_MS)) io n w w'
         /\ r = Ok d
         /\ (error d = None /\ alertsSent d = n
             \/ error d <> None /\ alertsSent d = 0%nat)).
Proof.
  set (P := recipient w (clock w) (clock w + daysAhead * Js.DAY_MS)).
  set (Q := fun (r : Result Dispatch) w' =>
              match r with
              | Ok d => sent P io (alertsSent d) w w' /\ error d = None
              | Throw _ => exists n, sent P io n w w'
              end).
  assert (Hstart : sent P io 0 w (tick w)) by apply sent_tick, sent_start.
  unfold checkAndDispatchAlerts.
  apply post_try_catch.
  apply post_mono with (Q := Q).
  2:{ intros [d | e] w' H; cbn [on_throw]; unfold Q in H.
      - destruct H as [Hs He]; exists (alertsSent d), d; auto.
      - destruct H as [n Hs]; unfold post; simpl.
        exists n; eexists; split; [exact Hs |].
        split; [reflexivity | right; split; [discriminate | reflexivity]]. }
  apply post_bind, post_now; cbn [on_ok on_throw].
  apply post_bind.
  unfold Asteroid.find_approaching.
  apply post_read; cbn [on_ok on_throw].
  - intros _; exists 0%nat; exact Hstart.
  - intros _.
    set (upcoming := filter _ (asteroids w)).
    assert (Hup : forall a, In a upcoming ->
              In a (asteroids w)
              /\ clock w <= AsteroidDoc.closeApproachDate a
                 <= clock w + daysAhead * Js.DAY_MS).
    { intros a Hin; apply filter_In in Hin as [Hin Hd].
      apply andb_true_iff in Hd as [H1 H2].
      apply Z.leb_le in H1, H2; auto. }
    clearbody upcoming.
    destruct (Nat.eqb (List.length upcoming) 0).
    + split; [exact Hstart | reflexivity].
    + apply post_bind.
      apply post_for_of with
        (I := fun rest (k : nat) w' =>
                sent P io k w w' /\ forall a, In a rest -> In a upcoming).
      * intros a rest n w1 [Hs Hin].
        apply post_bind.
        eapply post_mono; [apply usersToAlert_sent; exact Hs |].
        intros [l | e] w2; cbn [on_ok on_throw]; [| intros H; exists n; exact H].
        intros [Hs2 Hl].
        apply post_for_of with
          (I := fun rest' (k : nat) w' =>
                  sent P io k w w' /\ forall u, In u rest' -> In u l).
        -- intros u rest' n' w3 [Hs3 Hin'].
           destruct (matchesUserThresholds a (UserDoc.alertSettings u)) eqn:Hm.
           ++ apply post_bind.
              eapply post_mono.
              ** apply sent_createAlertForUser; [| exact Hs3].
                 intros t; exists u, a.
                 destruct (Hl u (Hin' u (or_introl eq_refl))) as [Hu Hc].
                 destruct (Hup a (Hin a (or_introl eq_refl))) as [Ha Hd].
                 repeat (split; [assumption |]); reflexivity.
              ** intros [[al |] | e] w4 Hs4; cbn [on_ok on_throw];
                   try (split; [exact Hs4 | intros; apply Hin'; right; assumption]).
                 contradiction.
           ++ cbn [on_ok on_throw]; split; [exact Hs3 |].
              intros; apply Hin'; right; assumption.
        -- intros n' w3 [Hs3 _]; cbn [on_ok on_throw]; split; [exact Hs3 |].
           intros; apply Hin; right; assumption.
        -- split; [exact Hs2 | auto].
      * intros n w1 [Hs _]; cbn [on_ok on_throw]; split; [exact Hs | reflexivity].
      * split; [exact Hstart | auto].
Qed.

End SweepOutcome.

Section SweepReport.

Import Effect Hoare Delivery AlertDispatcher.
Local Open Scope Z_scope.

(** X9.  Who the sweep alerts.  [checkAndDispatchAlerts] leaves the users
    and the asteroids as they are and only appends to the alerts; each alert
    it appends is the close-approach alert of a stored user with alerts
    enabled and a stored asteroid whose approach lies between the start of
    the sweep and [daysAhead] days later, where the user watches the
    asteroid, or does not watch it while the asteroid scores 50 or more and
    reaches the user's riskThreshold, and the pair passes
    [matchesUserThresholds]. *)
Theorem sweep_alerts_its_candidates :
  forall io daysAhead w,
    users (snd (checkAndDispatchAlerts io daysAhead w)) = users w
    /\ asteroids (snd (checkAndDispatchAlerts io daysAhead w)) = asteroids w
    /\ exists created,
         alerts (snd (checkAndDispatchAlerts io daysAhead w)) = alerts w ++ created
         /\ Forall (fun al => exists u a,
              In u (users w)
              /\ In a (asteroids w)
              /\ clock w <= AsteroidDoc.closeApproachDate a
                 <= clock w + daysAhead * Js.DAY_MS
              /\ UserDoc.enabled (UserDoc.alertSettings u) = true
              /\ (In (AsteroidDoc.neo_reference_id a) (UserDoc.watched_asteroid_ids u)
                  \/ (~ In (AsteroidDoc.neo_reference_id a) (UserDoc.watched_asteroid_ids u)
                      /\ exists r t,
                           AsteroidDoc.riskScore a = Some r
                           /\ (50 <= r)%R
                           /\ UserDoc.riskThreshold (UserDoc.alertSettings u) = Some t
                           /\ (t <= r)%R))
              /\ matchesUserThresholds a (UserDoc.alertSettings u) = true
              /\ al = Alert.closeApproachAlert u a (AlertDoc.createdAt al)) created.
Proof.
  intros io daysAhead w.
  destruct (sweep_sent io daysAhead w)
    as (n & d & (Hu & Ha & created & events & Hc & _ & F & _) & _).
  split; [exact Hu |]; split; [exact Ha |].
  exists created; split; [exact Hc |].
  eapply Forall_impl; [| exact F].
  intros al (u & a & Hin & Hin' & Hd & (He & Hw) & Hm & Hal).
  exists u, a; auto 10.
Qed.

(** X10.  What the sweep reports.  [checkAndDispatchAlerts] never throws.
    With a socket it emits one CLOSE_APPROACH_ALERT for each alert it
    creates, in order, to the room of the alert's user and about the alert's
    asteroid; without one it emits nothing.  When it reports no error,
    alertsSent is the number of alerts created.  When it reports an error,
    alertsSent is 0 whatever was created before the error: a store that
    raises at the query for the second asteroid leaves the alert about the
    first one created and sent. *)
Theorem sweep_report :
  (forall io daysAhead w,
     exists d created events,
       fst (checkAndDispatchAlerts io daysAhead w) = Ok d
       /\ alerts (snd (checkAndDispatchAlerts io daysAhead w)) = alerts w ++ created
       /\ emitted (snd (checkAndDispatchAlerts io daysAhead w)) = emitted w ++ events
       /\ (if io then Forall2 notifies created events else events = [])
       /\ (error d = None -> alertsSent d = List.length created)
       /\ (error d <> None -> alertsSent d = 0%nat))
  /\ (exists w d,
        fst (checkAndDispatchAlerts true 1 w) = Ok d
        /\ error d = Some StoreError
        /\ alertsSent d = 0%nat
        /\ List.length (alerts (snd (checkAndDispatchAlerts true 1 w)))
           = S (List.length (alerts w))
        /\ List.length (emitted (snd (checkAndDispatchAlerts true 1 w)))
           = S (List.length (emitted w))).
Proof.
  split.
  - intros io daysAhead w.
    destruct (sweep_sent io daysAhead w)
      as (n & d & (_ & _ & created & events & Hc & He & _ & Hd & Hn) & Hr & Hcase).
    exists d, created, events.
    repeat (split; [assumption |]).
    destruct Hcase as [[H1 H2] | [H1 H2]]; split; intros H; congruence.
  - exists interrupted.
    eexists.
    unfold checkAndDispatchAlerts, interrupted, Samples.object_82, object_77,
      Samples.watcher, failing_at.
    js_run.
    repeat split.
Qed.

End SweepReport.

(** ** The tallies of a batch *)

Section BatchTallies.

Import Effect Hoare Batch Scheduler Tally.
Local Open Scope Z_scope.

Local Arguments Asteroid.asteroidData : simpl never.

(** One turn of the loop, written out. *)
Lemma processOne_unfold io s neo w :
  processOne io s neo w =
  let risk := RiskEngine.calculateRiskScore (RiskEngine.of_feed neo) in
  let u := fst (Asteroid.asteroidData neo (RiskEngine.score risk)
                  (RiskEngine.category risk) (clock w)) in
  if raises (oracle w) (ops w) neo
  then (Ok {| Stats.total := Stats.total s;
              Stats.processed := Stats.processed s;
              Stats.hazardous := Stats.hazardous s;
              Stats.highRisk := Stats.highRisk s;
              Stats.errors := S (Stats.errors s) |}, tick w)
  else
    let d := snd (Asteroid.findOneAndUpdate u (asteroids w)) in
    let w1 := tick (set_asteroids (fst (Asteroid.findOneAndUpdate u (asteroids w))) w) in
    let isHigh :=
      match RiskEngine.category risk with
      | RiskEngine.high => true
      | _ => false
      end in
    (Ok {| Stats.total := Stats.total s;
           Stats.processed := S (Stats.processed s);
           Stats.hazardous := count (AsteroidDoc.isPotentiallyHazardous d) (Stats.hazardous s);
           Stats.highRisk := count isHigh (Stats.highRisk s);
           Stats.errors := Stats.errors s |},
     if isHigh && io
     then push_event {| Io.room := None;
                        Io.payload := Io.NEW_HAZARDOUS_ASTEROID d (clock w1) |} w1
     else w1).
Proof.
  unfold processOne, try_catch, bind, raises.
  rewrite upsert_unfold; cbv zeta.
  set (risk := RiskEngine.calculateRiskScore (RiskEngine.of_feed neo)).
  pose proof (score_range (RiskEngine.of_feed neo)) as Hr; fold risk in Hr.
  change (snd (Asteroid.asteroidData neo (RiskEngine.score risk)
                 (RiskEngine.category risk) (clock w)))
    with (snd (Asteroid.asteroidData neo 0 RiskEngine.minimal 0)).
  destruct (fails (oracle w (ops w))); cbn [orb]; [reflexivity |].
  destruct (snd (Asteroid.asteroidData neo 0 RiskEngine.minimal 0)) as [date |];
    [| reflexivity].
  replace ((0 <=? RiskEngine.score risk) && (RiskEngine.score risk <=? 100))
    with true by (symmetry; apply andb_true_iff; split; apply Z.leb_le; lia).
  unfold AlertDispatcher.broadcastNewHazardousAsteroid.
  destruct (match RiskEngine.category risk with RiskEngine.high => true | _ => false end);
    destruct io; reflexivity.
Qed.

Lemma clock_tick w : clock w <= clock (tick w).
Proof. simpl; lia. Qed.

(** The category is that of the score. *)
Lemma category_of_score a :
  RiskEngine.category (RiskEngine.calculateRiskScore a)
  = RiskEngine.getRiskCategory (RiskEngine.score (RiskEngine.calculateRiskScore a)).
Proof. reflexivity. Qed.

Lemma high_from_76 z : RiskEngine.getRiskCategory z = RiskEngine.high -> 76 <= z.
Proof.
  unfold RiskEngine.getRiskCategory.
  repeat match goal with
         | |- context [(?x <=? ?y)] => destruct (Z.leb_spec x y)
         | |- context [(?x >=? ?y)] => destruct (Z.geb_spec x y)
         | |- context [(?x <? ?y)] => destruct (Z.ltb_spec x y)
         end; try discriminate; intros _; lia.
Qed.

(** What is stored for a record in the high category. *)
Lemma stored_high neo now l :
  let risk := RiskEngine.calculateRiskScore (RiskEngine.of_feed neo) in
  let u := fst (Asteroid.asteroidData neo (RiskEngine.score risk)
                  (RiskEngine.category risk) now) in
  let d := snd (Asteroid.findOneAndUpdate u l) in
  AsteroidDoc.riskCategory d = RiskEngine.category risk
  /\ AsteroidDoc.riskScore d = Some (IZR (RiskEngine.score risk))
  /\ AsteroidDoc.isPotentiallyHazardous d
     = RiskEngine.isHazardous (RiskEngine.factors risk).
Proof.
  intros risk u d.
  assert (Hu : AsteroidDoc.riskCategory u = RiskEngine.category risk
               /\ AsteroidDoc.riskScore u = Some (IZR (RiskEngine.score risk))
               /\ AsteroidDoc.isPotentiallyHazardous u
                  = RiskEngine.isHazardous (RiskEngine.factors risk)).
  { repeat split. }
  destruct (findOneAndUpdate_result u l) as (_ & _ & [Hd | [old Hd]]);
    fold d in Hd; rewrite Hd; [exact Hu |].
  exact Hu.
Qed.

Lemma counted_refl s : counted 0 s s.
Proof. exists 0%nat, 0%nat; repeat split; lia. Qed.

Lemma processOne_run io s0 w0 s neo w :
  run io s0 w0 s w ->
  exists s' w', processOne io s neo w = (Ok s', w') /\ run io s0 w0 s' w'.
Proof.
  intros (Hu & Ha & Hc & k & ev & (p & h & Hle & Hp & Hh & Hk) & He & Hev & Hlen).
  rewrite processOne_unfold; cbv zeta.
  destruct (raises (oracle w) (ops w) neo).
  { do 2 eexists; split; [reflexivity |].
    split; [exact Hu |]; split; [exact Ha |].
    split; [pose proof (clock_tick w); lia |].
    exists k, ev; repeat split; try assumption.
    exists p, h; auto. }
  destruct (stored_high neo (clock w) (asteroids w)) as (Hcat & Hscore & Hflag).
  cbv zeta in Hcat, Hscore, Hflag.
  set (risk := RiskEngine.calculateRiskScore (RiskEngine.of_feed neo)) in *.
  set (u := fst (Asteroid.asteroidData neo _ _ _)) in *.
  set (d := snd (Asteroid.findOneAndUpdate u (asteroids w))) in *.
  set (w1 := tick (set_asteroids _ w)).
  assert (Hc1 : clock w0 <= clock w1)
    by (pose proof (clock_tick (set_asteroids (fst (Asteroid.findOneAndUpdate u (asteroids w))) w));
        simpl in *; unfold w1; simpl; lia).
  destruct (RiskEngine.category risk) eqn:Ecat;
    try (do 2 eexists; split; [reflexivity |];
         split; [exact Hu |]; split; [exact Ha |]; split; [exact Hc1 |];
         exists k, ev; split;
         [exists (S p), (if AsteroidDoc.isPotentiallyHazardous d then S h else h);
          cbn [Stats.processed Stats.hazardous Stats.highRisk count];
          destruct (AsteroidDoc.isPotentiallyHazardous d);
          repeat split; unfold count; lia
         | repeat split; assumption]).
  (* the high category *)
  assert (Hhaz : AsteroidDoc.isPotentiallyHazardous d = true).
  { rewrite Hflag.
    destruct (RiskEngine.isHazardous (RiskEngine.factors risk)) eqn:E; [reflexivity |].
    pose proof (harmless_score _ E) as Hs; fold risk in Hs.
    unfold risk in Ecat; rewrite category_of_score in Ecat; fold risk in Ecat.
    apply high_from_76 in Ecat; lia. }
  assert (Hev' : about_high {| Io.room := None;
                               Io.payload := Io.NEW_HAZARDOUS_ASTEROID d (clock w1) |}).
  { split; [reflexivity |].
    exists d, (clock w1); split; [reflexivity |].
    split; [exact Hcat |]; split; [exact Hhaz |].
    exists (RiskEngine.score risk); split; [exact Hscore |].
    unfold risk in Ecat; rewrite category_of_score in Ecat.
    apply high_from_76 in Ecat; exact Ecat. }
  do 2 eexists; split; [reflexivity |].
  cbn [andb].
  split; [destruct io; exact Hu |].
  split; [destruct io; exact Ha |].
  split; [destruct io; exact Hc1 |].
  exists (S k), (if io then ev ++ [{| Io.room := None;
                                     Io.payload := Io.NEW_HAZARDOUS_ASTEROID d (clock w1) |}]
                 else ev).
  split.
  { exists (S p), (S h).
    cbn [Stats.processed Stats.hazardous Stats.highRisk].
    rewrite Hhaz; unfold count; repeat split; lia. }
  destruct io.
  - split; [simpl; unfold w1; simpl; rewrite He, app_assoc; reflexivity |].
    split; [apply Forall_app; split; [exact Hev | constructor; [exact Hev' | constructor]] |].
    rewrite length_app, Hlen; simpl; lia.
  - repeat split; assumption.
Qed.

Lemma batch_run io l :
  forall s0 w0 s w,
    run io s0 w0 s w ->
    exists s' w', for_of l (processOne io) s w = (Ok s', w') /\ run io s0 w0 s' w'.
Proof.
  induction l as [| neo rest IH]; intros s0 w0 s w Hrun.
  - exists s, w; split; [reflexivity | exact Hrun].
  - destruct (processOne_run io s0 w0 s neo w Hrun) as (s1 & w1 & H1 & Hrun1).
    destruct (IH s0 w0 s1 w1 Hrun1) as (s' & w' & H' & Hrun').
    exists s', w'; split; [| exact Hrun'].
    simpl for_of; unfold bind; rewrite H1; exact H'.
Qed.

(** X11.  The tallies of a batch.  [processAndStoreAsteroids] counts no
    more high-risk records than hazardous ones, and no more hazardous ones
    than processed ones, out of the total; it leaves the users and the
    alerts alone; with a socket it broadcasts one NEW_HAZARDOUS_ASTEROID
    for each high-risk record, to no room in particular, about the record
    as stored, which is flagged hazardous and scores 76 or more; without a
    socket it emits nothing. *)
Theorem batch_tallies :
  forall io neoData w,
    let result := processAndStoreAsteroids io neoData w in
    exists stats broadcasts,
      fst result = Ok stats
      /\ (Stats.highRisk stats <= Stats.hazardous stats <= Stats.processed stats)%nat
      /\ (Stats.processed stats <= Stats.total stats)%nat
      /\ users (snd result) = users w
      /\ alerts (snd result) = alerts w
      /\ emitted (snd result) = emitted w ++ broadcasts
      /\ List.length broadcasts = (if io then Stats.highRisk stats else 0%nat)
      /\ Forall (fun e =>
            Io.room e = None
            /\ exists a t,
                 Io.payload e = Io.NEW_HAZARDOUS_ASTEROID a t
                 /\ AsteroidDoc.riskCategory a = RiskEngine.high
                 /\ AsteroidDoc.isPotentiallyHazardous a = true
                 /\ exists z, AsteroidDoc.riskScore a = Some (IZR z) /\ 76 <= z)
           broadcasts.
Proof.
  intros io neoData w result.
  unfold result, processAndStoreAsteroids.
  set (s0 := {| Stats.total := List.length neoData; Stats.processed := 0;
                Stats.hazardous := 0; Stats.highRisk := 0; Stats.errors := 0 |}).
  assert (Hstart : run io s0 w s0 w).
  { repeat split; [lia |].
    exists 0%nat, []; rewrite app_nil_r.
    repeat split; [apply counted_refl | constructor | destruct io; reflexivity]. }
  destruct (batch_run io neoData s0 w s0 w Hstart)
    as (s' & w' & Hrun & Hu & Ha & _ & k & ev & (p & h & Hle & Hp & Hh & Hk) & He & Hev & Hlen).
  destruct (batch_spec io neoData s0 w)
    as (s'' & w'' & Hrun2 & _ & _ & Htotal & _ & Hsum & _).
  rewrite Hrun in Hrun2; injection Hrun2 as <- <-.
  rewrite Hrun; cbn [fst snd].
  exists s', ev.
  simpl in Hp, Hh, Hk, Hsum, Htotal.
  split; [reflexivity |].
  split; [lia |].
  split; [lia |].
  split; [exact Hu |]; split; [exact Ha |]; split; [exact He |].
  split; [rewrite Hk; exact Hlen | exact Hev].
Qed.

End BatchTallies.

(** ** The records a batch leaves *)

Section StoredRecords.

Import Effect Hoare Batch Scheduler Tally Ingest.
Local Open Scope Z_scope.

Local Arguments Asteroid.asteroidData : simpl never.







End StoredRecords.

Section StoredRecordsExample.

Import Effect Scheduler Tally Ingest.
Local Open Scope Z_scope.

Lemma sample_well_formed : well_formed 10 (scored 75).
Proof.
  split; [exists 75; repeat split; lia |].
  unfold scored, Asteroid.asteroidData; cbn.
  repeat split; try lia; discriminate.
Qed.


End StoredRecordsExample.

(** ** A run of the pipeline *)

Section PipelineFacts.

Import Effect Hoare Scheduler NasaService Pipeline.
Local Open Scope Z_scope.

Lemma fetch_keeps_the_world type w : snd (fetch type w) = w.
Proof.
  destruct type; unfold fetch, fetchTodayNeos, fetchWeekNeos, bind, Date_now.
  - destruct (fetchNeoFeed_total (clock w) (Some (clock w)) w) as [r Hr].
    rewrite Hr.
    destruct (negb (success r)); [reflexivity |].
    destruct (near_earth_objects r); reflexivity.
  - destruct (fetchNeoFeed_total (clock w) (Some (clock w + 6 * Js.DAY_MS)) w) as [r Hr].
    rewrite Hr.
    destruct (negb (success r)); [reflexivity |].
    destruct (near_earth_objects r); reflexivity.
Qed.

(** A run either ends after the fetch, with the world as it was, or goes
    through the batch, the announcement and the sweep. *)
Lemma pipeline_cases type io w :
  (triggerManualFetch type io w = (Ok tt, w)
   /\ (fst (fetch type w) = Ok [] \/ exists e, fst (fetch type w) = Throw e))
  \/ exists neos stats w1,
       fst (fetch type w) = Ok neos
       /\ neos <> []
       /\ processAndStoreAsteroids io neos w = (Ok stats, w1)
       /\ triggerManualFetch type io w
          = (Ok tt, snd (AlertDispatcher.checkAndDispatchAlerts io (daysAhead type)
                           (announced type io stats w1))).
Proof.
  pose proof (fetch_keeps_the_world type w) as Hw.
  assert (Hrun : triggerManualFetch type io w =
            try_catch
              (bind (fetch type) (fun neos =>
                 if Nat.eqb (List.length neos) 0 then ret tt
                 else
                   bind (processAndStoreAsteroids io neos) (fun stats =>
                     bind (if io then
                             bind Date_now (fun timestamp =>
                               emit {| Io.room := None;
                                       Io.payload := update type stats timestamp |})
                           else ret tt)
                          (fun _ =>
                             bind (AlertDispatcher.checkAndDispatchAlerts io (daysAhead type))
                                  (fun _ => ret tt)))))
              (fun _ => ret tt) w)
    by (destruct type; reflexivity).
  destruct (fetch type w) as [[neos | e] w0] eqn:Hfetch; cbn [fst snd] in *; subst w0.
  2: { left; split; [| right; eauto].
       rewrite Hrun; unfold try_catch, bind; rewrite Hfetch; reflexivity. }
  destruct neos as [| neo rest].
  { left; split; [| left; reflexivity].
    rewrite Hrun; unfold try_catch, bind; rewrite Hfetch; reflexivity. }
  right.
  destruct (batch_spec io (neo :: rest)
              {| Stats.total := List.length (neo :: rest); Stats.processed := 0;
                 Stats.hazardous := 0; Stats.highRisk := 0; Stats.errors := 0 |} w)
    as (stats & w1 & Hbatch & _).
  change (processAndStoreAsteroids io (neo :: rest) w = (Ok stats, w1)) in Hbatch.
  exists (neo :: rest), stats, w1.
  split; [reflexivity |]; split; [discriminate |].
  split; [exact Hbatch |].
  rewrite Hrun; clear Hrun.
  unfold try_catch; unfold bind at 1; rewrite Hfetch.
  change (Nat.eqb (List.length (neo :: rest)) 0) with false; cbv iota.
  unfold bind at 1; rewrite Hbatch.
  destruct (sweep_sent io (daysAhead type) (announced type io stats w1))
    as (n & d & _ & Hd & _).
  unfold announced in *.
  destruct io; unfold bind, Date_now, emit, ret; cbn [fst snd];
    match goal with
    | |- context [AlertDispatcher.checkAndDispatchAlerts ?i ?k ?x] =>
        destruct (AlertDispatcher.checkAndDispatchAlerts i k x) as [r w2]
    end; cbn [fst snd] in *; subst r; reflexivity.
Qed.

Lemma run_start io s w : Tally.run io s w s w.
Proof.
  repeat split; [lia |].
  exists 0%nat, []; rewrite app_nil_r.
  repeat split; [apply counted_refl | constructor | destruct io; reflexivity].
Qed.

(** What a batch that ended with [stats] in [w1] has done. *)
Lemma process_run io neos w stats w1 :
  processAndStoreAsteroids io neos w = (Ok stats, w1) ->
  users w1 = users w
  /\ alerts w1 = alerts w
  /\ clock w <= clock w1
  /\ incl (map AsteroidDoc.neo_reference_id (asteroids w))
          (map AsteroidDoc.neo_reference_id (asteroids w1))
  /\ exists broadcasts,
       emitted w1 = emitted w ++ broadcasts
       /\ Forall Tally.about_high broadcasts
       /\ List.length broadcasts = if io then Stats.highRisk stats else 0%nat.
Proof.
  intros Hbatch.
  set (s0 := {| Stats.total := List.length neos; Stats.processed := 0;
                Stats.hazardous := 0; Stats.highRisk := 0; Stats.errors := 0 |}).
  destruct (batch_run io neos s0 w s0 w (run_start io s0 w))
    as (s' & w' & Hb & Hu & Ha & Hc & k & ev & (p & h & _ & _ & _ & Hk) & He & Hev & Hlen).
  change (processAndStoreAsteroids io neos w = (Ok s', w')) in Hb.
  rewrite Hbatch in Hb; injection Hb as <- <-.
  destruct (batch_spec io neos s0 w)
    as (s'' & w'' & Hb & _ & _ & _ & _ & _ & Hids & _).
  change (processAndStoreAsteroids io neos w = (Ok s'', w'')) in Hb.
  rewrite Hbatch in Hb; injection Hb as <- <-.
  repeat (split; [assumption |]).
  exists ev; simpl in Hk; rewrite Hk; auto.
Qed.

Lemma createAlertForUser_clock c u a io :
  preserves (fun w => c <= clock w) (AlertDispatcher.createAlertForUser u a io).
Proof.
  intros w H.
  unfold AlertDispatcher.createAlertForUser, Alert.findOne,
    Alert.createCloseApproachAlert, try_catch, bind, Date_now, await_store, emit, ret.
  pose proof (clock_tick w) as H1.
  destruct (fails (oracle w (ops w))); cbn [fst snd]; [lia |].
  destruct (find _ (alerts w)); cbn [fst snd]; [lia |].
  pose proof (clock_tick (tick w)) as H2.
  destruct (fails (oracle (tick w) (ops (tick w)))); cbn [fst snd]; [lia |].
  destruct io; cbn [fst snd]; simpl in *; lia.
Qed.

Lemma sweep_clock io days w :
  clock w <= clock (snd (AlertDispatcher.checkAndDispatchAlerts io days w)).
Proof.
  apply (preserves_sweep (fun w' => clock w <= clock w')).
  - intros w' H; pose proof (clock_tick w'); lia.
  - apply createAlertForUser_clock.
  - lia.
Qed.

Lemma announced_keeps type io stats w :
  users (announced type io stats w) = users w
  /\ alerts (announced type io stats w) = alerts w
  /\ asteroids (announced type io stats w) = asteroids w
  /\ clock (announced type io stats w) = clock w.
Proof. unfold announced; destruct io; repeat split. Qed.

(** X13.  A run removes nothing.  Whatever the feed and the store do,
    [triggerManualFetch], and so [runDailyFetch] and [runWeeklyFetch],
    leaves the users as they are, only appends to the alerts and to what
    the socket has sent, keeps the id of every stored record in the
    collection, and does not set the clock back. *)
Theorem run_removes_nothing :
  forall type io w,
    users (snd (triggerManualFetch type io w)) = users w
    /\ (exists created,
          alerts (snd (triggerManualFetch type io w)) = alerts w ++ created)
    /\ (exists events,
          emitted (snd (triggerManualFetch type io w)) = emitted w ++ events)
    /\ incl (map AsteroidDoc.neo_reference_id (asteroids w))
            (map AsteroidDoc.neo_reference_id
               (asteroids (snd (triggerManualFetch type io w))))
    /\ clock w <= clock (snd (triggerManualFetch type io w)).
Proof.
  intros type io w.
  destruct (pipeline_cases type io w)
    as [[Hrun _] | (neos & stats & w1 & _ & _ & Hbatch & Hrun)]; rewrite Hrun; cbn [snd].
  { split; [reflexivity |].
    split; [exists []; symmetry; apply app_nil_r |].
    split; [exists []; symmetry; apply app_nil_r |].
    split; [apply incl_refl | lia]. }
  destruct (process_run io neos w stats w1 Hbatch)
    as (Hu & Ha & Hc & Hids & ev & He & _).
  destruct (announced_keeps type io stats w1) as (Hu2 & Ha2 & Hs2 & Hc2).
  set (w2 := announced type io stats w1) in *.
  destruct (sweep_sent io (daysAhead type) w2)
    as (n & d & (Hu3 & Hs3 & created & events & Ha3 & He3 & _) & _).
  pose proof (sweep_clock io (daysAhead type) w2) as Hc3.
  split; [congruence |].
  split; [exists created; congruence |].
  split.
  { rewrite He3.
    unfold w2, announced; destruct io; simpl; rewrite He, <- ?app_assoc; eauto. }
  split; [rewrite Hs3, Hs2; exact Hids | lia].
Qed.

(** X14.  The order of a run's events.  When the fetch gives records, a
    run with a socket first broadcasts the high-risk records of the batch,
    one NEW_HAZARDOUS_ASTEROID each, then announces the batch's tallies in
    one DAILY_UPDATE or WEEKLY_UPDATE, then notifies the user of each
    alert its sweep creates, in the order of the alerts.  Without a socket
    nothing is sent. *)
Theorem run_event_order :
  forall type io w neos,
    fst (fetch type w) = Ok neos ->
    neos <> [] ->
    exists stats w1 broadcasts created notifications,
      processAndStoreAsteroids io neos w = (Ok stats, w1)
      /\ alerts (snd (triggerManualFetch type io w)) = alerts w ++ created
      /\ emitted (snd (triggerManualFetch type io w))
         = emitted w
           ++ (if io
               then broadcasts
                    ++ [{| Io.room := None;
                           Io.payload := update type stats (clock w1) |}]
                    ++ notifications
               else [])
      /\ (io = true ->
            List.length broadcasts = Stats.highRisk stats
            /\ Forall Tally.about_high broadcasts
            /\ Forall2 Delivery.notifies created notifications).
Proof.
  intros type io w neos Hfetch Hne.
  destruct (pipeline_cases type io w)
    as [[_ [H | [e H]]] | (neos' & stats & w1 & Hfetch' & _ & Hbatch & Hrun)];
    try congruence.
  rewrite Hfetch in Hfetch'; injection Hfetch' as <-.
  rewrite Hrun; cbn [snd].
  destruct (process_run io neos w stats w1 Hbatch)
    as (_ & Ha & _ & _ & ev & He & Hev & Hlen).
  destruct (announced_keeps type io stats w1) as (_ & Ha2 & _).
  destruct (sweep_sent io (daysAhead type) (announced type io stats w1))
    as (n & d & (_ & _ & created & events & Ha3 & He3 & _ & Hd & _) & _).
  exists stats, w1, ev, created, events.
  split; [exact Hbatch |].
  split; [congruence |].
  split.
  - rewrite He3; unfold announced; unfold Delivery.delivered in Hd.
    destruct io; simpl.
    + rewrite He, <- !app_assoc; reflexivity.
    + rewrite He, Hd.
      destruct ev; [rewrite !app_nil_r; reflexivity | discriminate].
  - intros ->.
    repeat split; assumption.
Qed.

End PipelineFacts.

Section PipelineRecords.

Import Effect Hoare Scheduler NasaService Pipeline Ingest.
Local Open Scope Z_scope.


(** A daily run with a socket over the stored sample, the feed having the
    sample record for the day. *)
Lemma run_event_order_witness :
  exists stats w1 broadcasts created notifications,
    processAndStoreAsteroids true [Samples.feed_record] fed = (Ok stats, w1)
    /\ alerts (snd (triggerManualFetch today true fed)) = alerts fed ++ created
    /\ emitted (snd (triggerManualFetch today true fed))
       = emitted fed
         ++ broadcasts
            ++ [{| Io.room := None; Io.payload := Io.DAILY_UPDATE stats (clock w1) |}]
            ++ notifications.
Proof.
  destruct (run_event_order today true fed [Samples.feed_record])
    as (stats & w1 & broadcasts & created & notifications & H1 & H2 & H3 & _).
  - reflexivity.
  - discriminate.
  - exists stats, w1, broadcasts, created, notifications; auto.
Defined.


End PipelineRecords.

(** ** A feed that answers *)

Section FeedAnswers.

Import Effect Hoare Scheduler NasaService Pipeline.
Local Open Scope Z_scope.

Lemma formatDate_days date n :
  formatDate (date + n * Js.DAY_MS) = formatDate date + n.
Proof. unfold formatDate; apply Z.div_add; unfold Js.DAY_MS; lia. Qed.

Lemma fetchNeoFeed_body startDate endDate w data :
  nasa w (formatDate startDate) (formatDate endDate) = Feed.Body data ->
  fetchNeoFeed startDate (Some endDate) w
  = (Ok {| success := true;
           error := None;
           element_count := Feed.element_count data;
           near_earth_objects := Feed.near_earth_objects data |}, w).
Proof.
  intros H.
  unfold fetchNeoFeed, try_catch, bind, request, ret.
  rewrite H; reflexivity.
Qed.

(** X16.  A feed that answers.  [fetchTodayNeos] asks the feed for the
    clock's day alone and gives what the answer files under that day, in
    the feed's order, and nothing of any other day; [fetchWeekNeos] asks for
    the clock's day and the six that follow and gives the objects of every
    day of the answer, day after day.  Neither touches the store.  An
    answer without [near_earth_objects] makes either throw a TypeError that
    [fetchNeoFeed] does not catch; the run catches it and ends with the
    world as it was. *)
Theorem fetch_of_an_answering_feed :
  forall w data,
    let day := formatDate (clock w) in
    (nasa w day day = Feed.Body data ->
     match Feed.near_earth_objects data with
     | Some m => fetchTodayNeos w = (Ok (lookup day m), w)
     | None =>
         fetchTodayNeos w = (Throw TypeError, w)
         /\ forall io, runDailyFetch io w = (Ok tt, w)
     end)
    /\ (nasa w day (day + 6) = Feed.Body data ->
        match Feed.near_earth_objects data with
        | Some m =>
            fetchWeekNeos w = (Ok (List.concat (List.map snd m)), w)
            /\ forall neo, In neo (List.concat (List.map snd m)) <->
                 exists date neos, In (date, neos) m /\ In neo neos
        | None =>
            fetchWeekNeos w = (Throw TypeError, w)
            /\ forall io, runWeeklyFetch io w = (Ok tt, w)
        end).
Proof.
  intros w data day; split; intros H.
  - pose proof (fetchNeoFeed_body (clock w) (clock w) w data H) as Hf.
    destruct (Feed.near_earth_objects data) as [m |] eqn:Em.
    + unfold fetchTodayNeos, bind, Date_now; rewrite Hf; simpl; rewrite ?Em; reflexivity.
    + assert (Ht : fetchTodayNeos w = (Throw TypeError, w))
        by (unfold fetchTodayNeos, bind, Date_now; rewrite Hf; simpl; rewrite ?Em;
            reflexivity).
      split; [exact Ht |].
      intros io; unfold runDailyFetch, try_catch, bind; rewrite Ht; reflexivity.
  - assert (H' : nasa w (formatDate (clock w)) (formatDate (clock w + 6 * Js.DAY_MS))
                 = Feed.Body data)
      by (rewrite formatDate_days; exact H).
    pose proof (fetchNeoFeed_body (clock w) (clock w + 6 * Js.DAY_MS) w data H') as Hf.
    destruct (Feed.near_earth_objects data) as [m |] eqn:Em.
    + split.
      * unfold fetchWeekNeos, bind, Date_now; rewrite Hf; simpl; rewrite ?Em; reflexivity.
      * intros neo; rewrite in_concat; split.
        -- intros (l & Hl & Hin).
           apply in_map_iff in Hl as ([date neos] & <- & Hm).
           exists date, neos; auto.
        -- intros (date & neos & Hm & Hin).
           exists neos; split; [| exact Hin].
           apply in_map_iff; exists (date, neos); auto.
    + assert (Ht : fetchWeekNeos w = (Throw TypeError, w))
        by (unfold fetchWeekNeos, bind, Date_now; rewrite Hf; simpl; rewrite ?Em;
            reflexivity).
      split; [exact Ht |].
      intros io; unfold runWeeklyFetch, try_catch, bind; rewrite Ht; reflexivity.
Qed.

(** The feed that files the sample record under the day asked. *)
Lemma fetch_of_an_answering_feed_witness :
  fetchTodayNeos fed = (Ok [Samples.feed_record], fed)
  /\ fetchWeekNeos fed = (Ok [Samples.feed_record], fed).
Proof.
  destruct (fetch_of_an_answering_feed fed
              {| Feed.element_count := Some 1%R;
                 Feed.near_earth_objects := Some [(0, [Samples.feed_record])] |})
    as [Hday Hweek].
  split.
  - exact (Hday eq_refl).
  - exact (proj1 (Hweek eq_refl)).
Defined.

End FeedAnswers.

(** ** Reading the alerts *)

Section InboxFacts.

Import Effect Hoare Inbox.
Local Open Scope Z_scope.

Local Arguments firstn : simpl never.
Local Arguments skipn : simpl never.

Lemma insert_perm a l : Permutation (insert a l) (a :: l).
Proof.
  induction l as [| x l IH]; simpl; [reflexivity |].
  destruct (AlertDoc.createdAt x <=? AlertDoc.createdAt a); [reflexivity |].
  rewrite IH; apply perm_swap.
Qed.

Lemma sort_perm l : Permutation (sort l) l.
Proof.
  induction l as [| a l IH]; simpl; [reflexivity |].
  rewrite insert_perm, IH; reflexivity.
Qed.

Lemma insert_sorted a l : newest_first l -> newest_first (insert a l).
Proof.
  unfold newest_first.
  induction 1 as [| x l Hl IH Hx]; simpl.
  - constructor; constructor.
  - destruct (Z.leb_spec (AlertDoc.createdAt x) (AlertDoc.createdAt a)).
    + constructor; [constructor; assumption |].
      constructor; [assumption |].
      eapply Forall_impl; [| exact Hx].
      intros y Hy; simpl in Hy; lia.
    + constructor; [exact IH |].
      rewrite insert_perm.
      constructor; [lia | exact Hx].
Qed.

Lemma sort_sorted l : newest_first (sort l).
Proof.
  induction l as [| a l IH]; simpl; [constructor | apply insert_sorted, IH].
Qed.

Lemma sorted_split l1 l2 :
  newest_first (l1 ++ l2) ->
  newest_first l1
  /\ forall x y, In x l1 -> In y l2 -> AlertDoc.createdAt y <= AlertDoc.createdAt x.
Proof.
  unfold newest_first.
  induction l1 as [| a l1 IH]; simpl; intros H.
  - split; [constructor | intros x y []].
  - inversion H as [| ? ? Hs Ha]; subst.
    destruct (IH Hs) as [Hs1 Hle].
    apply Forall_app in Ha as [Ha1 Ha2].
    split; [constructor; assumption |].
    intros x y [<- | Hx] Hy; [| apply Hle; assumption].
    rewrite Forall_forall in Ha2; apply Ha2, Hy.
Qed.

Lemma unread_spec userId a :
  unread userId a = true <-> AlertDoc.userId a = userId /\ AlertDoc.isRead a = false.
Proof.
  unfold unread.
  rewrite andb_true_iff, Nat.eqb_eq, negb_true_iff; reflexivity.
Qed.

(** X17.  The unread alerts.  When the store answers, [getUnreadAlerts]
    gives at most 20 alerts, each a stored unread alert of the user, newest
    first; the user's other unread alerts, if any, are none of them newer
    than any alert given, and there are some only when 20 are given.  The
    query changes no alert. *)
Theorem unread_alerts_newest_first :
  forall userId w l,
    fst (getUnreadAlerts userId w) = Ok l ->
    (List.length l <= 20)%nat
    /\ Forall (fun a => In a (alerts w)
                        /\ AlertDoc.userId a = userId
                        /\ AlertDoc.isRead a = false) l
    /\ newest_first l
    /\ (exists older,
          Permutation (filter (unread userId) (alerts w)) (l ++ older)
          /\ (forall x y, In x l -> In y older ->
                AlertDoc.createdAt y <= AlertDoc.createdAt x)
          /\ (older <> [] -> List.length l = 20%nat))
    /\ alerts (snd (getUnreadAlerts userId w)) = alerts w.
Proof.
  intros userId w l.
  unfold getUnreadAlerts, await_store.
  destruct (fails (oracle w (ops w))); cbn [fst snd]; [discriminate |].
  intros H; injection H as <-.
  set (s := sort (filter (unread userId) (alerts w))).
  pose proof (sort_perm (filter (unread userId) (alerts w))) as Hperm; fold s in Hperm.
  pose proof (sort_sorted (filter (unread userId) (alerts w))) as Hsorted; fold s in Hsorted.
  rewrite <- (firstn_skipn 20 s) in Hsorted, Hperm.
  apply sorted_split in Hsorted as [Hs Hle].
  split; [apply firstn_le_length |].
  split.
  { apply Forall_forall; intros a Hin.
    assert (Hin' : In a (filter (unread userId) (alerts w))).
    { eapply Permutation_in; [exact Hperm |].
      apply in_or_app; left; exact Hin. }
    apply filter_In in Hin' as [Hin' Hu].
    apply unread_spec in Hu as [Hu Hr]; auto. }
  split; [exact Hs |].
  split; [| reflexivity].
  exists (skipn 20 s).
  split; [symmetry; exact Hperm |].
  split; [exact Hle |].
  intros Hne.
  apply firstn_length_le.
  destruct (Nat.le_gt_cases 20 (List.length s)) as [Hlen | Hlen]; [exact Hlen |].
  exfalso; apply Hne, skipn_all2; lia.
Qed.

Lemma read_at_key now sel x : guard_key (read_at now sel x) = guard_key x.
Proof. unfold read_at; destruct (sel x); reflexivity. Qed.

Lemma read_at_unread now userId x :
  unread userId (read_at now (unread userId) x) = false.
Proof.
  unfold read_at.
  destruct (unread userId x) eqn:E; [| exact E].
  unfold unread; simpl; apply andb_false_r.
Qed.

Lemma read_at_other now userId v x :
  v <> userId -> unread v x = true -> read_at now (unread userId) x = x.
Proof.
  intros Hv Hx.
  unfold read_at.
  destruct (unread userId x) eqn:E; [| reflexivity].
  apply unread_spec in E as [E _]; apply unread_spec in Hx as [Hx _]; congruence.
Qed.

Lemma recent_key u a since x y :
  guard_key x = guard_key y -> Alert.recent u a since x = Alert.recent u a since y.
Proof.
  unfold guard_key, Alert.recent; intros H; injection H as -> -> ->; reflexivity.
Qed.

Lemma existsb_keys (f : AlertDoc.t -> bool) (g : AlertDoc.t -> AlertDoc.t) l :
  (forall x, f (g x) = f x) -> existsb f (List.map g l) = existsb f l.
Proof.
  intros H; induction l as [| x l IH]; simpl; [reflexivity |].
  rewrite H, IH; reflexivity.
Qed.

Lemma find_none_existsb {A} (f : A -> bool) l :
  find f l = None <-> existsb f l = false.
Proof.
  induction l as [| x l IH]; simpl; [split; reflexivity |].
  destruct (f x); simpl; [split; discriminate | exact IH].
Qed.

End InboxFacts.

Section MarkAllRead.

Import Effect Hoare Inbox.
Local Open Scope Z_scope.

Local Arguments firstn : simpl never.

Lemma markAllAlertsRead_unfold userId w :
  markAllAlertsRead userId w =
  if fails (oracle w (ops w)) then (Throw StoreError, tick w)
  else (Ok (List.length (filter (unread userId) (alerts w))),
        tick (set_alerts (List.map (read_at (clock w) (unread userId)) (alerts w)) w)).
Proof.
  unfold markAllAlertsRead, bind, Date_now, await_store.
  destruct (fails (oracle w (ops w))); reflexivity.
Qed.

Lemma none_left now userId l :
  filter (unread userId) (List.map (read_at now (unread userId)) l) = [].
Proof.
  induction l as [| x l IH]; simpl; [reflexivity |].
  rewrite read_at_unread; exact IH.
Qed.

Lemma others_left now userId v l :
  v <> userId ->
  filter (unread v) (List.map (read_at now (unread userId)) l) = filter (unread v) l.
Proof.
  intros Hv; induction l as [| x l IH]; simpl; [reflexivity |].
  rewrite IH.
  destruct (unread v x) eqn:E.
  - rewrite (read_at_other now userId v x Hv E), E; reflexivity.
  - unfold read_at.
    destruct (unread userId x) eqn:E'; [| rewrite E; reflexivity].
    unfold unread; simpl; rewrite andb_false_r; reflexivity.
Qed.

Lemma apart_keys x y x' y' :
  guard_key x' = guard_key x -> guard_key y' = guard_key y ->
  AlertDoc.type x' = AlertDoc.type x -> AlertDoc.type y' = AlertDoc.type y ->
  Dedup.apart x y -> Dedup.apart x' y'.
Proof.
  unfold guard_key, Dedup.apart, Dedup.same_pair.
  intros Hx Hy Tx Ty H (H1 & H2 & H3 & H4).
  injection Hx as Hx1 Hx2 Hx3; injection Hy as Hy1 Hy2 Hy3.
  rewrite Hx3, Hy3; apply H.
  repeat split; congruence.
Qed.

Lemma read_at_type now sel x : AlertDoc.type (read_at now sel x) = AlertDoc.type x.
Proof. unfold read_at; destruct (sel x); reflexivity. Qed.

Lemma contract_read_at now sel l :
  Dedup.contract l -> Dedup.contract (List.map (read_at now sel) l).
Proof.
  unfold Dedup.contract.
  induction 1 as [| x l Hx Hl IH]; simpl; constructor; [| exact IH].
  apply Forall_forall; intros y' Hy'.
  apply in_map_iff in Hy' as (y & <- & Hy).
  rewrite Forall_forall in Hx.
  apply (apart_keys x y); auto using read_at_key, read_at_type.
Qed.

(** X18.  Reading all.  [markAllAlertsRead] changes no alert of another
    user and nothing of what the dedup guard of [createAlertForUser] looks
    at, so that the guard answers as before and alerts that were 24 hours
    apart stay so.  When the store answers it reports the number of the
    user's unread alerts and leaves the user none: [getUnreadAlerts] then
    gives the empty list.  When the store raises, the alerts are as they
    were. *)
Theorem mark_all_read :
  forall userId w,
    (forall v, v <> userId ->
       filter (unread v) (alerts (snd (markAllAlertsRead userId w)))
       = filter (unread v) (alerts w))
    /\ List.map guard_key (alerts (snd (markAllAlertsRead userId w)))
       = List.map guard_key (alerts w)
    /\ (forall u a since,
          find (Alert.recent u a since) (alerts (snd (markAllAlertsRead userId w))) = None
          <-> find (Alert.recent u a since) (alerts w) = None)
    /\ (Dedup.contract (alerts w) ->
        Dedup.contract (alerts (snd (markAllAlertsRead userId w))))
    /\ (fails (oracle w (ops w)) = false ->
        fst (markAllAlertsRead userId w)
        = Ok (List.length (filter (unread userId) (alerts w)))
        /\ filter (unread userId) (alerts (snd (markAllAlertsRead userId w))) = []
        /\ forall l,
             fst (getUnreadAlerts userId (snd (markAllAlertsRead userId w))) = Ok l ->
             l = [])
    /\ (fails (oracle w (ops w)) = true ->
        fst (markAllAlertsRead userId w) = Throw StoreError
        /\ alerts (snd (markAllAlertsRead userId w)) = alerts w).
Proof.
  intros userId w.
  rewrite markAllAlertsRead_unfold.
  destruct (fails (oracle w (ops w))); cbn [fst snd].
  { split; [reflexivity |]; split; [reflexivity |]; split; [reflexivity |].
    split; [intros H; exact H |].
    split; [discriminate | split; reflexivity]. }
  change (alerts (tick (set_alerts ?l w))) with l.
  split; [intros v Hv; apply others_left, Hv |].
  split; [rewrite map_map; apply map_ext; intros; apply read_at_key |].
  split.
  { intros u a since.
    rewrite !find_none_existsb, existsb_keys; [reflexivity |].
    intros x; apply recent_key, read_at_key. }
  split; [apply contract_read_at |].
  split; [| discriminate].
  intros _.
  split; [reflexivity |].
  split; [apply none_left |].
  intros l.
  unfold getUnreadAlerts, await_store.
  destruct (fails _); cbn [fst snd]; [discriminate |].
  change (alerts (tick (set_alerts ?l w))) with l.
  rewrite none_left.
  intros H; injection H as <-; reflexivity.
Qed.

End MarkAllRead.

Section InboxExample.

Import Effect Inbox.
Local Open Scope Z_scope.

(** The matcher's two unread alerts, the later one first. *)
Lemma unread_alerts_newest_first_witness :
  newest_first
    [Alert.closeApproachAlert Samples.matcher Delivery.object_77 4000;
     Alert.closeApproachAlert Samples.matcher Samples.object_82 1000].
Proof.
  apply (unread_alerts_newest_first 2 inbox); reflexivity.
Defined.

(** After reading all, the matcher has no unread alert and the watcher has
    the one there was. *)
Lemma mark_all_read_witness :
  fst (markAllAlertsRead 2 inbox) = Ok 2%nat
  /\ filter (unread 2) (alerts (snd (markAllAlertsRead 2 inbox))) = []
  /\ filter (unread 1) (alerts (snd (markAllAlertsRead 2 inbox)))
     = [Alert.closeApproachAlert Samples.watcher Samples.object_82 3000].
Proof.
  destruct (mark_all_read 2 inbox) as (Hother & _ & _ & _ & Hok & _).
  destruct (Hok eq_refl) as (Hcount & Hnone & _).
  split; [exact Hcount |].
  split; [exact Hnone |].
  rewrite (Hother 1%nat); [reflexivity | discriminate].
Defined.

End InboxExample.

(** ** The watchlist *)

Section WatchlistFacts.

Import Watchlist.

Lemma isWatching_spec u id : isWatching u id = true <-> In id (UserDoc.watched_asteroid_ids u).
Proof. apply includes_spec. Qed.

Lemma isWatching_false u id :
  isWatching u id = false <-> ~ In id (UserDoc.watched_asteroid_ids u).
Proof. rewrite <- isWatching_spec, not_true_iff_false; reflexivity. Qed.

Lemma isWatching_iff u u' id :
  (In id (UserDoc.watched_asteroid_ids u') <-> In id (UserDoc.watched_asteroid_ids u)) ->
  isWatching u' id = isWatching u id.
Proof.
  intros H.
  destruct (isWatching u id) eqn:E.
  - apply isWatching_spec, H, isWatching_spec, E.
  - apply isWatching_false; rewrite H; apply isWatching_false, E.
Qed.

Lemma watched_add u id :
  UserDoc.watched_asteroid_ids (addToWatchlist u id)
  = if isWatching u id then UserDoc.watched_asteroid_ids u
    else UserDoc.watched_asteroid_ids u ++ [id].
Proof. unfold addToWatchlist; destruct (isWatching u id); reflexivity. Qed.

Lemma filter_all {A} (f : A -> bool) l : (forall x, In x l -> f x = true) -> filter f l = l.
Proof.
  induction l as [| x l IH]; simpl; intros H; [reflexivity |].
  rewrite (H x (or_introl eq_refl)), IH; [reflexivity |].
  intros y Hy; apply H; right; exact Hy.
Qed.

Lemma in_remove u id j :
  In j (UserDoc.watched_asteroid_ids (removeFromWatchlist u id))
  <-> In j (UserDoc.watched_asteroid_ids u) /\ j <> id.
Proof.
  unfold removeFromWatchlist; simpl.
  rewrite filter_In, negb_true_iff, String.eqb_neq; reflexivity.
Qed.

Lemma in_add u id j :
  In j (UserDoc.watched_asteroid_ids (addToWatchlist u id))
  <-> In j (UserDoc.watched_asteroid_ids u) \/ j = id.
Proof.
  rewrite watched_add.
  destruct (isWatching u id) eqn:E.
  - apply isWatching_spec in E.
    split; [auto | intros [H | ->]; assumption].
  - rewrite in_app_iff; simpl; split; intros [H | H]; auto.
    + destruct H as [<- | []]; auto.
Qed.

(** X19.  The watchlist.  After [addToWatchlist] the user watches the
    asteroid, after [removeFromWatchlist] no longer, and neither changes
    whether any other asteroid is watched, nor the user's id or alert
    settings.  Adding twice is adding once, and no asteroid is listed twice
    by adding; removing an asteroid just added to a list that did not have
    it gives the user back.  For the sweep, a user who has added an asteroid
    is one of its watchers exactly when alerts are enabled and is never one
    of its threshold-matchers, whatever the score; one who has removed it is
    no watcher of it. *)
Theorem watchlist_round_trip :
  forall u id,
    isWatching (addToWatchlist u id) id = true
    /\ isWatching (removeFromWatchlist u id) id = false
    /\ (forall j, j <> id ->
          isWatching (addToWatchlist u id) j = isWatching u j
          /\ isWatching (removeFromWatchlist u id) j = isWatching u j)
    /\ addToWatchlist (addToWatchlist u id) id = addToWatchlist u id
    /\ (NoDup (UserDoc.watched_asteroid_ids u) ->
        NoDup (UserDoc.watched_asteroid_ids (addToWatchlist u id)))
    /\ (isWatching u id = false -> removeFromWatchlist (addToWatchlist u id) id = u)
    /\ UserDoc._id (addToWatchlist u id) = UserDoc._id u
    /\ UserDoc.alertSettings (addToWatchlist u id) = UserDoc.alertSettings u
    /\ UserDoc._id (removeFromWatchlist u id) = UserDoc._id u
    /\ UserDoc.alertSettings (removeFromWatchlist u id) = UserDoc.alertSettings u
    /\ User.watching id (addToWatchlist u id) = UserDoc.enabled (UserDoc.alertSettings u)
    /\ (forall score, User.threshold_match id score (addToWatchlist u id) = false)
    /\ User.watching id (removeFromWatchlist u id) = false.
Proof.
  intros u id.
  assert (Hadd : isWatching (addToWatchlist u id) id = true)
    by (apply isWatching_spec, in_add; right; reflexivity).
  assert (Hrem : isWatching (removeFromWatchlist u id) id = false)
    by (apply isWatching_false; rewrite in_remove; intros [_ H]; apply H; reflexivity).
  assert (Hid : UserDoc._id (addToWatchlist u id) = UserDoc._id u
                /\ UserDoc.alertSettings (addToWatchlist u id) = UserDoc.alertSettings u)
    by (unfold addToWatchlist; destruct (negb _); split; reflexivity).
  destruct Hid as [Hid Hset].
  split; [exact Hadd |].
  split; [exact Hrem |].
  split.
  { intros j Hj; split; apply isWatching_iff.
    - rewrite in_add; split; [intros [H | H]; [exact H | contradiction] | auto].
    - rewrite in_remove; split; [intros [H _]; exact H | auto]. }
  split.
  { unfold addToWatchlist at 1; rewrite Hadd; reflexivity. }
  split.
  { intros Hnd; rewrite watched_add.
    destruct (isWatching u id) eqn:E; [exact Hnd |].
    apply isWatching_false in E.
    apply NoDup_app; repeat split; [exact Hnd | constructor; [intros [] | constructor] |].
    intros x Hx [<- | []]; contradiction. }
  split.
  { intros E.
    unfold removeFromWatchlist, with_watched.
    rewrite watched_add, E, Hid, Hset.
    rewrite filter_app; simpl.
    rewrite String.eqb_refl; simpl.
    rewrite app_nil_r, filter_all.
    - unfold addToWatchlist; rewrite E; simpl; destruct u; reflexivity.
    - intros x Hx.
      apply negb_true_iff, String.eqb_neq; intros ->.
      apply isWatching_false in E; contradiction. }
  split; [exact Hid |].
  split; [exact Hset |].
  split; [reflexivity |].
  split; [reflexivity |].
  split.
  { unfold User.watching; fold (isWatching (addToWatchlist u id) id).
    rewrite Hadd, Hset; reflexivity. }
  split.
  { intros score; unfold User.threshold_match.
    fold (isWatching (addToWatchlist u id) id); rewrite Hadd.
    apply andb_false_r. }
  unfold User.watching; fold (isWatching (removeFromWatchlist u id) id).
  rewrite Hrem; reflexivity.
Qed.

End WatchlistFacts.

(** ** The size comparison *)

Section SizeComparisonFacts.

Import SizeComparison.
Local Open Scope R_scope.







End SizeComparisonFacts.

(** ** The colours of the categories *)

Section RiskDisplayFacts.

Import RiskDisplay Ingest.
Local Open Scope Z_scope.

(** X21.  The badge of a stored record.  For a record as the pipeline
    leaves it, with the integer score [z], the badge colour of the schema
    is the colour that [getRiskLevelInfo] gives for the category of [z]: the
    two tables agree.  The badge is red exactly from 76 and green exactly
    up to 25. *)
Theorem badge_colour_follows_the_score :
  forall now d z,
    well_formed now d ->
    AsteroidDoc.riskScore d = Some (IZR z) ->
    riskBadgeColor d = color (getRiskLevelInfo (RiskEngine.getRiskCategory z))
    /\ (riskBadgeColor d = "#ef4444"%string <-> 76 <= z)
    /\ (riskBadgeColor d = "#22c55e"%string <-> z <= 25).
Proof.
  intros now d z ((z' & Hs & _ & Hc) & _) Hz.
  rewrite Hs in Hz; injection Hz as Hz; apply eq_IZR in Hz; subst z'.
  unfold riskBadgeColor; rewrite Hc.
  unfold RiskEngine.getRiskCategory.
  destruct (Z.leb_spec 76 z); [simpl; repeat split; try discriminate; lia |].
  destruct (Z.leb_spec 51 z); [simpl; repeat split; try discriminate; lia |].
  destruct (Z.leb_spec 26 z); simpl; repeat split; try discriminate; lia.
Qed.

(** The sample record, stored with a score of 75: amber. *)
Lemma badge_colour_follows_the_score_witness :
  riskBadgeColor (scored 75) = "#f59e0b"%string.
Proof.
  apply (badge_colour_follows_the_score 10 (scored 75) 75).
  - exact sample_well_formed.
  - reflexivity.
Defined.

End RiskDisplayFacts.

(** ** The middleware *)

Section MiddlewareFacts.

Import Middleware.

Variable verify : string -> Thrown + option nat.
Variable findById : option nat -> Thrown + option Account.

Lemma caught_not_next error : caught error <> next.
Proof.
  unfold caught.
  destruct (String.eqb _ _); [discriminate |].
  destruct (String.eqb _ _); discriminate.
Qed.

Lemma caught_status error status message :
  caught error = json status message -> status = 401.
Proof.
  unfold caught.
  destruct (String.eqb _ _); [intros H; injection H as <- _; reflexivity |].
  destruct (String.eqb _ _); [intros H; injection H as <- _; reflexivity | discriminate].
Qed.

(** When [auth] lets a request through. *)
Lemma auth_next req req' :
  auth verify findById req = (req', next) <->
  exists authHeader token id account,
    authorization req = Some authHeader
    /\ String.prefix "Bearer " authHeader = true
    /\ split_1 authHeader = Some token
    /\ token <> EmptyString
    /\ verify token = inr id
    /\ findById id = inr (Some account)
    /\ req' = {| authorization := authorization req;
                 user := Some {| u_id := _id account;
                                 u_email := email account;
                                 u_displayName := displayName account;
                                 u_role := role account |} |}.
Proof.
  unfold auth.
  split.
  - destruct (authorization req) as [authHeader |]; [| discriminate].
    destruct (String.prefix "Bearer " authHeader) eqn:Hp; cbn [negb]; [| discriminate].
    destruct (split_1 authHeader) as [[| c token] |] eqn:Hs; try discriminate.
    destruct (verify (String c token)) as [error | id] eqn:Hv.
    { intros H; injection H as _ H; apply caught_not_next in H; contradiction. }
    destruct (findById id) as [error | [account |]] eqn:Hf.
    { intros H; injection H as _ H; apply caught_not_next in H; contradiction. }
    2: discriminate.
    intros H; injection H as <-.
    exists authHeader, (String c token), id, account.
    split; [reflexivity |]; split; [exact Hp |]; split; [exact Hs |].
    split; [discriminate |]; split; [exact Hv |]; split; [exact Hf | reflexivity].
  - intros (authHeader & token & id & account & Ha & Hp & Hs & Ht & Hv & Hf & ->).
    rewrite Ha, Hp, Hs; cbn [negb].
    destruct token as [| c token]; [contradiction |].
    rewrite Hv, Hf; reflexivity.
Qed.

Lemma bearer_prefix authHeader :
  String.prefix "Bearer " authHeader = true <->
  exists rest, authHeader = ("Bearer " ++ rest)%string.
Proof.
  split.
  - intros H.
    do 7 (destruct authHeader as [| ? authHeader]; [discriminate H |];
          simpl in H;
          match type of H with
          | (if ?d then _ else _) = true => destruct d; [subst | discriminate H]
          end).
    exists authHeader; reflexivity.
  - intros [rest ->]; simpl.
    repeat match goal with
           | |- (if ?d then _ else _) = true => destruct d; [| congruence]
           end.
    destruct rest; reflexivity.
Qed.

Lemma bearer_token rest : split_1 ("Bearer " ++ rest) = Some (upto_space rest).
Proof. reflexivity. Qed.

(** X22.  The admin routes.  A request gets past [auth] and [adminAuth]
    exactly when its authorization header is Bearer, a space and more, what
    follows up to the next space is not empty and verifies as a token, the
    user of the token is found and has the role admin; [req.user] is then
    that user.  [auth] answers no status but 401; the chain answers 401, or
    403 to a user who got past [auth] without being an admin. *)
Theorem admin_routes_need_an_admin :
  forall req,
    (snd (admin_only verify findById req) = next <->
     exists rest id account,
       authorization req = Some ("Bearer " ++ rest)%string
       /\ upto_space rest <> EmptyString
       /\ verify (upto_space rest) = inr id
       /\ findById id = inr (Some account)
       /\ role account = "admin"%string)
    /\ (snd (admin_only verify findById req) = next ->
        exists rest id account,
          authorization req = Some ("Bearer " ++ rest)%string
          /\ verify (upto_space rest) = inr id
          /\ findById id = inr (Some account)
          /\ user (fst (admin_only verify findById req))
             = Some {| u_id := _id account;
                       u_email := email account;
                       u_displayName := displayName account;
                       u_role := "admin" |})
    /\ (forall status message,
          snd (auth verify findById req) = json status message -> status = 401)
    /\ (forall status message,
          snd (admin_only verify findById req) = json status message ->
          status = 401
          \/ (status = 403
              /\ snd (auth verify findById req) = next
              /\ exists u, user (fst (auth verify findById req)) = Some u
                           /\ u_role u <> "admin"%string)).
Proof.
  intros req.
  assert (Hnext : snd (admin_only verify findById req) = next ->
            exists rest id account,
              authorization req = Some ("Bearer " ++ rest)%string
              /\ upto_space rest <> EmptyString
              /\ verify (upto_space rest) = inr id
              /\ findById id = inr (Some account)
              /\ role account = "admin"%string
              /\ user (fst (admin_only verify findById req))
                 = Some {| u_id := _id account;
                           u_email := email account;
                           u_displayName := displayName account;
                           u_role := "admin" |}).
  { unfold admin_only.
    destruct (auth verify findById req) as [req' r] eqn:Hauth.
    destruct r; cbn [fst snd]; try discriminate.
    apply auth_next in Hauth
      as (authHeader & token & id & account & Ha & Hp & Hs & Ht & Hv & Hf & ->).
    apply bearer_prefix in Hp as [rest ->].
    rewrite bearer_token in Hs; injection Hs as <-.
    unfold adminAuth; cbn [user u_role].
    destruct (String.eqb_spec (role account) "admin") as [E | E]; [| discriminate].
    intros _; exists rest, id, account; rewrite E; auto 10. }
  split; [split |].
  - intros H; destruct (Hnext H) as (rest & id & account & H1 & H2 & H3 & H4 & H5 & _).
    exists rest, id, account; auto.
  - intros (rest & id & account & Ha & Ht & Hv & Hf & Hr).
    unfold admin_only.
    assert (Hauth : auth verify findById req
              = ({| authorization := authorization req;
                    user := Some {| u_id := _id account;
                                    u_email := email account;
                                    u_displayName := displayName account;
                                    u_role := role account |} |}, next)).
    { apply auth_next.
      exists ("Bearer " ++ rest)%string, (upto_space rest), id, account.
      split; [exact Ha |].
      split; [apply bearer_prefix; exists rest; reflexivity |].
      split; [apply bearer_token |].
      split; [exact Ht |]; split; [exact Hv |]; split; [exact Hf | reflexivity]. }
    rewrite Hauth; cbn [snd]; unfold adminAuth; cbn [user u_role].
    rewrite Hr; reflexivity.
  - split.
    { intros H; destruct (Hnext H) as (rest & id & account & H1 & H2 & H3 & H4 & H5 & H6).
      exists rest, id, account; auto. }
    assert (H401 : forall status message,
              snd (auth verify findById req) = json status message -> status = 401).
    { intros status message.
      unfold auth.
      destruct (authorization req) as [authHeader |];
        [| intros H; injection H as <- _; reflexivity].
      destruct (negb _); [intros H; injection H as <- _; reflexivity |].
      destruct (split_1 authHeader) as [[| c token] |];
        try (intros H; injection H as <- _; reflexivity).
      destruct (verify _) as [error | id]; [apply caught_status |].
      destruct (findById id) as [error | [account |]]; cbn [snd];
        [apply caught_status | discriminate | intros H; injection H as <- _; reflexivity]. }
    split; [exact H401 |].
    intros status message.
    unfold admin_only.
    destruct (auth verify findById req) as [req' r] eqn:Hauth.
    destruct r; cbn [fst snd] in *.
    + unfold adminAuth.
      apply auth_next in Hauth as (? & ? & ? & account & _ & _ & _ & _ & _ & _ & ->).
      cbn [user u_role].
      destruct (String.eqb_spec (role account) "admin") as [E | E]; cbn [negb];
        [discriminate |].
      intros H; injection H as <- _.
      right; split; [reflexivity |]; split; [reflexivity |].
      eexists; split; [reflexivity | exact E].
    + discriminate.
    + intros H; left; apply (H401 status message); exact H.
Qed.

End MiddlewareFacts.

Section MiddlewareExample.

Import Middleware.

(** The administrator's token gets through, with a second word after it or
    not; the user's token is answered 403, and no token 401. *)
Lemma admin_routes_need_an_admin_witness :
  snd (admin_only sample_verify sample_findById
         {| authorization := Some "Bearer t0k3n extra"%string; user := None |}) = next
  /\ snd (admin_only sample_verify sample_findById
            {| authorization := Some "Bearer us3r"%string; user := None |})
     = json 403 "Access denied. Admin privileges required."
  /\ snd (admin_only sample_verify sample_findById
            {| authorization := Some "Bearer "%string; user := None |})
     = json 401 "No token provided. Authorization denied.".
Proof.
  split; [| split; reflexivity].
  apply (admin_routes_need_an_admin sample_verify sample_findById).
  exists "t0k3n extra"%string, (Some 7), {| _id := 7; email := "admin@example.org";
                                            displayName := "Admin"; role := "admin" |}.
  repeat split; discriminate.
Defined.

End MiddlewareExample.

(** ** The chat rooms *)

Section ChatFacts.

Import Chat.

Lemma after_spec p s rest : after p s = Some rest <-> s = (p ++ rest)%string.
Proof.
  revert s; induction p as [| a p IH]; intros s; simpl.
  - split; [intros H; injection H as ->; reflexivity | intros ->; reflexivity].
  - destruct s as [| b s]; [split; discriminate |].
    destruct (Ascii.eqb_spec a b) as [<- | Hab].
    + rewrite IH; split; [intros ->; reflexivity | intros H; injection H as ->; reflexivity].
    + split; [discriminate | intros H; injection H as -> _; contradiction].
Qed.

Lemma one_or_more_spec s :
  one_or_more s = true <->
  s <> EmptyString /\ Forall (fun c => in_class c = true) (list_ascii_of_string s).
Proof.
  induction s as [| c s IH]; simpl.
  - split; [discriminate | intros [H _]; contradiction].
  - destruct s as [| c' s].
    + split.
      * intros H; split; [discriminate | constructor; [exact H | constructor]].
      * intros [_ H]; inversion H; assumption.
    + rewrite andb_true_iff, IH; split.
      * intros [Hc [_ Hs]]; split; [discriminate | constructor; assumption].
      * intros [_ H]; inversion H; subst.
        split; [assumption | split; [discriminate | assumption]].
Qed.

Lemma asteroid_room_spec room :
  asteroid_room room = true <->
  exists id, room = ("asteroid:" ++ id)%string
             /\ id <> EmptyString
             /\ Forall (fun c => in_class c = true) (list_ascii_of_string id).
Proof.
  unfold asteroid_room.
  destruct (after "asteroid:" room) as [id |] eqn:E.
  - apply after_spec in E; rewrite one_or_more_spec; split.
    + intros [H1 H2]; exists id; auto.
    + intros (id' & Hr & H1 & H2).
      rewrite Hr in E; injection E as <-; auto.
  - split; [discriminate |].
    intros (id & Hr & _).
    apply after_spec in Hr; congruence.
Qed.

Lemma global_is_no_asteroid_room : asteroid_room "global" = false.
Proof. reflexivity. Qed.

Lemma on_keeps event rooms :
  In "global"%string rooms ->
  Forall (fun r => validator r = true) rooms ->
  NoDup rooms ->
  In "global"%string (on event rooms)
  /\ Forall (fun r => validator r = true) (on event rooms)
  /\ NoDup (on event rooms).
Proof.
  intros Hg Hv Hn.
  destruct event as [[room |] | [room |]]; simpl; auto.
  - destruct (negb (String.eqb room "") && asteroid_room room) eqn:E; auto.
    apply andb_true_iff in E as [_ E].
    unfold join.
    destruct (Js.includes rooms room) eqn:Hi; auto.
    split; [right; exact Hg |].
    split.
    + constructor; [unfold validator; rewrite E; apply orb_true_r | exact Hv].
    + constructor; [| exact Hn].
      intros Hin; apply includes_spec in Hin; congruence.
  - destruct (negb (String.eqb room "") && negb (String.eqb room "global")) eqn:E; auto.
    apply andb_true_iff in E as [_ E].
    unfold leave.
    split; [apply filter_In; split; [exact Hg |] |].
    + rewrite String.eqb_sym; exact E.
    + split; [| apply NoDup_filter, Hn].
      apply Forall_forall; intros r Hr.
      apply filter_In in Hr as [Hr _].
      rewrite Forall_forall in Hv; apply Hv, Hr.
Qed.

(** X23.  The rooms of a chat socket.  Whatever [chat:join_room] and
    [chat:leave_room] events a socket sends, with whatever rooms, it stays
    in the global room, and every room it is in is one the schema's
    validator accepts: global, or asteroid: followed by one or more letters,
    digits, underscores or hyphens.  No event makes it join any other room,
    and none makes it leave the global one. *)
Theorem chat_rooms_stay_valid :
  forall events,
    In "global"%string (rooms_after events)
    /\ NoDup (rooms_after events)
    /\ Forall (fun room =>
         validator room = true
         /\ (room = "global"%string
             \/ exists id,
                  room = ("asteroid:" ++ id)%string
                  /\ id <> EmptyString
                  /\ Forall (fun c => in_class c = true) (list_ascii_of_string id)))
       (rooms_after events).
Proof.
  intros events.
  assert (H : forall rooms,
            In "global"%string rooms ->
            Forall (fun r => validator r = true) rooms ->
            NoDup rooms ->
            In "global"%string (fold_left (fun rooms event => on event rooms) events rooms)
            /\ Forall (fun r => validator r = true)
                 (fold_left (fun rooms event => on event rooms) events rooms)
            /\ NoDup (fold_left (fun rooms event => on event rooms) events rooms)).
  { induction events as [| event events IH]; intros rooms Hg Hv Hn; simpl; [auto |].
    destruct (on_keeps event rooms Hg Hv Hn) as (Hg' & Hv' & Hn').
    apply IH; assumption. }
  destruct (H connection) as (Hg & Hv & Hn).
  - left; reflexivity.
  - constructor; [reflexivity | constructor].
  - constructor; [intros [] | constructor].
  - split; [exact Hg |]; split; [exact Hn |].
    eapply Forall_impl; [| exact Hv].
    intros room Hr; split; [exact Hr |].
    unfold validator in Hr; apply orb_true_iff in Hr as [Hr | Hr].
    + left; apply String.eqb_eq, Hr.
    + right; apply asteroid_room_spec, Hr.
Qed.

End ChatFacts.
